(** * Download manager: worker pool, queue manager and destination naming

    A shallow embedding of [download_manager/downloader.py],
    [download_manager/queue_manager.py], the filename part of
    [download_manager/storage_optimizer.py] and the size computation of
    [download_manager/progress_tracker.py], followed by
    the properties of the scheduling core that hold (or fail) on that
    code.

    Layout: the embedding first (Python runtime pieces, storage naming,
    downloader, queue manager, the combined system, the progress
    tracker), then the lemmas and the theorems. *)

From Stdlib Require Import PrimFloat.
From Stdlib Require Import ZArith QArith Bool List Ascii String Lia Sorted.
From stdpp Require Import base option list gmap strings pretty.

Local Open Scope Z_scope.

(* ===================================================================== *)
(** * Python runtime pieces *)
(* ===================================================================== *)

Module Py.

(** A Python [str] as the list of its characters. *)
Definition str := list ascii.

(** The classes the [except] clauses of the program tell apart.
    [IOError] is another name of [OSError], and
    [requests.exceptions.RequestException] is a subclass of it: an
    instance of the second is an instance of the first. *)
Inductive exn_class : Type :=
| an_OSError            (* [OSError], outside [requests] *)
| a_RequestException    (* [requests.exceptions.RequestException] *)
| another_Exception.    (* any other [Exception] *)

(** An exception object (an instance of [Exception]), reduced to what the
    [except] clauses look at: its class and its [str(e)]. *)
Record exn := Exn {
  class_of : exn_class;
  exn_str : string
}.

(** [isinstance(e, IOError)] *)
Definition is_IOError (e : exn) : bool :=
  match class_of e with
  | an_OSError | a_RequestException => true
  | another_Exception => false
  end.

(** [isinstance(e, requests.exceptions.RequestException)] *)
Definition is_RequestException (e : exn) : bool :=
  match class_of e with
  | a_RequestException => true
  | _ => false
  end.

(** Outcome of running a piece of code on a state [S]: it returns a value
    or raises; in both cases the writes made so far stay. *)
Inductive outcome (S A : Type) : Type :=
| Return (a : A) (s : S)
| Raise (e : exn) (s : S).
Arguments Return {S A} a s.
Arguments Raise {S A} e s.

Definition M (S A : Type) : Type := S -> outcome S A.

Definition ret {S A} (a : A) : M S A := fun s => Return a s.
Definition raise {S A} (e : exn) : M S A := fun s => Raise e s.
Definition bind {S A B} (m : M S A) (k : A -> M S B) : M S B :=
  fun s => match m s with
           | Return a s' => k a s'
           | Raise e s' => Raise e s'
           end.
Declare Scope py_scope.
Notation "x <~ m ; k" := (bind m (fun x => k))
  (at level 20, m at level 100, k at level 200, only parsing) : py_scope.
Notation "m ;;; k" := (bind m (fun _ => k))
  (at level 100, k at level 200, only parsing, right associativity)
  : py_scope.

Definition get {S} : M S S := fun s => Return s s.
Definition put {S} (s : S) : M S unit := fun _ => Return tt s.
Definition modify {S} (f : S -> S) : M S unit := fun s => Return tt (f s).

(** [try: body except C1: h1 except C2: h2 ...]: the first clause whose
    class test accepts the exception runs; with none, the exception
    goes on to the caller. *)
Fixpoint dispatch {S A} (clauses : list ((exn -> bool) * (exn -> M S A)))
         (e : exn) : M S A :=
  match clauses with
  | [] => raise e
  | (accepts, handler) :: rest =>
      if accepts e then handler e else dispatch rest e
  end.

Definition try_except {S A} (body : M S A)
           (clauses : list ((exn -> bool) * (exn -> M S A))) : M S A :=
  fun s => match body s with
           | Return a s' => Return a s'
           | Raise e s' => dispatch clauses e s'
           end.

(** The final state, whatever the outcome. *)
Definition state_of {S A} (o : outcome S A) : S :=
  match o with Return _ s => s | Raise _ s => s end.

(** Weakest precondition: run from [s], [m] returns in a state and with a
    value that satisfy [Q], or raises in a state and with an exception that
    satisfy [E]. *)
Definition wpx {S A} (m : M S A) (Q : A -> S -> Prop)
           (E : exn -> S -> Prop) (s : S) : Prop :=
  match m s with
  | Return a s' => Q a s'
  | Raise e s' => E e s'
  end.

(** No exception is allowed. *)
Definition never {S} : exn -> S -> Prop := fun _ _ => False.

(** [for x in xs: acc = body(acc, x)] *)
Fixpoint for_each {S A B} (body : B -> A -> M S B) (xs : list A) (acc : B)
  : M S B :=
  match xs with
  | [] => ret acc
  | x :: xs' => bind (body acc x) (fun acc' => for_each body xs' acc')
  end.

(** [s[:k]] for a possibly negative [k]. *)
Definition slice_to {A} (k : Z) (s : list A) : list A :=
  if 0 <=? k then take (Z.to_nat k) s
  else take (Z.to_nat (Z.of_nat (length s) + k)) s.

Fixpoint drop_while {A} (p : A -> bool) (s : list A) : list A :=
  match s with
  | [] => []
  | c :: s' => if p c then drop_while p s' else s
  end.

(** [s.lstrip(chars)], [s.rstrip(chars)], [s.strip(chars)], the set of
    characters given by its membership test. *)
Definition lstrip (p : ascii -> bool) (s : str) : str := drop_while p s.
Definition rstrip (p : ascii -> bool) (s : str) : str :=
  rev (drop_while p (rev s)).
Definition strip (p : ascii -> bool) (s : str) : str := rstrip p (lstrip p s).

Definition ascii_in (cs : list ascii) (c : ascii) : bool :=
  existsb (Ascii.eqb c) cs.

(** [s.split(sep)[0]]: what comes before the first [sep]. *)
Fixpoint split_first (sep : ascii) (s : str) : str :=
  match s with
  | [] => []
  | c :: s' => if Ascii.eqb c sep then [] else c :: split_first sep s'
  end.

(** [s.split(sep)[-1]]: what comes after the last [sep]. *)
Fixpoint split_last (sep : ascii) (s : str) : str :=
  match s with
  | [] => []
  | c :: s' =>
      if existsb (Ascii.eqb sep) s' then split_last sep s'
      else if Ascii.eqb c sep then s' else s
  end.

Definition endswith (c : ascii) (s : str) : bool :=
  match rev s with
  | c' :: _ => Ascii.eqb c' c
  | [] => false
  end.

(** [s.rfind(c)], as the index of the last occurrence when there is one. *)
Fixpoint rfind (c : ascii) (s : str) : option nat :=
  match s with
  | [] => None
  | c' :: s' =>
      match rfind c s' with
      | Some i => Some (S i)
      | None => if Ascii.eqb c' c then Some 0%nat else None
      end
  end.

(** [os.path.splitext] on a name without directory separators: the
    extension starts at the last dot, unless only dots come before it. *)
Definition splitext (s : str) : str * str :=
  match rfind "."%char s with
  | Some i =>
      if forallb (Ascii.eqb "."%char) (take i s) then (s, [])
      else (take i s, drop i s)
  | None => (s, [])
  end.

(** [str.isalnum] of one character, on the ASCII range (digits and
    letters); characters above 127 are answered [false] here. *)
Definition isalnum_ascii (c : ascii) : bool :=
  let n := nat_of_ascii c in
  ((48 <=? n) && (n <=? 57) || (65 <=? n) && (n <=? 90)
   || (97 <=? n) && (n <=? 122))%nat.

(** [str.isspace] of one character, on the ASCII range. *)
Definition isspace_ascii (c : ascii) : bool :=
  let n := nat_of_ascii c in
  ((9 <=? n) && (n <=? 13) || (28 <=? n) && (n <=? 32))%nat.

(** [list.sort(key=...)]: a stable sort.  [le a b] is
    [key a <= key b]; an element is put before the first element of the
    sorted rest whose key is not smaller, so equal keys keep the order
    they had in the list. *)
Fixpoint insert_stable {A} (le : A -> A -> bool) (x : A) (sorted : list A)
  : list A :=
  match sorted with
  | [] => [x]
  | y :: l' => if le x y then x :: sorted else y :: insert_stable le x l'
  end.

Fixpoint sort {A} (le : A -> A -> bool) (l : list A) : list A :=
  match l with
  | [] => []
  | x :: l' => insert_stable le x (sort le l')
  end.

(** Where [sort] puts an element appended to a sorted list: behind every
    element whose key is not greater. *)
Fixpoint place_after {A} (le : A -> A -> bool) (x : A) (sorted : list A)
  : list A :=
  match sorted with
  | [] => [x]
  | y :: l' => if le y x then y :: place_after le x l' else x :: sorted
  end.

(** A [dict], in insertion order: [d[k] = v] overwrites in place or
    appends, [del d[k]] removes the pair. *)
Definition dict (K V : Type) : Type := list (K * V).

Section Dict.
Context {K V : Type} `{EqDecision K}.

Fixpoint dict_get (k : K) (d : dict K V) : option V :=
  match d with
  | [] => None
  | (k', v) :: d' => if decide (k' = k) then Some v else dict_get k d'
  end.

Fixpoint dict_set (k : K) (v : V) (d : dict K V) : dict K V :=
  match d with
  | [] => [(k, v)]
  | (k', v') :: d' =>
      if decide (k' = k) then (k', v) :: d' else (k', v') :: dict_set k v d'
  end.

Fixpoint dict_del (k : K) (d : dict K V) : dict K V :=
  match d with
  | [] => []
  | (k', v) :: d' => if decide (k' = k) then d' else (k', v) :: dict_del k d'
  end.

End Dict.

End Py.

(* ===================================================================== *)
(** * storage_optimizer.py: the filename of [suggest_filepath] *)
(* ===================================================================== *)

Module StorageOptimizer.
Import Py.

Section Naming.
(** [str.isalnum] and [str.isspace] on single characters: Python
    built-ins, taken as given. *)
Variable isalnum : ascii -> bool.
Variable isspace : ascii -> bool.

Definition max_len : Z := 200.

(** The characters of [strip('_.- ')]. *)
Definition strip_chars : list ascii :=
  ["_"; "."; "-"; " "]%char.

(** The characters line 90 keeps. *)
Definition allowed (c : ascii) : bool :=
  isalnum c || ascii_in ["."; "_"; "-"]%char c.

(** [c if (c.isalnum() or c in ['.', '_', '-']) else '_'] *)
Definition keep_or_underscore (c : ascii) : ascii :=
  if allowed c then c else "_"%char.

(** Lines 90-93: replace, strip, default when nothing is left. *)
Definition sanitize (filename : str) : str :=
  let sanitized_filename :=
    strip (ascii_in strip_chars) (map keep_or_underscore filename) in
  match sanitized_filename with
  | [] => list_ascii_of_string "sanitized_download_file"
  | _ => sanitized_filename
  end.

(** Lines 96-101: cut the name part when the whole is too long. *)
Definition truncate (sanitized_filename : str) : str :=
  if max_len <? Z.of_nat (length sanitized_filename) then
    let '(name_part, ext_part) := splitext sanitized_filename in
    let ext_len := Z.of_nat (length ext_part) in
    let name_part := slice_to (max_len - ext_len - 1) name_part in
    name_part ++ ext_part
  else sanitized_filename.

(** The sanitization-and-truncation step, lines 90-101. *)
Definition sanitize_and_truncate (filename : str) : str :=
  truncate (sanitize filename).

Definition downloaded_file : str := list_ascii_of_string "downloaded_file".

(** Lines 74-85: the name taken from the URL when none is given. *)
Definition filename_from_url (url : str) : str :=
  let filename_from_url := split_last "/"%char (split_first "?"%char url) in
  let filename_from_url :=
    match filename_from_url with
    | [] => downloaded_file
    | _ => if endswith "."%char filename_from_url then downloaded_file
           else filename_from_url
    end in
  match strip isspace filename_from_url with
  | [] => downloaded_file
  | filename => filename
  end.

(** Lines 74-85 as a whole: the name that enters line 90.  [filename] is
    [None] for Python's [None]; an empty string is as falsy as [None]. *)
Definition given_or_derived (url : str) (filename : option str) : str :=
  match filename with
  | Some (c :: f) => c :: f
  | _ => filename_from_url url
  end.

(** The filename component of the path [suggest_filepath] returns; the
    directory it is joined to (lines 65-72, 103) is not modelled. *)
Definition suggest_filename (url : str) (filename : option str) : str :=
  sanitize_and_truncate (given_or_derived url filename).

End Naming.

End StorageOptimizer.



(* ===================================================================== *)
(** * downloader.py: the worker pool *)
(* ===================================================================== *)

Module Downloader.
Import Py.
Local Open Scope py_scope.


(** The values of [task['status']]. *)
Inductive Status : Type :=
| pending | downloading | paused | cancelling
| cancelled | completed | failed.

#[global] Instance Status_eq_dec : EqDecision Status.
Proof. solve_decision. Defined.

(** [current_status in ['completed', 'failed', 'cancelled']] *)
Definition is_terminal (s : Status) : bool :=
  match s with
  | completed | failed | cancelled => true
  | _ => false
  end.

(** A download id: [str(uuid.uuid4())].  The n-th id drawn is written [n]:
    ids are distinct from one another and never empty. *)
Definition handle := nat.

(** One entry of [download_tasks].  The ['thread'] key is kept apart, in
    [threads] below.  [progress] is a Python float: an IEEE 754 double. *)
Record Task := mkTask {
  url : string;
  filepath : string;
  status : Status;
  error : option string;
  progress : float;
  bytes_downloaded : Z;
  total_size : Z;
  speed : option Z
}.

Definition set_status (s : Status) (t : Task) : Task :=
  mkTask (url t) (filepath t) s (error t) (progress t)
         (bytes_downloaded t) (total_size t) (speed t).
Definition set_error (e : option string) (t : Task) : Task :=
  mkTask (url t) (filepath t) (status t) e (progress t)
         (bytes_downloaded t) (total_size t) (speed t).
Definition set_progress (p : float) (t : Task) : Task :=
  mkTask (url t) (filepath t) (status t) (error t) p
         (bytes_downloaded t) (total_size t) (speed t).
Definition set_bytes_downloaded (n : Z) (t : Task) : Task :=
  mkTask (url t) (filepath t) (status t) (error t) (progress t)
         n (total_size t) (speed t).
Definition set_total_size (n : Z) (t : Task) : Task :=
  mkTask (url t) (filepath t) (status t) (error t) (progress t)
         (bytes_downloaded t) n (speed t).
Definition set_speed (v : option Z) (t : Task) : Task :=
  mkTask (url t) (filepath t) (status t) (error t) (progress t)
         (bytes_downloaded t) (total_size t) v.

(** Where a thread running [_download_file] stands.  A thread is suspended
    either before a [with self.lock] block or before a blocking call, or,
    in the last two [except] clauses, before the clean-up that follows
    the locked block. *)
Inductive pc : Type :=
| at_entry                          (* line 22: first locked block *)
| at_connect                        (* lines 34-41: makedirs, get, headers *)
| at_headers_lock                   (* lines 42-56 *)
| at_open                           (* line 60: open(filepath, 'wb') *)
| at_next_chunk                     (* line 61: the iterator advances *)
| at_checkpoint (chunk : list Byte.byte) (* lines 62-72 *)
| at_write (chunk : list Byte.byte)      (* lines 75-76: f.write *)
| at_progress_lock                  (* lines 77-90 *)
| at_finish                         (* lines 96-107 *)
| at_request_cleanup                (* line 124, after the lock of 119-122 *)
| at_unexpected_cleanup             (* lines 133-134, after the lock of 127-130 *)
| finished.

(** The frame of one [_download_file] call: its arguments and locals. *)
Record Thread := mkThread {
  th_url : string;
  th_filepath : string;
  th_pc : pc;
  th_bytes_downloaded : Z;
  th_total_size : Z
}.

Definition goto (p : pc) (th : Thread) : Thread :=
  mkThread (th_url th) (th_filepath th) p
           (th_bytes_downloaded th) (th_total_size th).

(** What the call made in a step comes back with: the blocking call the
    thread waits on, or, in a step that cleans up, the [os.remove] of
    [delete_file]. *)
Inductive event : Type :=
| ev_ok                               (* the call returns *)
| ev_response (content_length : Z)    (* status ok; int(content-length or 0) *)
| ev_chunk (chunk : list Byte.byte)        (* the iterator yields *)
| ev_end_of_stream                    (* the iterator is exhausted *)
| ev_raise (e : exn).                 (* the call raises *)

(** The pool, with the part of the file system its threads write:
    [files] maps the path of each regular file to its content. *)
Record t := mk {
  num_workers : Z;
  download_tasks : gmap handle Task;
  threads : gmap handle Thread;
  uuid_drawn : nat;
  files : gmap string (list Byte.byte)
}.

Definition with_tasks (f : gmap handle Task -> gmap handle Task) (d : t) : t :=
  mk (num_workers d) (f (download_tasks d)) (threads d) (uuid_drawn d)
     (files d).
Definition with_threads (f : gmap handle Thread -> gmap handle Thread)
           (d : t) : t :=
  mk (num_workers d) (download_tasks d) (f (threads d)) (uuid_drawn d)
     (files d).
Definition with_files (f : gmap string (list Byte.byte) -> gmap string (list Byte.byte))
           (d : t) : t :=
  mk (num_workers d) (download_tasks d) (threads d) (uuid_drawn d)
     (f (files d)).

(** [Downloader(num_workers)] *)
Definition init (num_workers : Z) : t := mk num_workers ∅ ∅ 0%nat ∅.

Definition KeyError : exn := Exn another_Exception "KeyError".

(** [download_id in self.download_tasks] *)
Definition has_task (h : handle) : M t bool :=
  d <~ get; ret (bool_decide (is_Some (download_tasks d !! h))).

(** [self.download_tasks[download_id]] *)
Definition task_of (h : handle) : M t Task :=
  d <~ get;
  match download_tasks d !! h with
  | Some task => ret task
  | None => raise KeyError
  end.

(** [task[key] = value], on the dict the table holds for [h]. *)
Definition update_task (h : handle) (f : Task -> Task) : M t unit :=
  modify (with_tasks (alter f h)).

(** A write to the locals of the running frame. *)
Definition update_frame (h : handle) (f : Thread -> Thread) : M t unit :=
  modify (with_threads (alter f h)).

(** [StorageOptimizer.delete_file] through [cleanup_incomplete_download]
    (storage_optimizer.py, lines 51-62 and 105-107): when the path is a
    regular file, [os.remove] is called; it removes the file, or raises
    an [OSError] (the file is open elsewhere, the directory cannot be
    written) that [delete_file] catches, leaving the file.  The result
    says whether the file was removed. *)
Definition cleanup_incomplete_download (path : string) (ev : event)
  : M t bool :=
  d <~ get;
  match files d !! path with
  | Some _ =>
      match ev with
      | ev_raise _ => ret false
      | _ => modify (with_files (delete path));;; ret true
      end
  | None => ret false
  end.

(** [os.path.exists(filepath)], for the paths of regular files. *)
Definition path_exists (path : string) : M t bool :=
  d <~ get; ret (bool_decide (is_Some (files d !! path))).

(** [return] from [_download_file]. *)
Definition leave (h : handle) : M t unit := update_frame h (goto finished).

(** The three places that find ['cancelling'] do the same: mark
    ['cancelled'], clean up, return. *)
Definition finalize_cancelled (h : handle) (th : Thread) (ev : event)
  : M t unit :=
  update_task h (set_status cancelled) ;;;
  _ <~ cleanup_incomplete_download (th_filepath th) ev;
  leave h.

(** Lines 22-30. *)
Definition entry_block (h : handle) : M t unit :=
  present <~ has_task h;
  if negb present then leave h
  else
    task <~ task_of h;
    (match status task with
     | pending => update_task h (set_status downloading)
     | _ => ret tt
     end) ;;;
    update_frame h (goto at_connect).

(** Lines 34-41: the directory, the request, the declared size. *)
Definition connect (h : handle) (ev : event) : M t unit :=
  match ev with
  | ev_response content_length =>
      update_frame h (fun th =>
        mkThread (th_url th) (th_filepath th) at_headers_lock
                 (th_bytes_downloaded th) content_length)
  | ev_raise e => raise e
  | _ => ret tt
  end.

(** Lines 42-56. *)
Definition headers_block (h : handle) (th : Thread) (ev : event)
  : M t unit :=
  present <~ has_task h;
  if present then
    task <~ task_of h;
    match status task with
    | cancelling => finalize_cancelled h th ev
    | _ =>
        update_task h (set_total_size (th_total_size th)) ;;;
        update_task h (set_progress 0%float) ;;;
        update_task h (set_bytes_downloaded 0) ;;;
        update_task h (set_speed (Some 0)) ;;;
        update_frame h (goto at_open)
    end
  else leave h.

(** Line 60: [open(filepath, 'wb')] creates or empties the file. *)
Definition open_wb (h : handle) (th : Thread) (ev : event) : M t unit :=
  match ev with
  | ev_ok =>
      modify (with_files (insert (th_filepath th) [])) ;;;
      update_frame h (goto at_next_chunk)
  | ev_raise e => raise e
  | _ => ret tt
  end.

(** Line 61: the next element of [response.iter_content]. *)
Definition next_chunk (h : handle) (ev : event) : M t unit :=
  match ev with
  | ev_chunk chunk => update_frame h (goto (at_checkpoint chunk))
  | ev_end_of_stream => update_frame h (goto at_finish)
  | ev_raise e => raise e
  | _ => ret tt
  end.

(** Lines 62-74: the checkpoint, then [if chunk:]. *)
Definition checkpoint_block (h : handle) (th : Thread)
           (chunk : list Byte.byte) (ev : event) : M t unit :=
  present <~ has_task h;
  if negb present then leave h
  else
    task <~ task_of h;
    match status task with
    | cancelling => finalize_cancelled h th ev
    | _ =>
        match chunk with
        | [] => update_frame h (goto at_next_chunk)
        | _ => update_frame h (goto (at_write chunk))
        end
    end.

(** Lines 75-76: [f.write(chunk); bytes_downloaded += len(chunk)].  The
    write goes to the open file; a path removed meanwhile stays removed. *)
Definition write_chunk (h : handle) (th : Thread) (chunk : list Byte.byte)
           (ev : event) : M t unit :=
  match ev with
  | ev_ok =>
      modify (with_files (alter (fun content => content ++ chunk)
                                (th_filepath th))) ;;;
      update_frame h (fun th =>
        mkThread (th_url th) (th_filepath th) at_progress_lock
                 (th_bytes_downloaded th + Z.of_nat (length chunk))
                 (th_total_size th))
  | ev_raise e => raise e
  | _ => ret tt
  end.

(** The double nearest to an int, for the ints a double holds exactly:
    those of at most 53 bits. *)
Fixpoint float_of_pos (p : positive) : float :=
  match p with
  | xH => 1%float
  | xO q => (2 * float_of_pos q)%float
  | xI q => (2 * float_of_pos q + 1)%float
  end.

Definition float_of_Z (n : Z) : float :=
  match n with
  | Z0 => 0%float
  | Zpos p => float_of_pos p
  | Zneg p => (- float_of_pos p)%float
  end.

(** The byte counts for which [float_of_Z] is exact, and the quotient of
    two ints in Python is the quotient of their doubles. *)
Definition exact_in_float (n : Z) : Prop := 0 <= n < 2 ^ 53.

(** Line 89: [(bytes_downloaded / total_size) * 100], in doubles: the
    quotient is rounded, then the product. *)
Definition percentage (bytes_downloaded total_size : Z) : float :=
  (float_of_Z bytes_downloaded / float_of_Z total_size * 100)%float.

(** Lines 77-90. *)
Definition progress_block (h : handle) (th : Thread) (ev : event)
  : M t unit :=
  present <~ has_task h;
  if present then
    task <~ task_of h;
    match status task with
    | cancelling => finalize_cancelled h th ev
    | _ =>
        update_task h (set_bytes_downloaded (th_bytes_downloaded th)) ;;;
        (if 0 <? th_total_size th then
           update_task h
             (set_progress
                (percentage (th_bytes_downloaded th) (th_total_size th)))
         else ret tt) ;;;
        update_frame h (goto at_next_chunk)
    end
  else update_frame h (goto at_next_chunk).

(** Lines 96-107. *)
Definition finish_block (h : handle) (th : Thread) (ev : event)
  : M t unit :=
  present <~ has_task h;
  if present then
    task <~ task_of h;
    match status task with
    | downloading =>
        (if (0 <? th_total_size th)
            && (th_bytes_downloaded th =? th_total_size th)
         then update_task h (set_progress 100%float) else ret tt) ;;;
        update_task h (set_status completed) ;;;
        leave h
    | cancelling => finalize_cancelled h th ev
    | _ => leave h
    end
  else leave h.

(** The body of the [try:], one suspension point at a time. *)
Definition try_body (h : handle) (th : Thread) (ev : event) : M t unit :=
  match th_pc th with
  | at_entry | at_request_cleanup | at_unexpected_cleanup | finished =>
      ret tt
  | at_connect => connect h ev
  | at_headers_lock => headers_block h th ev
  | at_open => open_wb h th ev
  | at_next_chunk => next_chunk h ev
  | at_checkpoint chunk => checkpoint_block h th chunk ev
  | at_write chunk => write_chunk h th chunk ev
  | at_progress_lock => progress_block h th ev
  | at_finish => finish_block h th ev
  end.

(** What each [except] clause stores in [task['error']]. *)
Definition io_error_message (e : exn) : string :=
  "File/Directory error: " +:+ exn_str e.
Definition request_error_message (e : exn) : string := exn_str e.
Definition unexpected_error_message (e : exn) : string :=
  "Unexpected error during download: " +:+ exn_str e.

(** The locked block shared by the three clauses. *)
Definition mark_failed (h : handle) (message : string) : M t unit :=
  present <~ has_task h;
  if present then
    update_task h (set_status failed) ;;;
    update_task h (set_error (Some message))
  else ret tt.

(** Lines 109-116: [except IOError]. *)
Definition on_IOError (h : handle) (th : Thread) (e : exn) : M t unit :=
  mark_failed h (io_error_message e) ;;;
  leave h.

(** Lines 118-123: [except requests.exceptions.RequestException], up to
    the end of its locked block. *)
Definition on_RequestException (h : handle) (th : Thread) (e : exn)
  : M t unit :=
  mark_failed h (request_error_message e) ;;;
  update_frame h (goto at_request_cleanup).

(** Line 124, outside the lock. *)
Definition request_cleanup (h : handle) (th : Thread) (ev : event)
  : M t unit :=
  _ <~ cleanup_incomplete_download (th_filepath th) ev;
  leave h.

(** Lines 126-131: [except Exception], up to the end of its locked
    block. *)
Definition on_Exception (h : handle) (th : Thread) (e : exn) : M t unit :=
  mark_failed h (unexpected_error_message e) ;;;
  update_frame h (goto at_unexpected_cleanup).

(** Lines 133-134, outside the lock. *)
Definition unexpected_cleanup (h : handle) (th : Thread) (ev : event)
  : M t unit :=
  there <~ path_exists (th_filepath th);
  (if there && (0 <? th_bytes_downloaded th)
   then _ <~ cleanup_incomplete_download (th_filepath th) ev; ret tt
   else ret tt) ;;;
  leave h.

Definition except_clauses (h : handle) (th : Thread)
  : list ((exn -> bool) * (exn -> M t unit)) :=
  [ (is_IOError, on_IOError h th);
    (is_RequestException, on_RequestException h th);
    (fun _ => true, on_Exception h th) ].

(** One step of the thread of [h]: up to its next suspension point.
    Nothing runs when no such thread was started or when it has returned. *)
Definition thread_step (h : handle) (ev : event) : M t unit :=
  d <~ get;
  match threads d !! h with
  | None => ret tt
  | Some th =>
      match th_pc th with
      | at_entry => entry_block h
      | at_request_cleanup => request_cleanup h th ev
      | at_unexpected_cleanup => unexpected_cleanup h th ev
      | finished => ret tt
      | _ => try_except (try_body h th ev) (except_clauses h th)
      end
  end.

(** [start_download]: the table entry, the thread, the id. *)
Definition start_download (url filepath : string) : M t handle :=
  d <~ get;
  let download_id := uuid_drawn d in
  put (mk (num_workers d) (download_tasks d) (threads d)
          (S (uuid_drawn d)) (files d)) ;;;
  modify (with_tasks (insert download_id
    (mkTask url filepath pending None 0%float 0 0 None))) ;;;
  update_task download_id (set_status downloading) ;;;
  modify (with_threads (insert download_id
    (mkThread url filepath at_entry 0 0))) ;;;
  ret download_id.

(** The copy [get_status] returns. *)
Record Snapshot := mkSnapshot {
  snap_status : Status;
  snap_error : option string;
  snap_progress : float;
  snap_bytes_downloaded : Z;
  snap_total_size : Z;
  snap_filepath : string;
  snap_url : string
}.

Definition snapshot (task : Task) : Snapshot :=
  mkSnapshot (status task) (error task) (progress task)
             (bytes_downloaded task) (total_size task)
             (filepath task) (url task).

Definition get_status (download_id : handle) : M t (option Snapshot) :=
  d <~ get;
  match download_tasks d !! download_id with
  | Some task => ret (Some (snapshot task))
  | None => ret None
  end.

Definition pause_download (download_id : handle) : M t unit :=
  present <~ has_task download_id;
  if present then
    task <~ task_of download_id;
    match status task with
    | downloading => update_task download_id (set_status paused)
    | pending => update_task download_id (set_status paused)
    | _ => ret tt
    end
  else ret tt.

Definition resume_download (download_id : handle) : M t unit :=
  d <~ get;
  match download_tasks d !! download_id with
  | Some task =>
      match status task with
      | paused => update_task download_id (set_status pending)
      | _ => ret tt
      end
  | None => ret tt
  end.

Definition cancel_download (download_id : handle) : M t unit :=
  present <~ has_task download_id;
  if present then
    task <~ task_of download_id;
    let current_status := status task in
    match current_status with
    | completed | failed | cancelled =>
        update_task download_id (set_status cancelled)
    | cancelling => ret tt
    | _ => update_task download_id (set_status cancelling)
    end
  else ret tt.

(** [pause] is taken from ['pending'] and ['downloading'] only. *)
Definition pause_permitted (d : t) (h : handle) : Prop :=
  exists task, download_tasks d !! h = Some task
               /\ (status task = pending \/ status task = downloading).

(** [resume] is taken from ['paused'] only. *)
Definition resume_permitted (d : t) (h : handle) : Prop :=
  exists task, download_tasks d !! h = Some task /\ status task = paused.

(** ['progress'] is one of the three values the thread writes, for the
    byte count beside it: 0 with the headers (line 53), the percentage
    with a chunk (line 89), 100 at the end (line 99). *)
Definition written_progress (shown : float) (bytes_downloaded total_size : Z)
  : Prop :=
  (shown = 0%float /\ bytes_downloaded = 0)
  \/ shown = percentage bytes_downloaded total_size
  \/ (shown = 100%float /\ bytes_downloaded = total_size).

(** The numbers of a task agree: with a known total, ['progress'] was
    written for its ['bytes_downloaded'], and a ['completed'] task that
    has all its bytes shows 100. *)
Definition percent_ok (task : Task) : Prop :=
  0 < total_size task ->
  written_progress (progress task) (bytes_downloaded task) (total_size task)
  /\ (status task = completed ->
      bytes_downloaded task = total_size task ->
      progress task = 100%float).

(** How the locals of the running frame stand to the task it publishes
    to: no total and no byte before the headers are published, the same
    total after, and the same byte count except between a write and its
    publication. *)
Definition frame_ok (th : Thread) (task : Task) : Prop :=
  match th_pc th with
  | at_entry | at_connect | at_headers_lock =>
      total_size task = 0 /\ th_bytes_downloaded th = 0
  | at_open | at_next_chunk | at_checkpoint _ | at_write _ | at_finish =>
      total_size task = th_total_size th
      /\ bytes_downloaded task = th_bytes_downloaded th
  | at_progress_lock => total_size task = th_total_size th
  | at_request_cleanup | at_unexpected_cleanup | finished => True
  end.

(** A ['completed'] task is the task of a thread that has returned. *)
Definition done_ok (th : Thread) (task : Task) : Prop :=
  status task = completed -> th_pc th = finished.

(** The invariant of the table behind [get_status]. *)
Definition consistent (d : t) : Prop :=
  forall h task,
    download_tasks d !! h = Some task ->
    percent_ok task
    /\ (forall th, threads d !! h = Some th ->
                   frame_ok th task /\ done_ok th task).

(** A cancel request for [h] stands or has been carried out. *)
Definition cancel_standing (h : handle) (d : t) : Prop :=
  exists task,
    download_tasks d !! h = Some task
    /\ (status task = cancelling \/ status task = cancelled).


(** Every id in use has been drawn. *)
Definition ids_drawn (d : t) : Prop :=
  (forall h task, download_tasks d !! h = Some task -> (h < uuid_drawn d)%nat)
  /\ (forall h th, threads d !! h = Some th -> (h < uuid_drawn d)%nat).

(** The byte count of a task against the count of its running frame:
    both zero before the headers are published, and the published count
    never ahead of the local one. *)
Definition bytes_tracked (d : t) : Prop :=
  forall h task th,
    download_tasks d !! h = Some task ->
    threads d !! h = Some th ->
    match th_pc th with
    | at_entry | at_connect | at_headers_lock =>
        bytes_downloaded task = 0 /\ th_bytes_downloaded th = 0
    | finished => True
    | _ => bytes_downloaded task <= th_bytes_downloaded th
    end.

(** From [d] to [d'] every task is still there, for the same URL and
    path, with a byte count that has not gone down. *)
Definition tasks_grow (d d' : t) : Prop :=
  forall h task,
    download_tasks d !! h = Some task ->
    exists task',
      download_tasks d' !! h = Some task'
      /\ url task' = url task
      /\ filepath task' = filepath task
      /\ bytes_downloaded task <= bytes_downloaded task'.

(** The task of [h] is neither ['downloading'] nor ['completed'] and its
    thread is past the first locked block. *)
Definition stalled (h : handle) (d : t) : Prop :=
  exists task th,
    download_tasks d !! h = Some task
    /\ threads d !! h = Some th
    /\ th_pc th <> at_entry
    /\ status task <> downloading
    /\ status task <> completed.

(** The task of [h] is on the way out: ['cancelling'], ['cancelled'] or
    ['failed']. *)
Definition given_up (h : handle) (d : t) : Prop :=
  exists task,
    download_tasks d !! h = Some task
    /\ (status task = cancelling
        \/ status task = cancelled
        \/ status task = failed).

(** The thread of [h] stands with the frame [th], its task reads [task],
    and the file at its path holds [content], if there is one. *)
Definition transfer_at (h : handle) (th : Thread) (task : Task)
           (content : option (list Byte.byte)) (d : t) : Prop :=
  threads d !! h = Some th
  /\ download_tasks d !! h = Some task
  /\ files d !! th_filepath th = content.

(** The transfer of [h] stands at the head of its chunk loop, undisturbed:
    [count] bytes received and published, [content] in the file. *)
Definition in_loop (h : handle) (source path : string)
           (content_length count : Z) (content : list Byte.byte) (d : t)
  : Prop :=
  exists shown,
    threads d !! h
    = Some (mkThread source path at_next_chunk count content_length)
    /\ download_tasks d !! h
       = Some (mkTask source path downloading None shown count
                      content_length (Some 0))
    /\ files d !! path = Some content
    /\ (0 < content_length -> written_progress shown count content_length)
    /\ (content_length <= 0 -> shown = 0%float).

(** The thread waits on a call that can raise: [makedirs] or the request,
    [open], the stream, [f.write]. *)
Definition at_blocking_call (p : pc) : bool :=
  match p with
  | at_connect | at_open | at_next_chunk | at_write _ => true
  | _ => false
  end.

End Downloader.


(* ===================================================================== *)
(** * queue_manager.py: the backlog and the reconciliation loop

    [add_download], [remove_download], one pass of [_process_queue_loop]
    and [get_queue_status]; the thread that runs the loop
    ([start_processing], [stop_processing]) and [get_task_status] are
    left out. *)
(* ===================================================================== *)

Module QueueManager.
Import Py.
Local Open Scope py_scope.

(** What the queue manager asks of [downloader_instance]: the attribute
    and the three methods it uses.  [D] is the state of that object, [H]
    its download ids.  [dl_start_download] gives [None] for any falsy
    return value. *)
Class DownloaderLike (D H : Type) := {
  dl_num_workers : D -> Z;
  dl_get_status : H -> M D (option Downloader.Snapshot);
  dl_start_download : string -> string -> M D (option H);
  dl_cancel_download : H -> M D unit
}.

(** The pool of [downloader.py] is one. *)
#[global] Instance Downloader_like
  : DownloaderLike Downloader.t Downloader.handle := {
  dl_num_workers := Downloader.num_workers;
  dl_get_status := Downloader.get_status;
  dl_start_download := fun url filepath =>
    downloader_id <~ Downloader.start_download url filepath;
    ret (Some downloader_id);
  dl_cancel_download := Downloader.cancel_download
}.

(** The values of [task_details['status']]: the queue manager's own two,
    and the pool's once the loop has copied one in. *)
Inductive Status : Type :=
| queued
| processing
| live (s : Downloader.Status).

(** One request: the dict built by [add_download].  [time_added] is the
    float [time.time()] gave; floats are only compared here, and compare
    as the rationals they are. *)
Record Entry := mkEntry {
  qm_id : string;
  url : string;
  filepath : string;
  priority : Z;
  time_added : Q;
  status : Status
}.

Definition set_status (s : Status) (e : Entry) : Entry :=
  mkEntry (qm_id e) (url e) (filepath e) (priority e) (time_added e) s.

(** [(a['priority'], a['time_added']) <= (b['priority'], b['time_added'])] *)
Definition key_le (a b : Entry) : bool :=
  (priority a <? priority b)
  || ((priority a =? priority b) && Qle_bool (time_added a) (time_added b)).

Section WithDownloader.
Context {D H : Type} `{EqDecision H} `{DownloaderLike D H}.

Record t := mk {
  downloader : D;
  pending_queue : list Entry;
  active_downloads : dict H Entry;
  qm_id_counter : nat
}.

(** [QueueManager(downloader_instance)] *)
Definition init (downloader_instance : D) : t :=
  mk downloader_instance [] [] 0.

Definition with_pending (f : list Entry -> list Entry) (q : t) : t :=
  mk (downloader q) (f (pending_queue q)) (active_downloads q)
     (qm_id_counter q).
Definition with_active (f : dict H Entry -> dict H Entry) (q : t) : t :=
  mk (downloader q) (pending_queue q) (f (active_downloads q))
     (qm_id_counter q).

(** A call of a method of [self.downloader]. *)
Definition on_downloader {A} (m : M D A) : M t A :=
  fun q =>
    match m (downloader q) with
    | Return a d => Return a (mk d (pending_queue q) (active_downloads q)
                                 (qm_id_counter q))
    | Raise e d => Raise e (mk d (pending_queue q) (active_downloads q)
                               (qm_id_counter q))
    end.

Definition _generate_qm_id : M t string :=
  q <~ get;
  let counter := S (qm_id_counter q) in
  put (mk (downloader q) (pending_queue q) (active_downloads q) counter) ;;;
  ret ("qm_" +:+ pretty counter).

(** [add_download]; [now] is what [time.time()] returns in it. *)
Definition add_download (now : Q) (url filepath : string) (priority : Z)
  : M t string :=
  qm_id <~ _generate_qm_id;
  let task_details := mkEntry qm_id url filepath priority now queued in
  modify (with_pending (fun pending => pending ++ [task_details])) ;;;
  modify (with_pending (sort key_le)) ;;;
  ret qm_id.

(** The first [downloader_id] of [active_downloads] whose entry carries
    the id, lines 53-57. *)
Fixpoint find_active (qm_id_to_remove : string) (active : dict H Entry)
  : option H :=
  match active with
  | [] => None
  | (dl_id, task_details) :: rest =>
      if String.eqb (qm_id task_details) qm_id_to_remove then Some dl_id
      else find_active qm_id_to_remove rest
  end.

Definition remove_download (qm_id_to_remove : string) : M t bool :=
  q <~ get;
  let initial_len := length (pending_queue q) in
  modify (with_pending
    (List.filter (fun task =>
       negb (String.eqb (qm_id task) qm_id_to_remove)))) ;;;
  q <~ get;
  if negb (length (pending_queue q) =? initial_len)%nat then ret true
  else
    match find_active qm_id_to_remove (active_downloads q) with
    | Some downloader_id_to_cancel =>
        on_downloader (dl_cancel_download downloader_id_to_cancel) ;;;
        ret true
    | None => ret false
    end.

Definition KeyError : exn := Exn another_Exception "KeyError".

(** [self.active_downloads[downloader_id]['status'] = value] *)
Definition set_active_status (downloader_id : H) (value : Status)
  : M t unit :=
  q <~ get;
  match dict_get downloader_id (active_downloads q) with
  | Some task_details =>
      modify (with_active
        (dict_set downloader_id (set_status value task_details)))
  | None => raise KeyError
  end.

(** Lines 75-88, for one pair of the loop; [finished] is
    [completed_or_failed_downloader_ids]. *)
Definition refresh (finished : list H) (downloader_id : H) : M t (list H) :=
  status_info <~ on_downloader (dl_get_status downloader_id);
  match status_info with
  | Some info =>
      let current_downloader_status := Downloader.snap_status info in
      set_active_status downloader_id (live current_downloader_status) ;;;
      if Downloader.is_terminal current_downloader_status
      then ret (finished ++ [downloader_id])
      else ret finished
  | None => ret (finished ++ [downloader_id])
  end.

(** Lines 91-94. *)
Definition retire (dl_id : H) : M t unit :=
  q <~ get;
  match dict_get dl_id (active_downloads q) with
  | Some _ => modify (with_active (dict_del dl_id))
  | None => ret tt
  end.

(** Lines 96-119. *)
Definition dispatch_new : M t unit :=
  q <~ get;
  match pending_queue q with
  | [] => ret tt
  | task_to_dispatch :: rest =>
      if Z.of_nat (length (active_downloads q))
         <? dl_num_workers (downloader q)
      then
        modify (with_pending (fun _ => rest)) ;;;
        downloader_id <~
          on_downloader (dl_start_download (url task_to_dispatch)
                                           (filepath task_to_dispatch));
        match downloader_id with
        | Some downloader_id =>
            modify (with_active
              (dict_set downloader_id (set_status processing task_to_dispatch)))
        | None =>
            modify (with_pending
              (fun pending => set_status queued task_to_dispatch :: pending)) ;;;
            modify (with_pending (sort key_le))
        end
      else ret tt
  end.

(** One pass of the [while] loop of [_process_queue_loop], lines 71-123:
    the block run under [queue_lock] between two sleeps.  The pass is one
    step here: the transfer threads do not move inside it. *)
Definition process_queue_once : M t unit :=
  q <~ get;
  completed_or_failed_downloader_ids <~
    for_each refresh (map fst (active_downloads q)) [];
  for_each (fun _ dl_id => retire dl_id)
           completed_or_failed_downloader_ids tt ;;;
  dispatch_new.

(** The ['live_status'] of a merged entry. *)
Inductive LiveStatus : Type :=
| live_status (info : Downloader.Snapshot)
| unknown_at_downloader.

Record QueueStatus := mkQueueStatus {
  pending_tasks_count : nat;
  active_tasks_count : nat;
  pending_tasks : list Entry;
  active_tasks : list (Entry * H * LiveStatus)
}.

Definition merged (pair : H * Entry) : M t (Entry * H * LiveStatus) :=
  let '(downloader_id, task_details_from_qm) := pair in
  live_status_from_downloader <~ on_downloader (dl_get_status downloader_id);
  match live_status_from_downloader with
  | Some info => ret (task_details_from_qm, downloader_id, live_status info)
  | None => ret (task_details_from_qm, downloader_id, unknown_at_downloader)
  end.

Definition get_queue_status : M t QueueStatus :=
  q <~ get;
  active <~ for_each (fun active pair =>
                        merged_details <~ merged pair;
                        ret (active ++ [merged_details]))
                     (active_downloads q) [];
  ret (mkQueueStatus (length (pending_queue q))
                     (length (active_downloads q))
                     (pending_queue q) active).

(** What [get_task_status] returns: one of its three dicts, without the
    constant ['details'] text. *)
Inductive TaskStatus : Type :=
| pending_in_queue (qm_id : string) (status : Status)
| active_in_downloader (qm_id : string) (downloader_id : H) (status : Status)
    (downloader_actual_status : option Downloader.Status)
    (error : option string)
| task_not_found (qm_id : string).

(** [get_task_status], lines 180-199.  [downloader_actual_status] is
    [None] for ["unknown"]; the entries of the queue manager have no
    ['error'] key, so that [task_details.get('error')] is [None]. *)
Definition get_task_status (qm_id_asked : string) : M t TaskStatus :=
  q <~ get;
  match List.find (fun task => String.eqb (qm_id task) qm_id_asked)
                  (pending_queue q) with
  | Some task => ret (pending_in_queue qm_id_asked (status task))
  | None =>
      match List.find
              (fun pair => String.eqb (qm_id (snd pair)) qm_id_asked)
              (active_downloads q) with
      | Some (downloader_id, task_details) =>
          downloader_status <~ on_downloader (dl_get_status downloader_id);
          ret (active_in_downloader qm_id_asked downloader_id
                 (status task_details)
                 (match downloader_status with
                  | Some info => Some (Downloader.snap_status info)
                  | None => None
                  end)
                 (match downloader_status with
                  | Some info => Downloader.snap_error info
                  | None => None
                  end))
      | None => ret (task_not_found qm_id_asked)
      end
  end.

End WithDownloader.

Arguments t : clear implicits.
Arguments TaskStatus : clear implicits.

End QueueManager.


(* ===================================================================== *)
(** * The whole: one queue manager over one pool *)
(* ===================================================================== *)

Module System.
Import Py.

(** The queue manager holding the pool of [downloader.py]. *)
Definition t : Type := QueueManager.t Downloader.t Downloader.handle.

Definition init (num_workers : Z) : t :=
  QueueManager.init (Downloader.init num_workers).

(** What can happen next: a call from outside, one pass of the control
    loop, or one step of a transfer thread. *)
Inductive action : Type :=
| add_download (now : Q) (url filepath : string) (priority : Z)
| remove_download (qm_id : string)
| process_queue_once
| start_download (url filepath : string)
| get_status (download_id : Downloader.handle)
| pause_download (download_id : Downloader.handle)
| resume_download (download_id : Downloader.handle)
| cancel_download (download_id : Downloader.handle)
| thread_step (download_id : Downloader.handle) (ev : Downloader.event).

Arguments get_status download_id%_nat.
Arguments pause_download download_id%_nat.
Arguments resume_download download_id%_nat.
Arguments cancel_download download_id%_nat.
Arguments thread_step download_id%_nat ev.

Definition discard {S A} (m : M S A) : M S unit :=
  bind m (fun _ => ret tt).

Definition exec (a : action) : M t unit :=
  match a with
  | add_download now url filepath priority =>
      discard (QueueManager.add_download now url filepath priority)
  | remove_download qm_id => discard (QueueManager.remove_download qm_id)
  | process_queue_once => QueueManager.process_queue_once
  | start_download url filepath =>
      discard (QueueManager.on_downloader
                 (Downloader.start_download url filepath))
  | get_status download_id =>
      discard (QueueManager.on_downloader (Downloader.get_status download_id))
  | pause_download download_id =>
      QueueManager.on_downloader (Downloader.pause_download download_id)
  | resume_download download_id =>
      QueueManager.on_downloader (Downloader.resume_download download_id)
  | cancel_download download_id =>
      QueueManager.on_downloader (Downloader.cancel_download download_id)
  | thread_step download_id ev =>
      QueueManager.on_downloader (Downloader.thread_step download_id ev)
  end.

Definition step (s : t) (a : action) : t := state_of (exec a s).

Definition run (actions : list action) (s : t) : t :=
  fold_left step actions s.

(** The ['status'] of the task of [h], when there is one. *)
Definition status_of (h : Downloader.handle) (s : t)
  : option Downloader.Status :=
  Downloader.status <$> Downloader.download_tasks (QueueManager.downloader s) !! h.

Arguments status_of h%_nat s.

(** From [s] to [s'] the active set alone may have changed. *)
Definition active_only (s s' : t) : Prop :=
  QueueManager.downloader s' = QueueManager.downloader s
  /\ QueueManager.pending_queue s' = QueueManager.pending_queue s
  /\ QueueManager.qm_id_counter s' = QueueManager.qm_id_counter s.

(** What one pass of the loop does, from [s] to [s']: the active set is
    refreshed and thinned to some [active1]; then either nothing is
    promoted (the backlog is empty or the workers are taken), or the head
    of the backlog is started and filed under its download id. *)
Definition pass_result (s s' : t) : Prop :=
  exists active1,
    (length active1 <= length (QueueManager.active_downloads s))%nat
    /\ ((s' = QueueManager.mk (QueueManager.downloader s)
                (QueueManager.pending_queue s) active1
                (QueueManager.qm_id_counter s)
         /\ (QueueManager.pending_queue s = []
             \/ ~ Z.of_nat (length active1)
                  < Downloader.num_workers (QueueManager.downloader s)))
        \/ (exists e rest h d',
              QueueManager.pending_queue s = e :: rest
              /\ Z.of_nat (length active1)
                 < Downloader.num_workers (QueueManager.downloader s)
              /\ Downloader.start_download
                   (QueueManager.url e) (QueueManager.filepath e)
                   (QueueManager.downloader s)
                 = Return h d'
              /\ s' = QueueManager.mk d' rest
                        (dict_set h
                           (QueueManager.set_status QueueManager.processing e)
                           active1)
                        (QueueManager.qm_id_counter s))).

(** The worker count is the configured one and bounds the active set. *)
Definition within_capacity (n : Z) (s : t) : Prop :=
  Downloader.num_workers (QueueManager.downloader s) = n
  /\ Z.of_nat (length (QueueManager.active_downloads s)) <= n.

(** The id [_generate_qm_id] gives when the counter reaches [k]. *)
Definition qm_name (k : nat) : string := "qm_" +:+ pretty k.

(** The readings of [time.time()] in the [add_download] calls, in the
    order of the calls. *)
Fixpoint timestamps (actions : list action) : list Q :=
  match actions with
  | [] => []
  | add_download now _ _ _ :: rest => now :: timestamps rest
  | _ :: rest => timestamps rest
  end.

(** The clock never goes back between two [add_download] calls. *)
Definition clock_monotone (actions : list action) : Prop :=
  Sorted Qle (timestamps actions).

(** [e1] was added before [e2]: its id was issued earlier. *)
Definition arrived_before (e1 e2 : QueueManager.Entry) : Prop :=
  exists k1 k2,
    QueueManager.qm_id e1 = qm_name k1
    /\ QueueManager.qm_id e2 = qm_name k2
    /\ (k1 < k2)%nat.

(** [e1] may stand before [e2] in the backlog: its key is not greater,
    and with equal priorities it arrived first. *)
Definition in_order (e1 e2 : QueueManager.Entry) : Prop :=
  QueueManager.key_le e1 e2 = true
  /\ (QueueManager.priority e1 = QueueManager.priority e2 ->
      arrived_before e1 e2).

(** The id of [e] is one of the first [counter] issued. *)
Definition issued (counter : nat) (e : QueueManager.Entry) : Prop :=
  exists k, QueueManager.qm_id e = qm_name k /\ (k <= counter)%nat.

(** [e] was added no later than the next reading of the clock. *)
Definition before_next (ts : list Q) (e : QueueManager.Entry) : Prop :=
  match ts with
  | [] => True
  | now :: _ => (QueueManager.time_added e <= now)%Q
  end.

(** The invariant of the backlog, [ts] being the clock readings to come. *)
Definition backlog_ordered (ts : list Q) (s : t) : Prop :=
  StronglySorted in_order (QueueManager.pending_queue s)
  /\ Forall (issued (QueueManager.qm_id_counter s))
            (QueueManager.pending_queue s)
  /\ Forall (before_next ts) (QueueManager.pending_queue s).

(** What an action does to the fields of the queue manager, from [s] to
    [s']. *)
Definition queue_effect (a : action) (s s' : t) : Prop :=
  match a with
  | add_download now url filepath priority =>
      QueueManager.pending_queue s'
      = sort QueueManager.key_le
          (QueueManager.pending_queue s
             ++ [QueueManager.mkEntry
                   (qm_name (S (QueueManager.qm_id_counter s)))
                   url filepath priority now QueueManager.queued])
      /\ QueueManager.active_downloads s' = QueueManager.active_downloads s
      /\ QueueManager.qm_id_counter s' = S (QueueManager.qm_id_counter s)
      /\ QueueManager.downloader s' = QueueManager.downloader s
  | remove_download qm_id =>
      QueueManager.pending_queue s'
      = List.filter
          (fun task => negb (String.eqb (QueueManager.qm_id task) qm_id))
          (QueueManager.pending_queue s)
      /\ QueueManager.active_downloads s' = QueueManager.active_downloads s
      /\ QueueManager.qm_id_counter s' = QueueManager.qm_id_counter s
  | process_queue_once => pass_result s s'
  | _ =>
      QueueManager.pending_queue s' = QueueManager.pending_queue s
      /\ QueueManager.active_downloads s' = QueueManager.active_downloads s
      /\ QueueManager.qm_id_counter s' = QueueManager.qm_id_counter s
  end.

(** The queue ids of the backlog and of the active set, in order. *)
Definition queued_ids (s : t) : list string :=
  map QueueManager.qm_id (QueueManager.pending_queue s).
Definition active_ids (s : t) : list string :=
  map (fun p => QueueManager.qm_id (snd p)) (QueueManager.active_downloads s).

(** Whether the loop takes [h] out of the active set: its transfer is
    ['completed'], ['failed'] or ['cancelled'], or the pool has no task
    for it. *)
Definition retires (d : Downloader.t) (h : Downloader.handle) : bool :=
  match Downloader.download_tasks d !! h with
  | Some task => Downloader.is_terminal (Downloader.status task)
  | None => true
  end.

(** An active entry after lines 75-79: its status is the one the pool
    reports, when it reports one. *)
Definition refreshed (d : Downloader.t)
           (pair : Downloader.handle * QueueManager.Entry)
  : Downloader.handle * QueueManager.Entry :=
  match Downloader.download_tasks d !! fst pair with
  | Some task =>
      (fst pair,
       QueueManager.set_status (QueueManager.live (Downloader.status task))
                               (snd pair))
  | None => pair
  end.

(** The active set after lines 73-94. *)
Definition survivors (d : Downloader.t)
           (active : dict Downloader.handle QueueManager.Entry)
  : dict Downloader.handle QueueManager.Entry :=
  List.filter (fun pair => negb (retires d (fst pair)))
              (map (refreshed d) active).

(** What lines 96-112 add to the active set [active1] left by lines
    73-94: the head of the backlog under a fresh download id, when there
    is a head and a free worker. *)
Definition promoted (s : t)
           (active1 : dict Downloader.handle QueueManager.Entry)
  : dict Downloader.handle QueueManager.Entry :=
  match QueueManager.pending_queue s with
  | task_to_dispatch :: _ =>
      if Z.of_nat (length active1)
         <? Downloader.num_workers (QueueManager.downloader s)
      then [(Downloader.uuid_drawn (QueueManager.downloader s),
             QueueManager.set_status QueueManager.processing task_to_dispatch)]
      else []
  | [] => []
  end.

(** Each active entry is filed under the id of a task of the pool, a task
    for the URL and the path of the entry; no id is filed twice. *)
Definition bound_to_task (d : Downloader.t)
           (pair : Downloader.handle * QueueManager.Entry) : Prop :=
  exists task,
    Downloader.download_tasks d !! fst pair = Some task
    /\ Downloader.url task = QueueManager.url (snd pair)
    /\ Downloader.filepath task = QueueManager.filepath (snd pair).

Definition active_bound (s : t) : Prop :=
  NoDup (map fst (QueueManager.active_downloads s))
  /\ Forall (bound_to_task (QueueManager.downloader s))
            (QueueManager.active_downloads s).

(** The queue ids in use are distinct and were all issued. *)
Definition ids_distinct (s : t) : Prop :=
  NoDup (queued_ids s ++ active_ids s)
  /\ Forall (issued (QueueManager.qm_id_counter s))
            (QueueManager.pending_queue s)
  /\ Forall (fun pair => issued (QueueManager.qm_id_counter s) (snd pair))
            (QueueManager.active_downloads s).

(** The invariant of the whole. *)
Definition well_formed (s : t) : Prop :=
  Downloader.ids_drawn (QueueManager.downloader s)
  /\ Downloader.bytes_tracked (QueueManager.downloader s)
  /\ active_bound s
  /\ ids_distinct s
  /\ Forall (fun e => QueueManager.status e = QueueManager.queued)
            (QueueManager.pending_queue s).

(** The ['live_status'] [get_queue_status] merges in for [h]. *)
Definition live_view (d : Downloader.t) (h : Downloader.handle)
  : QueueManager.LiveStatus :=
  match Downloader.download_tasks d !! h with
  | Some task => QueueManager.live_status (Downloader.snapshot task)
  | None => QueueManager.unknown_at_downloader
  end.

End System.



(* ===================================================================== *)
(** * progress_tracker.py: sizes *)
(* ===================================================================== *)

Module ProgressTracker.

Definition size_name : list string := ["B"; "KB"; "MB"; "GB"; "TB"].

(** The [while] loop of lines 21-23, for at most [turns] turns:
    [while num_size >= 1024 and i < len(size_name) - 1].  [num_size] is
    a float; dividing by 1024 changes its exponent only, so that the
    arithmetic is exact, and is done here on rationals. *)
Fixpoint scale (turns : nat) (num_size : Q) (i : nat) : Q * nat :=
  match turns with
  | O => (num_size, i)
  | S turns' =>
      if Qle_bool 1024 num_size && (i <? length size_name - 1)%nat
      then scale turns' (num_size / 1024) (S i)
      else (num_size, i)
  end.

(** What [get_human_readable_size] returns, before the number is
    formatted with two decimals: ["N/A"], ["0B"], or a number and the
    name of its unit. *)
Inductive Readable : Type :=
| not_available
| zero_bytes
| amount (num_size : Q) (unit_name : string).

(** Lines 8-24, for an integer or [None].  The loop is given as many
    turns as there are names. *)
Definition get_human_readable_size (size_in_bytes : option Z) : Readable :=
  match size_in_bytes with
  | None => not_available
  | Some 0 => zero_bytes
  | Some n =>
      let '(num_size, i) := scale (length size_name) (inject_Z n) 0 in
      amount num_size (nth i size_name "")
  end.

End ProgressTracker.


(* ===================================================================== *)
(** * Concrete runs *)
(* ===================================================================== *)

Module Scenario.
Import System.

(** A name of 209 characters: 198 [a], one [_], ten [b]. *)
Definition long_name : Py.str :=
  repeat "a"%char 198 ++ ["_"%char] ++ repeat "b"%char 10.

(** The bytes of [b"chunk1"] and [b"chunk2"]. *)
Definition chunk1 : list Byte.byte :=
  [Byte.x63; Byte.x68; Byte.x75; Byte.x6e; Byte.x6b; Byte.x31].
Definition chunk2 : list Byte.byte :=
  [Byte.x63; Byte.x68; Byte.x75; Byte.x6e; Byte.x6b; Byte.x32].

(** The thread of download [h] from its start to the chunk loop, the
    response declaring [content_length] bytes. *)
Definition reach_loop (h : Downloader.handle) (content_length : Z)
  : list action :=
  [ thread_step h Downloader.ev_ok;
    thread_step h (Downloader.ev_response content_length);
    thread_step h Downloader.ev_ok;
    thread_step h Downloader.ev_ok ].

Arguments reach_loop h%_nat content_length%_Z.

(** One turn of the loop on a chunk: yield, checkpoint, write, publish. *)
Definition receive (h : Downloader.handle) (chunk : list Byte.byte)
  : list action :=
  [ thread_step h (Downloader.ev_chunk chunk);
    thread_step h Downloader.ev_ok;
    thread_step h Downloader.ev_ok;
    thread_step h Downloader.ev_ok ].

Arguments receive h%_nat chunk.

(** The stream ends and the last locked block runs. *)
Definition end_of_stream (h : Downloader.handle) : list action :=
  [ thread_step h Downloader.ev_end_of_stream;
    thread_step h Downloader.ev_ok ].

Arguments end_of_stream h%_nat.

(** [start_download], then both chunks of a response that declared
    [content_length] bytes, each published. *)
Definition receive_both_chunks (content_length : Z) : list action :=
  [start_download "http://example.com/file.txt" "file.txt"]
    ++ reach_loop 0 content_length
    ++ receive 0 chunk1 ++ receive 0 chunk2.

Definition both_chunks_received (content_length : Z) : t :=
  run (receive_both_chunks content_length) (init 1).

(** The same transfer run to its end. *)
Definition complete_transfer (content_length : Z) : list action :=
  receive_both_chunks content_length ++ end_of_stream 0.

Definition transfer_completed (content_length : Z) : t :=
  run (complete_transfer content_length) (init 1).

(** A whole transfer after [start_download]: the response declares
    [content_length] bytes and the stream yields [chunks], then ends. *)
Definition whole_transfer (h : Downloader.handle) (content_length : Z)
           (chunks : list (list Byte.byte)) : list action :=
  reach_loop h content_length
    ++ concat (map (receive h) chunks)
    ++ end_of_stream h.

Arguments whole_transfer h%_nat content_length%_Z chunks.


(** The same call, without the next chunk. *)
Definition cancel_in_loop : list action :=
  [start_download "http://example.com/cancellable.txt" "cancellable.txt"]
    ++ reach_loop 0 10000
    ++ receive 0 chunk1
    ++ [cancel_download 0].

(** What may follow: the stream breaks, and the caller tries [resume] and
    [pause]. *)
Definition error_then_calls : list action :=
  [ thread_step 0
      (Downloader.ev_raise
         (Py.Exn Py.a_RequestException "Connection broken"));
    resume_download 0; pause_download 0; thread_step 0 Downloader.ev_ok ].

(** A transfer paused once its thread has passed the first locked block. *)
Definition paused_after_start : list action :=
  [ start_download "http://example.com/file.txt" "file.txt";
    thread_step 0 Downloader.ev_ok;
    pause_download 0 ].

(** [resume_download], then the whole transfer without any error. *)
Definition resumed_to_the_end : list action :=
  [ resume_download 0;
    thread_step 0 (Downloader.ev_response 12);
    thread_step 0 Downloader.ev_ok;
    thread_step 0 Downloader.ev_ok ]
    ++ receive 0 chunk1 ++ receive 0 chunk2 ++ end_of_stream 0.

(** Three requests, the first of which a pass has promoted. *)
Definition one_of_three_promoted : list action :=
  [ add_download 1 "http://x/a" "a.bin" 0;
    add_download 2 "http://x/b" "b.bin" 0;
    add_download 3 "http://x/c" "c.bin" 0;
    process_queue_once ].

(** One request, promoted by a pass of the loop; its thread has the
    response and stands before the locked block of lines 42-56. *)
Definition active_at_headers : list action :=
  [ add_download 1 "http://x/a" "a.bin" 0;
    process_queue_once;
    thread_step 0 Downloader.ev_ok;
    thread_step 0 (Downloader.ev_response 12) ].

(** A transfer in the chunk loop on which [cancel_download] was called. *)
Definition cancel_requested_in_loop : t :=
  run ([start_download "http://example.com/cancellable.txt" "cancellable.txt"]
         ++ reach_loop 0 10000
         ++ receive 0 chunk1
         ++ [cancel_download 0])
      (init 1).

(** What [requests] raises when the connection breaks in the stream. *)
Definition connection_error : Py.exn :=
  Py.Exn Py.a_RequestException "Connection broken".

(** Three requests of priority 0 against two workers. *)
Definition add_three : list action :=
  [ add_download 1 "http://x/a" "a.bin" 0;
    add_download 2 "http://x/b" "b.bin" 0;
    add_download 3 "http://x/c" "c.bin" 0 ].

Definition three_queued : t := run add_three (init 2).

(** Requests of priorities 2, 0, 1, added in that order. *)
Definition add_2_0_1 : list action :=
  [ add_download 1 "http://x/p2" "p2.bin" 2;
    add_download 2 "http://x/p0" "p0.bin" 0;
    add_download 3 "http://x/p1" "p1.bin" 1 ].

Definition priorities_2_0_1 : t := run add_2_0_1 (init 3).

(** Two requests of equal priority; the clock, read 5 at the first call,
    was set back and reads 3 at the second. *)
Definition add_with_clock_set_back : list action :=
  [ add_download 5 "http://x/a" "a.bin" 0;
    add_download 3 "http://x/b" "b.bin" 0 ].

End Scenario.

(* ===================================================================== *)
(** * Facts about the Python runtime pieces *)
(* ===================================================================== *)

Section StripFacts.
Import Py.
Variable p : ascii -> bool.

Lemma drop_while_idem (s : str) :
  drop_while p (drop_while p s) = drop_while p s.
Proof.
  induction s as [|c s IH]; simpl; [reflexivity|].
  destruct (p c) eqn:Hc; [exact IH|]. simpl. now rewrite Hc.
Qed.

Lemma drop_while_snoc_keep (s : str) (c : ascii) :
  p c = false -> drop_while p (s ++ [c]) = drop_while p s ++ [c].
Proof.
  intros Hc. induction s as [|c' s IH]; simpl.
  - now rewrite Hc.
  - destruct (p c'); [exact IH | reflexivity].
Qed.

Lemma drop_while_Forall (P : ascii -> Prop) (s : str) :
  Forall P s -> Forall P (drop_while p s).
Proof.
  induction 1 as [|c s Hc Hs IH]; simpl; [constructor|].
  destruct (p c); [exact IH | now constructor].
Qed.

Lemma drop_while_length (s : str) :
  (length (drop_while p s) <= length s)%nat.
Proof.
  induction s as [|c s IH]; simpl; [lia|]. destruct (p c); simpl; lia.
Qed.

Lemma rstrip_idem (s : str) : rstrip p (rstrip p s) = rstrip p s.
Proof.
  unfold rstrip. now rewrite rev_involutive, drop_while_idem.
Qed.

Lemma rstrip_keeps_head (c : ascii) (s : str) :
  p c = false -> rstrip p (c :: s) = c :: rstrip p s.
Proof.
  intros Hc. unfold rstrip. simpl rev at 2.
  rewrite drop_while_snoc_keep by exact Hc.
  now rewrite rev_app_distr.
Qed.

Lemma drop_while_head (s : str) :
  match drop_while p s with
  | [] => True
  | c :: _ => p c = false
  end.
Proof.
  induction s as [|c s IH]; simpl; [exact I|].
  destruct (p c) eqn:Hc; [exact IH | exact Hc].
Qed.

Lemma strip_idem (s : str) : strip p (strip p s) = strip p s.
Proof.
  unfold strip, lstrip.
  pose proof (drop_while_head s) as Hh.
  destruct (drop_while p s) as [|c s'] eqn:Hs.
  - reflexivity.
  - rewrite (rstrip_keeps_head c s' Hh). simpl. rewrite Hh.
    rewrite <- (rstrip_keeps_head c s' Hh). apply rstrip_idem.
Qed.

Lemma strip_Forall (P : ascii -> Prop) (s : str) :
  Forall P s -> Forall P (strip p s).
Proof.
  intros Hs. unfold strip, rstrip, lstrip.
  apply Forall_rev, drop_while_Forall, Forall_rev, drop_while_Forall, Hs.
Qed.

End StripFacts.

(* ===================================================================== *)
(** * Rules for [wpx] *)
(* ===================================================================== *)

Section WpRules.
Import Py.
Context {S : Type}.

Lemma wpx_ret {A} (a : A) Q E (s : S) : Q a s -> wpx (ret a) Q E s.
Proof. exact (fun H => H). Qed.

Lemma wpx_raise {A} (e : exn) (Q : A -> S -> Prop) E (s : S) :
  E e s -> wpx (raise e) Q E s.
Proof. exact (fun H => H). Qed.

Lemma wpx_get Q E (s : S) : Q s s -> wpx get Q E s.
Proof. exact (fun H => H). Qed.

Lemma wpx_put Q E (s s' : S) : Q tt s' -> wpx (put s') Q E s.
Proof. exact (fun H => H). Qed.

Lemma wpx_modify (f : S -> S) Q E (s : S) :
  Q tt (f s) -> wpx (modify f) Q E s.
Proof. exact (fun H => H). Qed.

Lemma wpx_bind {A B} (m : M S A) (k : A -> M S B) Q E (s : S) :
  wpx m (fun a s' => wpx (k a) Q E s') E s -> wpx (bind m k) Q E s.
Proof. unfold wpx, bind. destruct (m s); exact (fun H => H). Qed.

Lemma wpx_bind_inv {A B} (m : M S A) (k : A -> M S B) Q E (s : S) :
  wpx (bind m k) Q E s -> wpx m (fun a s' => wpx (k a) Q E s') E s.
Proof. unfold wpx, bind. destruct (m s); exact (fun H => H). Qed.

Lemma wpx_mono {A} (m : M S A) (Q Q' : A -> S -> Prop)
      (E E' : exn -> S -> Prop) (s : S) :
  (forall a s', Q a s' -> Q' a s') -> (forall e s', E e s' -> E' e s') ->
  wpx m Q E s -> wpx m Q' E' s.
Proof. unfold wpx. intros HQ HE. destruct (m s); auto. Qed.

Lemma wpx_try_except {A} (body : M S A) clauses Q E (s : S) :
  wpx body Q (fun e s' => wpx (dispatch clauses e) Q E s') s ->
  wpx (try_except body clauses) Q E s.
Proof. unfold wpx, try_except. destruct (body s); exact (fun H => H). Qed.

Lemma wpx_for_each {A B} (body : B -> A -> M S B) (I : B -> S -> Prop) E
      (xs : list A) :
  (forall acc x s, In x xs -> I acc s -> wpx (body acc x) I E s) ->
  forall acc s, I acc s -> wpx (for_each body xs acc) I E s.
Proof.
  induction xs as [|x xs IH]; intros Hbody acc s HI; simpl.
  - exact HI.
  - apply wpx_bind.
    eapply wpx_mono; [| |apply Hbody; [now left | exact HI]]; [|auto].
    intros acc' s' HI'. apply IH; [|exact HI'].
    intros acc0 x0 s0 Hin. apply Hbody. now right.
Qed.

(** A computation that meets [wpx ... never] returns. *)
Lemma wpx_returns {A} (m : M S A) Q (s : S) :
  wpx m Q never s -> exists a s', m s = Return a s' /\ Q a s'.
Proof. unfold wpx. destruct (m s); [eauto | contradiction]. Qed.

Lemma wpx_of_eq {A} (m : M S A) (Q : A -> S -> Prop) E (s s' : S) (a : A) :
  m s = Return a s' -> Q a s' -> wpx m Q E s.
Proof. unfold wpx. now intros ->. Qed.

End WpRules.

(* ===================================================================== *)
(** * Destination naming: sanitization and its fixed points *)
(* ===================================================================== *)

Section NamingFacts.
Import Py StorageOptimizer.
Variable isalnum : ascii -> bool.

(** What is known of [str.isalnum]: on the ASCII range it is true of
    digits and letters only. *)
Hypothesis isalnum_on_ascii :
  forall c, (nat_of_ascii c < 128)%nat -> isalnum c = isalnum_ascii c.

Lemma keep_or_underscore_allowed (c : ascii) :
  allowed isalnum (keep_or_underscore isalnum c) = true.
Proof.
  unfold keep_or_underscore.
  destruct (allowed isalnum c) eqn:Hc; [exact Hc|].
  unfold allowed. apply orb_true_iff. right. reflexivity.
Qed.

Lemma map_keep_allowed (s : str) :
  Forall (fun c => allowed isalnum c = true) s ->
  map (keep_or_underscore isalnum) s = s.
Proof.
  induction 1 as [|c s Hc Hs IH]; simpl; [reflexivity|].
  rewrite IH. unfold keep_or_underscore. now rewrite Hc.
Qed.

Lemma map_keep_Forall (s : str) :
  Forall (fun c => allowed isalnum c = true) (map (keep_or_underscore isalnum) s).
Proof.
  induction s as [|c s IH]; simpl; constructor;
    [apply keep_or_underscore_allowed | exact IH].
Qed.

Lemma default_name_allowed :
  Forall (fun c => allowed isalnum c = true)
         (list_ascii_of_string "sanitized_download_file").
Proof.
  simpl. repeat constructor; unfold allowed;
    rewrite isalnum_on_ascii by (vm_compute; lia); reflexivity.
Qed.

(** A name already clean (allowed characters only, nothing to strip, not
    empty) comes out of [sanitize] as it went in. *)
Lemma sanitize_clean (s : str) :
  Forall (fun c => allowed isalnum c = true) s ->
  strip (ascii_in strip_chars) s = s ->
  s <> [] ->
  sanitize isalnum s = s.
Proof.
  intros Hall Hstrip Hne. unfold sanitize.
  rewrite (map_keep_allowed s Hall), Hstrip.
  destruct s; [contradiction | reflexivity].
Qed.

(** [sanitize] gives a clean name. *)
Lemma sanitize_is_clean (filename : str) :
  let s := sanitize isalnum filename in
  Forall (fun c => allowed isalnum c = true) s
  /\ strip (ascii_in strip_chars) s = s
  /\ s <> [].
Proof.
  unfold sanitize.
  destruct (strip (ascii_in strip_chars)
                  (map (keep_or_underscore isalnum) filename))
    as [|c s'] eqn:Hs.
  - split; [apply default_name_allowed|]. split; [reflexivity | discriminate].
  - rewrite <- Hs. split; [|split].
    + apply strip_Forall, map_keep_Forall.
    + apply strip_idem.
    + rewrite Hs. discriminate.
Qed.

Lemma sanitize_idem (filename : str) :
  sanitize isalnum (sanitize isalnum filename) = sanitize isalnum filename.
Proof.
  destruct (sanitize_is_clean filename) as (Hall & Hstrip & Hne).
  now apply sanitize_clean.
Qed.

Lemma truncate_short (s : str) :
  Z.of_nat (length s) <= max_len -> truncate s = s.
Proof.
  intros Hlen. unfold truncate.
  destruct (max_len <? Z.of_nat (length s)) eqn:Hlt; [|reflexivity].
  apply Z.ltb_lt in Hlt. lia.
Qed.

Lemma untruncated_name_is_fixed_point (filename : str) :
  Z.of_nat (length (sanitize isalnum filename)) <= max_len ->
  sanitize_and_truncate isalnum (sanitize_and_truncate isalnum filename)
  = sanitize_and_truncate isalnum filename.
Proof.
  intros Hlen. unfold sanitize_and_truncate.
  rewrite (truncate_short _ Hlen), sanitize_idem.
  apply truncate_short, Hlen.
Qed.

(** C9, as the code has it: when the sanitized name is at most 200
    characters long, so that lines 97-101 cut nothing, the filename
    [suggest_filepath] produces is a fixed point of the
    sanitization-and-truncation step. *)
Theorem C9_untruncated_name_is_fixed_point
        (isspace : ascii -> bool) (url : str) (filename : option str) :
  Z.of_nat (length (sanitize isalnum
                      (given_or_derived isspace url filename)))
  <= max_len ->
  sanitize_and_truncate isalnum
    (suggest_filename isalnum isspace url filename)
  = suggest_filename isalnum isspace url filename.
Proof.
  intros Hlen. unfold suggest_filename.
  apply untruncated_name_is_fixed_point, Hlen.
Qed.

End NamingFacts.

(** C9 fails as stated: [suggest_filepath(url, filename=long_name)] cuts the
    name after the underscore (199 characters, no extension), and
    sanitizing that again strips the underscore. *)
Lemma C9_counterexample :
  let produced :=
    StorageOptimizer.suggest_filename Py.isalnum_ascii Py.isspace_ascii
      (list_ascii_of_string "http://x/a") (Some Scenario.long_name) in
  produced = repeat "a"%char 198 ++ ["_"%char]
  /\ StorageOptimizer.sanitize_and_truncate Py.isalnum_ascii produced
     = repeat "a"%char 198
  /\ StorageOptimizer.sanitize_and_truncate Py.isalnum_ascii produced
     <> produced.
Proof.
  cbv zeta. split; [vm_compute; reflexivity|].
  split; [vm_compute; reflexivity|].
  intros Heq. apply (f_equal (@length ascii)) in Heq.
  vm_compute in Heq. discriminate.
Qed.

Lemma C9_untruncated_name_is_fixed_point_witness :
  let url :=
    list_ascii_of_string "http://example.com/filename with spaces.txt" in
  Z.of_nat
    (length (StorageOptimizer.sanitize Py.isalnum_ascii
               (StorageOptimizer.given_or_derived Py.isspace_ascii url None)))
  <= StorageOptimizer.max_len
  /\ StorageOptimizer.suggest_filename Py.isalnum_ascii Py.isspace_ascii
       url None
     = list_ascii_of_string "filename_with_spaces.txt"
  /\ StorageOptimizer.sanitize_and_truncate Py.isalnum_ascii
       (StorageOptimizer.suggest_filename Py.isalnum_ascii Py.isspace_ascii
          url None)
     = StorageOptimizer.suggest_filename Py.isalnum_ascii Py.isspace_ascii
         url None.
Proof.
  cbv zeta. split; [vm_compute; discriminate|].
  split; [vm_compute; reflexivity|].
  apply (C9_untruncated_name_is_fixed_point Py.isalnum_ascii).
  - intros c _. reflexivity.
  - vm_compute. discriminate.
Defined.

(* ===================================================================== *)
(** * The pool: calls from outside *)
(* ===================================================================== *)

(** Unfolds the monad of a straight-line method body. *)
Ltac py_unfold :=
  unfold Py.bind, Py.ret, Py.get, Py.put, Py.modify, Py.raise in *.

Section PoolCalls.
Import Py Downloader.

Lemma has_task_true (d : Downloader.t) (h : handle) (task : Task) :
  download_tasks d !! h = Some task -> has_task h d = Return true d.
Proof.
  intros Hh. unfold has_task. py_unfold. rewrite Hh.
  rewrite bool_decide_eq_true_2 by eauto. reflexivity.
Qed.

Lemma has_task_false (d : Downloader.t) (h : handle) :
  download_tasks d !! h = None -> has_task h d = Return false d.
Proof.
  intros Hh. unfold has_task. py_unfold. rewrite Hh.
  rewrite bool_decide_eq_false_2; [reflexivity|].
  intros [x Hx]. discriminate.
Qed.

Lemma task_of_present (d : Downloader.t) (h : handle) (task : Task) :
  download_tasks d !! h = Some task -> task_of h d = Return task d.
Proof. intros Hh. unfold task_of. py_unfold. now rewrite Hh. Qed.

Lemma pause_refused (d : Downloader.t) (h : handle) :
  ~ pause_permitted d h -> pause_download h d = Return tt d.
Proof.
  intros Hno. unfold pause_download.
  destruct (download_tasks d !! h) as [task|] eqn:Hh.
  - unfold bind at 1. rewrite (has_task_true d h task Hh).
    unfold bind. rewrite (task_of_present d h task Hh).
    destruct (status task) eqn:Hs; try reflexivity;
      exfalso; apply Hno; exists task; auto.
  - unfold bind. now rewrite (has_task_false d h Hh).
Qed.

Lemma resume_refused (d : Downloader.t) (h : handle) :
  ~ resume_permitted d h -> resume_download h d = Return tt d.
Proof.
  intros Hno. unfold resume_download. py_unfold.
  destruct (download_tasks d !! h) as [task|] eqn:Hh; [|reflexivity].
  destruct (status task) eqn:Hs; try reflexivity.
  exfalso. apply Hno. exists task. auto.
Qed.

(** C10: [pause_download] and [resume_download] on an unknown id, or on a
    task whose status does not allow the change ([pause] outside
    ['pending'] and ['downloading'], [resume] outside ['paused']), return
    normally and leave the pool, hence every field of every task, as it
    was. *)
Theorem C10_pause_resume_refused_without_effect
        (d : Downloader.t) (h : handle) :
  (~ pause_permitted d h -> pause_download h d = Return tt d)
  /\ (~ resume_permitted d h -> resume_download h d = Return tt d).
Proof. split; [apply pause_refused | apply resume_refused]. Qed.

(** In a terminal state [pause], [resume] and [get_status] change
    nothing. *)
Lemma terminal_not_pause_permitted (d : Downloader.t) (h : handle)
      (task : Task) :
  download_tasks d !! h = Some task -> is_terminal (status task) = true ->
  ~ pause_permitted d h /\ ~ resume_permitted d h.
Proof.
  intros Hh Hterm. split.
  - intros (task' & Hh' & Hs). rewrite Hh in Hh'. injection Hh' as <-.
    destruct Hs as [Hs|Hs]; rewrite Hs in Hterm; discriminate.
  - intros (task' & Hh' & Hs). rewrite Hh in Hh'. injection Hh' as <-.
    rewrite Hs in Hterm; discriminate.
Qed.

Lemma get_status_present (d : Downloader.t) (h : handle) (task : Task) :
  download_tasks d !! h = Some task ->
  get_status h d = Return (Some (snapshot task)) d.
Proof. intros Hh. unfold get_status. py_unfold. now rewrite Hh. Qed.

Lemma get_status_unchanged (d : Downloader.t) (h : handle) :
  exists r, get_status h d = Return r d.
Proof.
  unfold get_status. py_unfold.
  destruct (download_tasks d !! h); eauto.
Qed.

Lemma cancel_terminal (d : Downloader.t) (h : handle) (task : Task) :
  download_tasks d !! h = Some task -> is_terminal (status task) = true ->
  cancel_download h d
  = Return tt (with_tasks (alter (set_status cancelled) h) d).
Proof.
  intros Hh Hterm. unfold cancel_download.
  unfold bind at 1. rewrite (has_task_true d h task Hh).
  unfold bind. rewrite (task_of_present d h task Hh).
  destruct (status task); try discriminate; reflexivity.
Qed.

Lemma set_status_same (task : Task) :
  set_status (status task) task = task.
Proof. now destruct task. Qed.

(** C3, as the code has it: on a task that is ['completed'], ['failed'] or
    ['cancelled'], [pause_download], [resume_download] and [get_status]
    leave the pool as it was; [cancel_download] leaves a ['cancelled'] task
    as it was and rewrites the status of a ['completed'] or ['failed'] one
    to ['cancelled'], touching no other field and no other task.  The
    status stays terminal under all four. *)
Theorem C3_terminal_state_under_calls
        (d : Downloader.t) (h : handle) (task : Task) :
  download_tasks d !! h = Some task ->
  is_terminal (status task) = true ->
  pause_download h d = Return tt d
  /\ resume_download h d = Return tt d
  /\ get_status h d = Return (Some (snapshot task)) d
  /\ exists d',
       cancel_download h d = Return tt d'
       /\ download_tasks d' = <[h := set_status cancelled task]> (download_tasks d)
       /\ threads d' = threads d /\ files d' = files d
       /\ num_workers d' = num_workers d
       /\ (status task = cancelled -> d' = d).
Proof.
  intros Hh Hterm.
  destruct (terminal_not_pause_permitted d h task Hh Hterm) as [Hp Hr].
  split; [now apply pause_refused|].
  split; [now apply resume_refused|].
  split; [now apply get_status_present|].
  eexists. split; [apply (cancel_terminal d h task Hh Hterm)|].
  assert (Halter : alter (set_status cancelled) h (download_tasks d)
                   = <[h := set_status cancelled task]> (download_tasks d)).
  { apply map_eq. intros h'. destruct (decide (h = h')) as [<-|Hne].
    - rewrite lookup_alter_eq, lookup_insert_eq, Hh. reflexivity.
    - rewrite lookup_alter_ne, lookup_insert_ne by exact Hne. reflexivity. }
  simpl. repeat split; try reflexivity; [exact Halter|].
  intros Hs. destruct d as [n tasks ths drawn fs]. unfold with_tasks. simpl in *.
  f_equal. rewrite Halter, <- Hs, set_status_same. now apply insert_id.
Qed.

End PoolCalls.

Lemma C10_pause_resume_refused_without_effect_witness :
  let d := QueueManager.downloader Scenario.cancel_requested_in_loop in
  ~ Downloader.pause_permitted d 0%nat
  /\ ~ Downloader.resume_permitted d 7%nat
  /\ Downloader.pause_download 0%nat d = Py.Return tt d
  /\ Downloader.resume_download 7%nat d = Py.Return tt d.
Proof.
  cbv zeta.
  assert (Hp : ~ Downloader.pause_permitted
                 (QueueManager.downloader Scenario.cancel_requested_in_loop)
                 0%nat).
  { intros (task & Hh & Hs). vm_compute in Hh. injection Hh as <-.
    destruct Hs as [Hs|Hs]; discriminate Hs. }
  assert (Hr : ~ Downloader.resume_permitted
                 (QueueManager.downloader Scenario.cancel_requested_in_loop)
                 7%nat).
  { intros (task & Hh & Hs). vm_compute in Hh. discriminate Hh. }
  split; [exact Hp|]. split; [exact Hr|].
  split.
  - exact (proj1 (C10_pause_resume_refused_without_effect _ 0%nat) Hp).
  - exact (proj2 (C10_pause_resume_refused_without_effect _ 7%nat) Hr).
Defined.

(** C3 fails as stated: [cancel_download] on a completed transfer rewrites
    its status to ['cancelled'] (line 236). *)
Lemma C3_counterexample :
  let s := Scenario.transfer_completed 12 in
  System.status_of 0 s = Some Downloader.completed
  /\ System.status_of 0 (System.step s (System.cancel_download 0))
     = Some Downloader.cancelled.
Proof. split; vm_compute; reflexivity. Qed.

Lemma C3_terminal_state_under_calls_witness :
  let d := QueueManager.downloader (Scenario.transfer_completed 12) in
  exists task,
    Downloader.download_tasks d !! 0%nat = Some task
    /\ Downloader.is_terminal (Downloader.status task) = true
    /\ Downloader.pause_download 0%nat d = Py.Return tt d
    /\ Downloader.resume_download 0%nat d = Py.Return tt d.
Proof.
  cbv zeta. eexists.
  assert (Hh : Downloader.download_tasks
                 (QueueManager.downloader (Scenario.transfer_completed 12))
                 !! 0%nat
               = Some (Downloader.mkTask "http://example.com/file.txt"
                         "file.txt" Downloader.completed None 100%float 12 12
                         (Some 0))).
  { vm_compute. reflexivity. }
  split; [exact Hh|]. split; [reflexivity|].
  destruct (C3_terminal_state_under_calls _ 0%nat _ Hh eq_refl)
    as (Hpause & Hresume & _).
  split; [exact Hpause | exact Hresume].
Defined.

(* ===================================================================== *)
(** * The pool: a transfer that fails *)
(* ===================================================================== *)

Section FailedTransfers.
Import Py Downloader.

Lemma wpx_has_task (h : handle) Q E (d : Downloader.t) :
  Q (bool_decide (is_Some (download_tasks d !! h))) d ->
  wpx (has_task h) Q E d.
Proof. exact (fun H => H). Qed.

Lemma wpx_has_task_present (h : handle) (task : Task) Q E
      (d : Downloader.t) :
  download_tasks d !! h = Some task -> Q true d -> wpx (has_task h) Q E d.
Proof.
  intros Hh HQ. unfold wpx. now rewrite (has_task_true d h task Hh).
Qed.

Lemma wpx_task_of (h : handle) (task : Task) Q E (d : Downloader.t) :
  download_tasks d !! h = Some task -> Q task d -> wpx (task_of h) Q E d.
Proof.
  intros Hh HQ. unfold wpx. now rewrite (task_of_present d h task Hh).
Qed.

Lemma wpx_cleanup (path : string) (ev : event) Q E (d : Downloader.t) :
  (forall b, Q b (with_files (delete path) d)) ->
  (forall b, Q b d) ->
  wpx (cleanup_incomplete_download path ev) Q E d.
Proof.
  intros Hgone Hkept. unfold wpx, cleanup_incomplete_download. py_unfold.
  destruct (files d !! path) eqn:Hp; [destruct ev|]; auto.
Qed.

Lemma wpx_path_exists (path : string) Q E (d : Downloader.t) :
  (forall b, Q b d) -> wpx (path_exists path) Q E d.
Proof. intros HQ. apply HQ. Qed.

Lemma wpx_mark_failed (h : handle) (task : Task) (message : string) Q E
      (d : Downloader.t) :
  download_tasks d !! h = Some task ->
  Q tt (with_tasks (alter (set_error (Some message)) h)
          (with_tasks (alter (set_status failed) h) d)) ->
  wpx (mark_failed h message) Q E d.
Proof.
  intros Hh HQ. unfold mark_failed. apply wpx_bind.
  apply (wpx_has_task_present h task); [exact Hh|]. exact HQ.
Qed.

(** Whatever is raised, the first or the last clause takes it: the task
    is marked, and the thread returns or goes on to clean up. *)
Lemma wpx_except_clauses (h : handle) (th : Thread) (task : Task) (e : exn)
      (d : Downloader.t) :
  download_tasks d !! h = Some task ->
  wpx (dispatch (except_clauses h th) e)
      (fun _ d' =>
         d' = if is_IOError e
              then with_threads (alter (goto finished) h)
                     (with_tasks
                        (alter (set_error (Some (io_error_message e))) h)
                        (with_tasks (alter (set_status failed) h) d))
              else with_threads (alter (goto at_unexpected_cleanup) h)
                     (with_tasks
                        (alter (set_error
                                  (Some (unexpected_error_message e))) h)
                        (with_tasks (alter (set_status failed) h) d)))
      never d.
Proof.
  intros Hh. unfold except_clauses. simpl dispatch.
  unfold is_IOError, is_RequestException.
  destruct (class_of e).
  - unfold on_IOError. apply wpx_bind.
    apply (wpx_mark_failed h task); [exact Hh|]. reflexivity.
  - unfold on_IOError. apply wpx_bind.
    apply (wpx_mark_failed h task); [exact Hh|]. reflexivity.
  - unfold on_Exception. apply wpx_bind.
    apply (wpx_mark_failed h task); [exact Hh|]. reflexivity.
Qed.

(** A blocking call that raises: the thread ends in a clause. *)
Lemma wpx_raise_in_try (h : handle) (th : Thread) (task : Task) (e : exn)
      (d : Downloader.t) :
  threads d !! h = Some th ->
  download_tasks d !! h = Some task ->
  at_blocking_call (th_pc th) = true ->
  wpx (thread_step h (ev_raise e))
      (fun _ d' =>
         d' = if is_IOError e
              then with_threads (alter (goto finished) h)
                     (with_tasks
                        (alter (set_error (Some (io_error_message e))) h)
                        (with_tasks (alter (set_status failed) h) d))
              else with_threads (alter (goto at_unexpected_cleanup) h)
                     (with_tasks
                        (alter (set_error
                                  (Some (unexpected_error_message e))) h)
                        (with_tasks (alter (set_status failed) h) d)))
      never d.
Proof.
  intros Hth Hh Hpc. unfold thread_step. apply wpx_bind, wpx_get.
  rewrite Hth.
  destruct (th_pc th) eqn:Hp; try discriminate Hpc;
    apply wpx_try_except; unfold try_body; rewrite Hp;
    apply wpx_raise; exact (wpx_except_clauses h th task e d Hh).
Qed.

End FailedTransfers.

Section ThreadReturns.
Import Py Downloader.

Lemma wpx_has_task_absent (h : handle) Q E (d : Downloader.t) :
  download_tasks d !! h = None -> Q false d -> wpx (has_task h) Q E d.
Proof.
  intros Hh HQ. unfold wpx. now rewrite (has_task_false d h Hh).
Qed.

Lemma wpx_update_task (h : handle) (f : Task -> Task) Q E
      (d : Downloader.t) :
  Q tt (with_tasks (alter f h) d) -> wpx (update_task h f) Q E d.
Proof. exact (fun H => H). Qed.

Lemma wpx_update_frame (h : handle) (f : Thread -> Thread) Q E
      (d : Downloader.t) :
  Q tt (with_threads (alter f h) d) -> wpx (update_frame h f) Q E d.
Proof. exact (fun H => H). Qed.

Lemma wpx_leave (h : handle) Q E (d : Downloader.t) :
  Q tt (with_threads (alter (goto finished) h) d) -> wpx (leave h) Q E d.
Proof. exact (fun H => H). Qed.

End ThreadReturns.

Ltac head_of m :=
  match m with
  | ?f _ => head_of f
  | _ => m
  end.

(** Symbolic execution of a method body under [wpx]. *)
Ltac wp_case :=
  match goal with
  | |- Py.wpx (Downloader.has_task ?h) _ _ ?d =>
      let Hh := fresh "Hh" in
      destruct (Downloader.download_tasks d !! h) as [?task|] eqn:Hh;
      [ eapply wpx_has_task_present; [exact Hh|]
      | eapply wpx_has_task_absent; [exact Hh|] ]
  | |- Py.wpx (Downloader.task_of ?h) _ _ ?d =>
      eapply wpx_task_of; [eassumption|]
  | |- Py.wpx (Downloader.update_task _ _) _ _ _ => apply wpx_update_task
  | |- Py.wpx (Downloader.update_frame _ _) _ _ _ => apply wpx_update_frame
  | |- Py.wpx (Downloader.leave _) _ _ _ => apply wpx_leave
  | |- Py.wpx (Downloader.cleanup_incomplete_download _ _) _ _ _ =>
      apply wpx_cleanup; intros ?
  | |- Py.wpx (Downloader.path_exists _) _ _ _ =>
      apply wpx_path_exists; intros ?
  | |- Py.wpx (Py.ret _) _ _ _ => apply wpx_ret
  | |- Py.wpx Py.get _ _ _ => apply wpx_get
  | |- Py.wpx (Py.put _) _ _ _ => apply wpx_put
  | |- Py.wpx (Py.modify _) _ _ _ => apply wpx_modify
  | |- Py.wpx (Py.raise _) _ _ _ => apply wpx_raise
  | |- Py.wpx (Py.bind _ _) _ _ _ => apply wpx_bind
  | |- Py.wpx (Py.try_except _ _) _ _ _ => apply wpx_try_except
  | |- Py.wpx (Py.dispatch _ _) _ _ _ =>
      unfold Downloader.except_clauses; cbn [Py.dispatch]
  | |- Py.wpx (match ?x with _ => _ end) _ _ _ => destruct x eqn:?
  | |- Py.wpx ?m _ _ _ => let f := head_of m in unfold f
  end.

Ltac wp_run := repeat (cbv beta iota; cbn [negb]; wp_case).


Section ThreadReturns2.
Import Py Downloader.

(** No step of a transfer thread lets an exception out. *)
Lemma thread_step_returns (h : handle) (ev : event) (d : Downloader.t) :
  wpx (thread_step h ev) (fun _ _ => True) never d.
Proof. unfold thread_step, try_body. wp_run; exact I. Qed.

End ThreadReturns2.

Section NothingRaised.
Import Py Downloader.

Lemma start_download_returns (url filepath : string) (d : Downloader.t) :
  exists h d', start_download url filepath d = Return h d'.
Proof. unfold start_download. py_unfold. simpl. eauto. Qed.

End NothingRaised.

(* ===================================================================== *)
(** * Cancellation against a failing transfer *)
(* ===================================================================== *)

(** C2, at the input where the code departs from it: the transfer is in
    its chunk loop, [cancel_download] has set ['cancelling'], and the
    stream then raises a transport error; every exception of [requests]
    is an [IOError], so that the [except IOError] clause of lines 109-116
    takes it and sets ['failed'] over ['cancelling']. *)
Theorem C2_transport_error_after_cancel_ends_failed :
  let s := Scenario.cancel_requested_in_loop in
  System.status_of 0 s = Some Downloader.cancelling
  /\ System.status_of 0
       (System.step s
          (System.thread_step 0
             (Downloader.ev_raise Scenario.connection_error)))
     = Some Downloader.failed.
Proof. split; vm_compute; reflexivity. Qed.

(** The case left for [h'] after a step: the task of [h] is read off the
    updated table. *)
Ltac cancel_leaf Hc h h' :=
  let task := fresh "task" in
  let Hl := fresh "Hl" in
  let Hs := fresh "Hs" in
  destruct Hc as (task & Hl & Hs);
  destruct (decide (h = h')) as [?|?];
  [ subst;
    try match goal with
        | H : Downloader.download_tasks _ !! _ = None |- _ => congruence
        end;
    repeat match goal with
           | H : Downloader.download_tasks _ !! _ = Some ?t |- _ =>
               lazymatch t with
               | task => fail
               | _ => assert (t = task) by congruence; subst t; clear H
               end
           end;
    unfold Downloader.cancel_standing, Downloader.with_threads,
      Downloader.with_tasks, Downloader.with_files;
    cbn [Downloader.download_tasks];
    rewrite ?lookup_alter_eq, ?Hl; cbn [fmap option_fmap option_map];
    eexists; split; [reflexivity|]; cbn;
    try (destruct Hs; congruence); auto
  | exists task; unfold Downloader.with_threads, Downloader.with_tasks,
      Downloader.with_files; cbn [Downloader.download_tasks];
    rewrite ?lookup_alter_ne by congruence; auto ].

Section CancelStands.
Import Py Downloader.

(** Apart from a raising call, no step of any thread takes a task out of
    ['cancelling'] and ['cancelled']. *)
Lemma thread_step_keeps_cancel (h h' : handle) (ev : event)
      (d : Downloader.t) :
  (forall e, ev <> ev_raise e) ->
  cancel_standing h d ->
  wpx (thread_step h' ev) (fun _ d' => cancel_standing h d') never d.
Proof.
  intros Hev Hc. unfold thread_step, try_body.
  wp_run.
  all: try exact Hc.
  all: try (exfalso; exact (Hev _ eq_refl)).
  all: cancel_leaf Hc h h'.
Qed.

(** Nor does a call from outside. *)
Lemma calls_keep_cancel (h h' : handle) (d : Downloader.t) :
  cancel_standing h d ->
  wpx (pause_download h') (fun _ d' => cancel_standing h d') never d
  /\ wpx (resume_download h') (fun _ d' => cancel_standing h d') never d
  /\ wpx (cancel_download h') (fun _ d' => cancel_standing h d') never d
  /\ wpx (get_status h') (fun _ d' => cancel_standing h d') never d.
Proof.
  intros Hc. repeat split.
  - unfold pause_download. wp_run; try exact Hc; cancel_leaf Hc h h'.
  - unfold resume_download. wp_run; try exact Hc; cancel_leaf Hc h h'.
  - unfold cancel_download. wp_run; try exact Hc; cancel_leaf Hc h h'.
  - unfold get_status. wp_run; exact Hc.
Qed.
End CancelStands.

(* ===================================================================== *)
(** * The queue manager: one pass of the loop *)
(* ===================================================================== *)

(** C1, at the input where the code departs from it: three requests of
    priority 0 and two workers; one pass of the loop (lines 97-99: an
    [if], not a loop) promotes the first request only. *)
Theorem C1_one_pass_promotes_one_entry :
  let s := System.step Scenario.three_queued System.process_queue_once in
  System.active_ids s = ["qm_1"]
  /\ System.queued_ids s = ["qm_2"; "qm_3"]
  /\ System.active_ids (System.step s System.process_queue_once)
     = ["qm_1"; "qm_2"].
Proof. repeat split; vm_compute; reflexivity. Qed.

(* ===================================================================== *)
(** * The queue manager: [remove_download] *)
(* ===================================================================== *)

Section RemoveDownload.
Import Py QueueManager.

Lemma filter_all (A : Type) (f : A -> bool) (l : list A) :
  (forall x, In x l -> f x = true) -> List.filter f l = l.
Proof.
  induction l as [|x l IH]; simpl; intros Hall; [reflexivity|].
  rewrite (Hall x) by auto. f_equal. apply IH. auto.
Qed.

Lemma filter_length_le (A : Type) (f : A -> bool) (l : list A) :
  (length (List.filter f l) <= length l)%nat.
Proof.
  induction l as [|x l IH]; simpl; [lia|]. destruct (f x); simpl; lia.
Qed.

Lemma filter_some_out (A : Type) (f : A -> bool) (l : list A) (x : A) :
  In x l -> f x = false -> (length (List.filter f l) < length l)%nat.
Proof.
  induction l as [|y l IH]; simpl; [contradiction|].
  intros [->|Hin] Hx.
  - rewrite Hx. pose proof (filter_length_le A f l). lia.
  - specialize (IH Hin Hx). destruct (f y); simpl; lia.
Qed.

Lemma find_active_Some {H : Type} (id : string) (active : dict H Entry)
      (h : H) :
  find_active id active = Some h ->
  exists e, In (h, e) active /\ qm_id e = id.
Proof.
  induction active as [|[h' e'] active IH]; simpl; [discriminate|].
  destruct (String.eqb (qm_id e') id) eqn:He.
  - intros [= <-]. exists e'. split; [auto|]. now apply String.eqb_eq.
  - intros Hf. destruct (IH Hf) as (e & Hin & Heq). eauto.
Qed.

Lemma find_active_None {H : Type} (id : string) (active : dict H Entry) :
  (forall h e, In (h, e) active -> qm_id e <> id) ->
  find_active id active = None.
Proof.
  induction active as [|[h' e'] active IH]; simpl; intros Hall; [reflexivity|].
  destruct (String.eqb (qm_id e') id) eqn:He.
  - apply String.eqb_eq in He. exfalso. apply (Hall h' e'); auto.
  - apply IH. intros h e Hin. apply (Hall h e). auto.
Qed.

Lemma find_active_is_Some {H : Type} (id : string) (active : dict H Entry)
      (h : H) (e : Entry) :
  In (h, e) active -> qm_id e = id ->
  exists h', find_active id active = Some h'.
Proof.
  intros Hin Heq. destruct (find_active id active) as [h'|] eqn:Hf; [eauto|].
  exfalso. revert Hf Hin. induction active as [|[h1 e1] active IH]; simpl.
  - intros _ [].
  - destruct (String.eqb (qm_id e1) id) eqn:He; [discriminate|].
    intros Hf [[= -> ->]|Hin]; [|now apply IH].
    apply String.eqb_neq in He. contradiction.
Qed.

Lemma cancel_download_returns (h : Downloader.handle) (d : Downloader.t) :
  exists d', Downloader.cancel_download h d = Return tt d'.
Proof.
  assert (Hwp : wpx (Downloader.cancel_download h) (fun _ _ => True) never d).
  { unfold Downloader.cancel_download. wp_run; exact I. }
  destruct (wpx_returns _ _ _ Hwp) as ([] & d' & Hd & _). eauto.
Qed.

(** C8: [remove_download(id)] returns [True] and takes the entry out of the
    backlog when [id] is queued; returns [True] after calling
    [cancel_download] on the pool id that [id] is active under, the
    active set being left as it is; returns [False], raising nothing, when
    [id] is in neither. *)
Theorem C8_remove_download_by_case (s : System.t) (id : string) :
  ((exists e, In e (pending_queue s) /\ qm_id e = id) ->
   exists s',
     remove_download id s = Return true s'
     /\ pending_queue s'
        = List.filter (fun task => negb (String.eqb (qm_id task) id))
                      (pending_queue s)
     /\ (forall e, In e (pending_queue s') -> qm_id e <> id)
     /\ active_downloads s' = active_downloads s
     /\ downloader s' = downloader s)
  /\ ((forall e, In e (pending_queue s) -> qm_id e <> id) ->
      (exists h e, In (h, e) (active_downloads s) /\ qm_id e = id) ->
      exists h e d',
        In (h, e) (active_downloads s) /\ qm_id e = id
        /\ Downloader.cancel_download h (downloader s) = Return tt d'
        /\ remove_download id s
           = Return true (mk d' (pending_queue s) (active_downloads s)
                             (qm_id_counter s)))
  /\ ((forall e, In e (pending_queue s) -> qm_id e <> id) ->
      (forall h e, In (h, e) (active_downloads s) -> qm_id e <> id) ->
      remove_download id s = Return false s).
Proof.
  assert (Hkeep : (forall e, In e (pending_queue s) -> qm_id e <> id) ->
                  List.filter (fun task => negb (String.eqb (qm_id task) id))
                              (pending_queue s)
                  = pending_queue s).
  { intros Hall. apply filter_all. intros e He.
    apply negb_true_iff, String.eqb_neq, Hall, He. }
  split; [|split].
  - intros (e & Hin & Heq).
    assert (Hlt : (length (List.filter
                     (fun task => negb (String.eqb (qm_id task) id))
                     (pending_queue s)) < length (pending_queue s))%nat).
    { apply (filter_some_out _ _ _ e Hin).
      apply negb_false_iff, String.eqb_eq, Heq. }
    unfold remove_download, with_pending. py_unfold. simpl.
    destruct (Nat.eqb_spec
                (length (List.filter
                   (fun task => negb (String.eqb (qm_id task) id))
                   (pending_queue s)))
                (length (pending_queue s))) as [Heqlen|_]; [lia|].
    simpl. eexists. split; [reflexivity|]. simpl.
    split; [reflexivity|]. split; [|split; reflexivity].
    intros e' He'. apply filter_In in He'. destruct He' as [_ He'].
    now apply negb_true_iff, String.eqb_neq in He'.
  - intros Hall (h & e & Hin & Heq).
    destruct (find_active_is_Some id _ h e Hin Heq) as [h' Hf].
    destruct (find_active_Some id _ h' Hf) as (e' & Hin' & Heq').
    destruct (cancel_download_returns h' (downloader s)) as [d' Hd'].
    exists h', e', d'. split; [exact Hin'|]. split; [exact Heq'|].
    split; [exact Hd'|].
    unfold remove_download, with_pending. py_unfold. simpl.
    rewrite !(Hkeep Hall), Nat.eqb_refl. simpl. rewrite Hf.
    unfold on_downloader. simpl. rewrite Hd'. reflexivity.
  - intros Hall Hnone.
    unfold remove_download, with_pending. py_unfold. simpl.
    rewrite !(Hkeep Hall), Nat.eqb_refl. simpl.
    rewrite (find_active_None id _ Hnone). destruct s. reflexivity.
Qed.

End RemoveDownload.
Lemma C8_remove_download_by_case_witness :
  (exists s',
      QueueManager.remove_download "qm_2" Scenario.three_queued
      = Py.Return true s'
      /\ System.queued_ids s' = ["qm_1"; "qm_3"])
  /\ (let s := System.step Scenario.three_queued System.process_queue_once in
      exists s',
        QueueManager.remove_download "qm_1" s = Py.Return true s'
        /\ QueueManager.active_downloads s' = QueueManager.active_downloads s)
  /\ QueueManager.remove_download "non_existent_qm_id" Scenario.three_queued
     = Py.Return false Scenario.three_queued.
Proof.
  split; [|split].
  - destruct (proj1 (C8_remove_download_by_case Scenario.three_queued "qm_2"))
      as (s' & Hr & Hp & _).
    { eexists. split; [right; left; reflexivity | reflexivity]. }
    exists s'. split; [exact Hr|].
    unfold System.queued_ids. rewrite Hp. vm_compute. reflexivity.
  - cbv zeta.
    destruct (proj1 (proj2 (C8_remove_download_by_case
                (System.step Scenario.three_queued System.process_queue_once)
                "qm_1")))
      as (h & e & d' & _ & _ & _ & Hr).
    { intros e He. vm_compute in He.
      destruct He as [<-|[<-|[]]]; discriminate. }
    { eexists _, _. split; [left; reflexivity | reflexivity]. }
    eexists. split; [exact Hr | reflexivity].
  - apply (proj2 (proj2 (C8_remove_download_by_case Scenario.three_queued
                           "non_existent_qm_id"))).
    + intros e He. vm_compute in He.
      destruct He as [<-|[<-|[<-|[]]]]; discriminate.
    + intros h e He. vm_compute in He. destruct He.
Defined.

(* ===================================================================== *)
(** * The pool: the numbers of a task agree at every step *)
(* ===================================================================== *)

Ltac know_task d h :=
  lazymatch goal with
  | H : Downloader.download_tasks d !! h = _ |- _ => idtac
  | _ => destruct (Downloader.download_tasks d !! h) eqn:?
  end.

Section Consistency.
Import Py Downloader.

(** To re-establish [consistent] after a step that touches [h0] only. *)
Lemma consistent_step (d d' : Downloader.t) (h0 : handle) :
  consistent d ->
  (forall h, h <> h0 ->
     download_tasks d' !! h = download_tasks d !! h
     /\ threads d' !! h = threads d !! h) ->
  (forall task', download_tasks d' !! h0 = Some task' ->
     percent_ok task'
     /\ (forall th', threads d' !! h0 = Some th' ->
                     frame_ok th' task' /\ done_ok th' task')) ->
  consistent d'.
Proof.
  intros Hd Hother Hh0 h task Hh.
  destruct (decide (h = h0)) as [->|Hne]; [now apply Hh0|].
  destruct (Hother h Hne) as [Ht Hth]. rewrite Ht in Hh.
  destruct (Hd h task Hh) as [Hp Hf]. split; [exact Hp|].
  intros th Hth'. rewrite Hth in Hth'. now apply Hf.
Qed.

End Consistency.

(** Boolean tests on the counts, as propositions. *)
Ltac tests_to_props :=
  repeat match goal with
         | H : (_ && _) = true |- _ => apply andb_true_iff in H as [? ?]
         | H : (_ && _) = false |- _ => apply andb_false_iff in H as [?|?]
         | H : (_ <? _) = true |- _ => apply Z.ltb_lt in H
         | H : (_ <? _) = false |- _ => apply Z.ltb_ge in H
         | H : (_ =? _) = true |- _ => apply Z.eqb_eq in H
         | H : (_ =? _) = false |- _ => apply Z.eqb_neq in H
         end.

(** The cases left by symbolic execution: the other ids are untouched,
    and the task and frame of [h0] are read off the updated maps. *)
Ltac consistent_leaf Hd d h0 :=
  apply (consistent_step d _ h0 Hd);
  [ intros ? ?; simpl; rewrite ?lookup_alter_ne, ?lookup_insert_ne
      by congruence; auto
  | know_task d h0;
    match goal with
    | Hh : Downloader.download_tasks _ !! _ = None |- _ =>
        simpl; rewrite ?lookup_alter_eq, Hh; simpl; intros ? [=]
    | Hh : Downloader.download_tasks _ !! ?h = Some ?task,
      Hth : Downloader.threads _ !! ?h = Some ?th,
      Hpc : Downloader.th_pc ?th = _ |- _ =>
        let Hp := fresh "Hp" in
        let Hf := fresh "Hf" in
        let Hdone := fresh "Hdone" in
        destruct (Hd h task Hh) as [Hp Hf];
        destruct (Hf th Hth) as [Hf' Hdone]; clear Hf;
        unfold Downloader.frame_ok in Hf';
        unfold Downloader.done_ok in Hdone;
        rewrite Hpc in Hf', Hdone;
        assert (Downloader.status task <> Downloader.completed)
          by (let Hs := fresh in
              intros Hs; specialize (Hdone Hs); discriminate Hdone);
        clear Hdone;
        simpl; rewrite ?lookup_alter_eq, ?Hh, ?Hth; simpl;
        intros ? [= <-]; split; [ | intros ? [= <-]; split ];
        unfold Downloader.percent_ok, Downloader.written_progress,
          Downloader.frame_ok, Downloader.done_ok in *;
        simpl in *; tests_to_props
    end ].

Section Consistency2.
Import Py Downloader.

Lemma thread_step_consistent (h0 : handle) (ev : event) (d : Downloader.t) :
  consistent d ->
  wpx (thread_step h0 ev) (fun _ d' => consistent d') never d.
Proof.
  intros Hd. unfold thread_step, try_body, request_cleanup,
               unexpected_cleanup.
  wp_run.
  all: try exact Hd.
  all: consistent_leaf Hd d h0.
  all: try assumption.
  all: try tauto.
  all: try congruence.
  all: try lia.
  all: try (intros Hpos; split; [tauto | intros; congruence]).
  all: try (intros Hpos; split; [apply Hp; lia | intros; congruence]).
  all: try (intros Hpos; split; [intuition congruence | intros; lia]).
  all: intros Hpos.
  all: try (rewrite Hf'; split; [right; left; reflexivity|];
            intros Hs; contradiction).
  destruct Hf' as [Ht Hb].
  split; [right; right; split; [reflexivity|lia] | reflexivity].
Qed.

Lemma consistent_set_status (h0 : handle) (st : Status)
      (d : Downloader.t) :
  st <> completed ->
  consistent d -> consistent (with_tasks (alter (set_status st) h0) d).
Proof.
  intros Hst Hd h task'. simpl. intros Hl.
  destruct (decide (h = h0)) as [->|Hne].
  - rewrite lookup_alter_eq in Hl.
    destruct (download_tasks d !! h0) as [task|] eqn:Hh; [|discriminate].
    injection Hl as <-. destruct (Hd h0 task Hh) as [Hp Hf].
    split.
    + intros Hpos. split; [apply Hp, Hpos | intros Hs; contradiction].
    + intros th Hth. split; [apply (Hf th Hth) | intros Hs; contradiction].
  - rewrite lookup_alter_ne in Hl by congruence. apply (Hd h task' Hl).
Qed.

Lemma pause_download_consistent (h0 : handle) (d : Downloader.t) :
  consistent d ->
  wpx (pause_download h0) (fun _ d' => consistent d') never d.
Proof.
  intros Hd. unfold pause_download.
  wp_run; try exact Hd; apply consistent_set_status; (discriminate || exact Hd).
Qed.

Lemma resume_download_consistent (h0 : handle) (d : Downloader.t) :
  consistent d ->
  wpx (resume_download h0) (fun _ d' => consistent d') never d.
Proof.
  intros Hd. unfold resume_download.
  wp_run; try exact Hd; apply consistent_set_status; (discriminate || exact Hd).
Qed.

Lemma cancel_download_consistent (h0 : handle) (d : Downloader.t) :
  consistent d ->
  wpx (cancel_download h0) (fun _ d' => consistent d') never d.
Proof.
  intros Hd. unfold cancel_download.
  wp_run; try exact Hd; apply consistent_set_status; (discriminate || exact Hd).
Qed.

Lemma get_status_consistent (h0 : handle) (d : Downloader.t) :
  consistent d ->
  wpx (get_status h0) (fun _ d' => consistent d') never d.
Proof. intros Hd. unfold get_status. wp_run; exact Hd. Qed.

Lemma start_download_consistent (url filepath : string)
      (d : Downloader.t) :
  consistent d ->
  wpx (start_download url filepath) (fun _ d' => consistent d') never d.
Proof.
  intros Hd. unfold start_download. wp_run.
  intros h task. simpl.
  destruct (decide (h = uuid_drawn d)) as [->|Hne].
  - rewrite lookup_alter_eq, !lookup_insert_eq. simpl. intros [= <-].
    split; [unfold percent_ok; simpl; lia|].
    intros th [= <-]. unfold frame_ok, done_ok. simpl.
    split; [auto | discriminate].
  - rewrite lookup_alter_ne, !lookup_insert_ne by congruence.
    apply (Hd h task).
Qed.

Lemma init_consistent (n : Z) : consistent (Downloader.init n).
Proof. intros h task. simpl. rewrite lookup_empty. discriminate. Qed.

End Consistency2.

(* ===================================================================== *)
(** * The queue manager over the pool: what a pass does *)
(* ===================================================================== *)

Section DictFacts.
Import Py.
Context {K V : Type} `{EqDecision K}.

Lemma dict_get_of_key (k : K) (d : dict K V) :
  In k (map fst d) -> exists v, dict_get k d = Some v.
Proof.
  induction d as [|[k' v'] d IH]; simpl; [contradiction|].
  intros Hin. destruct (decide (k' = k)) as [_|Hne]; [eauto|].
  destruct Hin as [Heq|Hin]; [contradiction | now apply IH].
Qed.

Lemma dict_set_keys (k : K) (v v' : V) (d : dict K V) :
  dict_get k d = Some v -> map fst (dict_set k v' d) = map fst d.
Proof.
  induction d as [|[k1 v1] d IH]; simpl; [discriminate|].
  destruct (decide (k1 = k)) as [_|Hne]; [reflexivity|].
  intros Hg. simpl. f_equal. now apply IH.
Qed.

Lemma dict_set_length (k : K) (v : V) (d : dict K V) :
  (length (dict_set k v d) <= S (length d))%nat.
Proof.
  induction d as [|[k1 v1] d IH]; simpl; [lia|].
  destruct (decide (k1 = k)); simpl; lia.
Qed.

Lemma dict_del_length (k : K) (d : dict K V) :
  (length (dict_del k d) <= length d)%nat.
Proof.
  induction d as [|[k1 v1] d IH]; simpl; [lia|].
  destruct (decide (k1 = k)); simpl; lia.
Qed.

End DictFacts.

Section PassFacts.
Import Py QueueManager.

Lemma wpx_on_downloader {A} (m : M Downloader.t A) Q E (s : System.t) :
  wpx m
      (fun a d => Q a (mk d (pending_queue s) (active_downloads s)
                          (qm_id_counter s)))
      (fun e d => E e (mk d (pending_queue s) (active_downloads s)
                          (qm_id_counter s)))
      (downloader s) ->
  wpx (on_downloader m) Q E s.
Proof.
  unfold wpx, on_downloader. destruct (m (downloader s)); exact (fun H => H).
Qed.

Lemma wpx_get_status_here (h : Downloader.handle) Q E (s : System.t) :
  (forall r, Q r s) ->
  wpx (on_downloader (dl_get_status h)) Q E s.
Proof.
  intros HQ. apply wpx_on_downloader. simpl.
  destruct (get_status_unchanged (downloader s) h) as [r Hr].
  apply (wpx_of_eq _ _ _ _ _ _ Hr).
  destruct s. apply HQ.
Qed.

Lemma refresh_spec (finished : list Downloader.handle)
      (downloader_id : Downloader.handle) (s : System.t) :
  In downloader_id (map fst (active_downloads s)) ->
  wpx (refresh finished downloader_id)
      (fun _ s' =>
         System.active_only s s'
         /\ map fst (active_downloads s') = map fst (active_downloads s))
      never s.
Proof.
  intros Hin. unfold refresh. apply wpx_bind, wpx_get_status_here.
  intros [info|]; [|apply wpx_ret; unfold System.active_only; auto].
  apply wpx_bind. unfold set_active_status. apply wpx_bind, wpx_get.
  destruct (dict_get_of_key _ _ Hin) as [task_details Hg]. rewrite Hg.
  apply wpx_modify.
  assert (Hres : System.active_only s
            (with_active
               (dict_set downloader_id
                  (set_status (live (Downloader.snap_status info))
                              task_details)) s)
          /\ map fst (active_downloads
               (with_active
                  (dict_set downloader_id
                     (set_status (live (Downloader.snap_status info))
                                 task_details)) s))
             = map fst (active_downloads s)).
  { split; [unfold System.active_only; auto|]. simpl.
    apply (dict_set_keys _ _ _ _ Hg). }
  destruct (Downloader.is_terminal (Downloader.snap_status info));
    apply wpx_ret; exact Hres.
Qed.

Lemma refresh_loop_spec (s : System.t) :
  wpx (for_each refresh (map fst (active_downloads s)) [])
      (fun _ s' =>
         System.active_only s s'
         /\ map fst (active_downloads s') = map fst (active_downloads s))
      never s.
Proof.
  apply (wpx_for_each refresh
           (fun _ s' =>
              System.active_only s s'
              /\ map fst (active_downloads s') = map fst (active_downloads s))).
  - intros acc x s1 Hin (Hsame & Hkeys).
    eapply wpx_mono; [| |apply refresh_spec; rewrite Hkeys; exact Hin];
      [|auto].
    intros _ s2 ((Hd & Hp & Hc) & Hkeys2).
    destruct Hsame as (Hd1 & Hp1 & Hc1).
    unfold System.active_only. repeat split; congruence.
  - unfold System.active_only. auto.
Qed.

Lemma retire_spec (dl_id : Downloader.handle) (s : System.t) :
  wpx (retire dl_id)
      (fun _ s' =>
         System.active_only s s'
         /\ (length (active_downloads s') <= length (active_downloads s))%nat)
      never s.
Proof.
  unfold retire. apply wpx_bind, wpx_get.
  destruct (dict_get dl_id (active_downloads s)).
  - apply wpx_modify. split; [unfold System.active_only; auto|].
    simpl. apply dict_del_length.
  - apply wpx_ret. split; [unfold System.active_only; auto | lia].
Qed.

Lemma retire_loop_spec (ids : list Downloader.handle) (s : System.t) :
  wpx (for_each (fun _ dl_id => retire dl_id) ids tt)
      (fun _ s' =>
         System.active_only s s'
         /\ (length (active_downloads s') <= length (active_downloads s))%nat)
      never s.
Proof.
  apply (wpx_for_each (fun _ dl_id => retire dl_id)
           (fun _ s' =>
              System.active_only s s'
              /\ (length (active_downloads s')
                  <= length (active_downloads s))%nat)).
  - intros acc x s1 _ ((Hd1 & Hp1 & Hc1) & Hlen).
    eapply wpx_mono; [| |apply retire_spec]; [|auto].
    intros _ s2 ((Hd & Hp & Hc) & Hlen2).
    unfold System.active_only. repeat split; try congruence. lia.
  - unfold System.active_only. auto.
Qed.

Lemma dispatch_new_spec (s : System.t) :
  wpx dispatch_new
      (fun _ s' =>
         (s' = s
          /\ (pending_queue s = []
              \/ ~ Z.of_nat (length (active_downloads s))
                   < Downloader.num_workers (downloader s)))
         \/ (exists e rest h d',
               pending_queue s = e :: rest
               /\ Z.of_nat (length (active_downloads s))
                  < Downloader.num_workers (downloader s)
               /\ Downloader.start_download (url e) (filepath e) (downloader s)
                  = Return h d'
               /\ s' = mk d' rest
                         (dict_set h (set_status processing e)
                                   (active_downloads s))
                         (qm_id_counter s)))
      never s.
Proof.
  unfold dispatch_new. apply wpx_bind, wpx_get.
  destruct (pending_queue s) as [|e rest] eqn:Hpending.
  - apply wpx_ret. left. auto.
  - simpl dl_num_workers.
    destruct (Z.ltb_spec (Z.of_nat (length (active_downloads s)))
                         (Downloader.num_workers (downloader s)))
      as [Hlt|Hge].
    + apply wpx_bind, wpx_modify. apply wpx_bind, wpx_on_downloader.
      simpl.
      destruct (start_download_returns (url e) (filepath e) (downloader s))
        as (h & d' & Hstart).
      unfold wpx at 1. unfold bind at 1. rewrite Hstart. unfold ret, wpx.
      simpl. right. exists e, rest, h, d'. auto.
    + apply wpx_ret. left. split; [reflexivity|]. right. lia.
Qed.

Lemma process_queue_once_spec (s : System.t) :
  wpx process_queue_once (fun _ s' => System.pass_result s s') never s.
Proof.
  unfold process_queue_once. apply wpx_bind, wpx_get. apply wpx_bind.
  eapply wpx_mono; [| |apply refresh_loop_spec]; [|auto].
  intros ids s1 ((Hd1 & Hp1 & Hc1) & Hkeys1). apply wpx_bind.
  eapply wpx_mono; [| |apply retire_loop_spec]; [|auto].
  intros _ s2 ((Hd2 & Hp2 & Hc2) & Hlen2).
  eapply wpx_mono; [| |apply dispatch_new_spec]; [|auto].
  assert (Hlen : (length (active_downloads s2)
                  <= length (active_downloads s))%nat).
  { rewrite <- (length_map fst (active_downloads s)), <- Hkeys1, length_map.
    exact Hlen2. }
  intros _ s3 [(-> & Hnone)|(e & rest & h & d' & Hpend & Hlt & Hstart & ->)];
    exists (active_downloads s2); (split; [exact Hlen|]).
  - left. split.
    + destruct s2. simpl in *. congruence.
    + rewrite <- Hp1, <- Hp2, <- Hd1, <- Hd2. exact Hnone.
  - right. exists e, rest, h, d'.
    rewrite <- Hp1, <- Hp2, <- Hd1, <- Hd2, <- Hc1, <- Hc2. auto.
Qed.
End PassFacts.

(* ===================================================================== *)
(** * The system: what each action does, and what all of them keep *)
(* ===================================================================== *)

Section Actions.
Import Py.

Lemma wpx_eq_inv {S A} (m : M S A) (Q : A -> S -> Prop) E (s s' : S)
      (a : A) :
  wpx m Q E s -> m s = Return a s' -> Q a s'.
Proof. unfold wpx. intros H Heq. now rewrite Heq in H. Qed.

Lemma run_app (l1 l2 : list System.action) (s : System.t) :
  System.run (l1 ++ l2) s = System.run l2 (System.run l1 s).
Proof. unfold System.run. apply fold_left_app. Qed.

Lemma wpx_state_of {S A} (m : M S A) (P : S -> Prop) (s : S) :
  wpx m (fun _ s' => P s') never s -> P (state_of (m s)).
Proof. unfold wpx. destruct (m s); [auto | contradiction]. Qed.

Lemma wpx_discard {S A} (m : M S A) (Q : unit -> S -> Prop) E (s : S) :
  wpx m (fun _ s' => Q tt s') E s -> wpx (System.discard m) Q E s.
Proof. intros Hm. unfold System.discard. apply wpx_bind. exact Hm. Qed.

Lemma wpx_and {S A} (m : M S A) (Q1 Q2 : A -> S -> Prop) (s : S) :
  wpx m Q1 never s -> wpx m Q2 never s ->
  wpx m (fun a s' => Q1 a s' /\ Q2 a s') never s.
Proof.
  unfold wpx. intros H1 H2. destruct m; [split; assumption | contradiction].
Qed.

(** A call into the pool leaves the fields of the queue manager alone. *)
Lemma wpx_pool_call {A} (m : M Downloader.t A) (P : Downloader.t -> Prop)
      (s : System.t) :
  wpx m (fun _ d' => P d') never (QueueManager.downloader s) ->
  wpx (QueueManager.on_downloader m)
      (fun _ s' =>
         P (QueueManager.downloader s')
         /\ QueueManager.pending_queue s' = QueueManager.pending_queue s
         /\ QueueManager.active_downloads s' = QueueManager.active_downloads s
         /\ QueueManager.qm_id_counter s' = QueueManager.qm_id_counter s)
      never s.
Proof.
  intros Hm. apply wpx_on_downloader.
  eapply wpx_mono; [| |exact Hm]; [|auto].
  intros a d' HP. simpl. auto.
Qed.

Lemma add_download_effect (now : Q) (url filepath : string) (priority : Z)
      (s : System.t) :
  wpx (QueueManager.add_download now url filepath priority)
      (fun _ s' =>
         System.queue_effect
           (System.add_download now url filepath priority) s s')
      never s.
Proof.
  unfold QueueManager.add_download, QueueManager._generate_qm_id, wpx.
  py_unfold. simpl. auto.
Qed.

Lemma remove_download_effect (qm_id : string) (s : System.t) :
  wpx (QueueManager.remove_download qm_id)
      (fun _ s' =>
         System.queue_effect (System.remove_download qm_id) s s'
         /\ (QueueManager.downloader s' = QueueManager.downloader s
             \/ exists h d',
                  Downloader.cancel_download h (QueueManager.downloader s)
                  = Return tt d'
                  /\ QueueManager.downloader s' = d'))
      never s.
Proof.
  unfold QueueManager.remove_download.
  apply wpx_bind, wpx_get, wpx_bind, wpx_modify, wpx_bind, wpx_get.
  destruct (negb _); [apply wpx_ret; simpl; auto|].
  destruct (QueueManager.find_active qm_id _) as [h|];
    [|apply wpx_ret; simpl; auto].
  apply wpx_bind, wpx_on_downloader. simpl.
  destruct (cancel_download_returns h (QueueManager.downloader s))
    as [d' Hd'].
  apply (wpx_of_eq _ _ _ _ _ _ Hd'). apply wpx_ret. simpl.
  split; [auto|]. right. eauto.
Qed.

End Actions.
Section PoolProperty.
Import Py.

(** A property of the pool that each call into it and each step of its
    threads keeps. *)
Variable P : Downloader.t -> Prop.
Hypothesis P_start : forall url filepath d,
  P d -> wpx (Downloader.start_download url filepath) (fun _ d' => P d') never d.
Hypothesis P_pause : forall h d,
  P d -> wpx (Downloader.pause_download h) (fun _ d' => P d') never d.
Hypothesis P_resume : forall h d,
  P d -> wpx (Downloader.resume_download h) (fun _ d' => P d') never d.
Hypothesis P_cancel : forall h d,
  P d -> wpx (Downloader.cancel_download h) (fun _ d' => P d') never d.
Hypothesis P_thread : forall h ev d,
  P d -> wpx (Downloader.thread_step h ev) (fun _ d' => P d') never d.

Lemma P_get_status (h : Downloader.handle) (d : Downloader.t) :
  P d -> wpx (Downloader.get_status h) (fun _ d' => P d') never d.
Proof.
  intros HP. destruct (get_status_unchanged d h) as [r Hr].
  now apply (wpx_of_eq _ _ _ _ _ _ Hr).
Qed.

Lemma exec_keeps (a : System.action) (s : System.t) :
  P (QueueManager.downloader s) ->
  wpx (System.exec a)
      (fun _ s' =>
         P (QueueManager.downloader s') /\ System.queue_effect a s s')
      never s.
Proof.
  intros HP. destruct a as [now url filepath priority|qm_id| |url filepath
                            |h|h|h|h|h ev]; simpl System.exec.
  - apply wpx_discard.
    eapply wpx_mono; [| |apply add_download_effect]; [|auto].
    intros u s' Heff. split; [|exact Heff].
    destruct Heff as (_ & _ & _ & Hd). rewrite Hd. exact HP.
  - apply wpx_discard.
    eapply wpx_mono; [| |apply remove_download_effect]; [|auto].
    intros u s' (Heff & [Hd|(h & d' & Hd' & Hd)]); (split; [|exact Heff]);
      rewrite Hd; [exact HP|].
    apply (wpx_eq_inv _ _ _ _ _ _ (P_cancel h _ HP) Hd').
  - eapply wpx_mono; [| |apply process_queue_once_spec]; [|auto].
    intros u s' Hpass. split; [|exact Hpass].
    destruct Hpass as (active1 & _ & [(-> & _)|(e & rest & h & d' & _ & _ & Hstart & ->)]);
      simpl; [exact HP|].
    apply (wpx_eq_inv _ _ _ _ _ _ (P_start _ _ _ HP) Hstart).
  - apply wpx_discard.
    eapply wpx_mono; [| |apply wpx_pool_call, P_start, HP]; [|auto].
    simpl. tauto.
  - apply wpx_discard.
    eapply wpx_mono; [| |apply wpx_pool_call, P_get_status, HP]; [|auto].
    simpl. tauto.
  - eapply wpx_mono; [| |apply wpx_pool_call, P_pause, HP]; [|auto].
    simpl. tauto.
  - eapply wpx_mono; [| |apply wpx_pool_call, P_resume, HP]; [|auto].
    simpl. tauto.
  - eapply wpx_mono; [| |apply wpx_pool_call, P_cancel, HP]; [|auto].
    simpl. tauto.
  - eapply wpx_mono; [| |apply wpx_pool_call, P_thread, HP]; [|auto].
    simpl. tauto.
Qed.

Lemma step_keeps (a : System.action) (s : System.t) :
  P (QueueManager.downloader s) ->
  P (QueueManager.downloader (System.step s a))
  /\ System.queue_effect a s (System.step s a).
Proof.
  intros HP. unfold System.step.
  apply (wpx_state_of (System.exec a)
           (fun s' => P (QueueManager.downloader s')
                      /\ System.queue_effect a s s')).
  apply exec_keeps, HP.
Qed.

(** No action raises. *)
Lemma exec_returns (a : System.action) (s : System.t) :
  P (QueueManager.downloader s) ->
  System.exec a s = Return tt (System.step s a).
Proof.
  intros HP. pose proof (exec_keeps a s HP) as Hwp.
  unfold System.step, wpx in *.
  destruct (System.exec a s) as [[] s'|]; [reflexivity | contradiction].
Qed.

Lemma run_keeps (actions : list System.action) (s : System.t) :
  P (QueueManager.downloader s) ->
  P (QueueManager.downloader (System.run actions s)).
Proof.
  revert s. induction actions as [|a actions IH]; intros s HP; simpl.
  - exact HP.
  - apply IH, step_keeps, HP.
Qed.

End PoolProperty.

(* ===================================================================== *)
(** * Errors of a transfer: recorded, not raised *)
(* ===================================================================== *)

Section RecordedNotRaised.
Import Py Downloader.

(** C7: an error raised by a blocking call of a transfer (preparing the
    destination, the transport, or anything else) ends in an [except]
    clause, and the step returns.  After it [get_status] shows the task
    ['failed'], with ['error'] the text of the exception after
    ["File/Directory error: "] when it is an [IOError], which every
    [OSError] and every exception of [requests] is, and after
    ["Unexpected error during download: "] otherwise; the other fields of
    the task and the other tasks are as before.  No step of a transfer
    thread lets an exception out, whatever its blocking call does; and
    no call into the queue manager or the pool ([add_download] and
    [start_download] among them), no pass of the loop and no thread step
    raises, from any state: a failure shows in the status only. *)
Theorem C7_errors_recorded_as_failed_never_raised :
  (forall (d : Downloader.t) (h : handle) (th : Thread) (task : Task)
          (e : exn),
      threads d !! h = Some th ->
      download_tasks d !! h = Some task ->
      at_blocking_call (th_pc th) = true ->
      exists d' task',
        thread_step h (ev_raise e) d = Return tt d'
        /\ get_status h d' = Return (Some (snapshot task')) d'
        /\ status task' = failed
        /\ error task'
           = Some (match class_of e with
                   | an_OSError | a_RequestException =>
                       "File/Directory error: " +:+ exn_str e
                   | another_Exception =>
                       "Unexpected error during download: " +:+ exn_str e
                   end)
        /\ (url task' = url task /\ filepath task' = filepath task
            /\ progress task' = progress task
            /\ bytes_downloaded task' = bytes_downloaded task
            /\ total_size task' = total_size task
            /\ speed task' = speed task)
        /\ (forall h', h' <> h ->
                       download_tasks d' !! h' = download_tasks d !! h'))
  /\ (forall (d : Downloader.t) (h : handle) (ev : event),
        exists d', thread_step h ev d = Return tt d')
  /\ (forall (s : System.t) (a : System.action),
        exists s', System.exec a s = Return tt s').
Proof.
  split; [|split].
  - intros d h th task e Hth Hh Hpc.
    destruct (wpx_returns _ _ _ (wpx_raise_in_try h th task e d Hth Hh Hpc))
      as ([] & d' & Hstep & Hd').
    exists d'.
    unfold is_IOError, io_error_message, unexpected_error_message in Hd'.
    destruct (class_of e); subst d'; eexists;
      (split; [exact Hstep|]);
      (split; [unfold get_status; py_unfold;
               cbn [download_tasks with_threads with_tasks];
               rewrite !lookup_alter_eq, Hh; reflexivity|]);
      (split; [reflexivity|]); (split; [reflexivity|]);
      (split; [repeat split|]);
      intros h' Hne; cbn [download_tasks with_threads with_tasks];
      now rewrite !lookup_alter_ne by congruence.
  - intros d h ev.
    destruct (wpx_returns _ _ _ (thread_step_returns h ev d))
      as ([] & d' & Hstep & _).
    eauto.
  - intros s a. exists (System.step s a).
    apply (exec_returns (fun _ => True)); try exact I.
    + intros source path d _. unfold start_download. wp_run. exact I.
    + intros h d _. unfold pause_download. wp_run; exact I.
    + intros h d _. unfold resume_download. wp_run; exact I.
    + intros h d _. unfold cancel_download. wp_run; exact I.
    + intros h ev d _. apply thread_step_returns.
Qed.

End RecordedNotRaised.

Lemma C7_errors_recorded_as_failed_never_raised_witness :
  let d := QueueManager.downloader (Scenario.both_chunks_received 100) in
  exists th task d' task',
    Downloader.threads d !! 0%nat = Some th
    /\ Downloader.download_tasks d !! 0%nat = Some task
    /\ Downloader.at_blocking_call (Downloader.th_pc th) = true
    /\ Downloader.thread_step 0%nat
         (Downloader.ev_raise Scenario.connection_error) d
       = Py.Return tt d'
    /\ Downloader.get_status 0%nat d'
       = Py.Return (Some (Downloader.snapshot task')) d'
    /\ Downloader.status task' = Downloader.failed
    /\ Downloader.error task'
       = Some "File/Directory error: Connection broken".
Proof.
  cbv zeta.
  assert (Hth : Downloader.threads
                  (QueueManager.downloader (Scenario.both_chunks_received 100))
                  !! 0%nat
                = Some (Downloader.mkThread "http://example.com/file.txt"
                          "file.txt" Downloader.at_next_chunk 12 100)).
  { vm_compute. reflexivity. }
  assert (Hh : Downloader.download_tasks
                 (QueueManager.downloader (Scenario.both_chunks_received 100))
                 !! 0%nat
               = Some (Downloader.mkTask "http://example.com/file.txt"
                         "file.txt" Downloader.downloading None
                         (Downloader.percentage 12 100) 12 100 (Some 0))).
  { vm_compute. reflexivity. }
  destruct (proj1 C7_errors_recorded_as_failed_never_raised
              _ 0%nat _ _ Scenario.connection_error Hth Hh eq_refl)
    as (d' & task' & Hstep & Hget & Hfailed & Herror & _).
  eexists _, _, d', task'. split; [exact Hth|]. split; [exact Hh|].
  split; [reflexivity|]. split; [exact Hstep|]. split; [exact Hget|].
  split; [exact Hfailed | exact Herror].
Defined.

Section WorkerCount.
Import Py Downloader.

Lemma start_download_num_workers (n : Z) (url filepath : string)
      (d : Downloader.t) :
  num_workers d = n ->
  wpx (start_download url filepath) (fun _ d' => num_workers d' = n) never d.
Proof. intros Hn. unfold start_download. wp_run. exact Hn. Qed.

Lemma pause_download_num_workers (n : Z) (h : handle) (d : Downloader.t) :
  num_workers d = n ->
  wpx (pause_download h) (fun _ d' => num_workers d' = n) never d.
Proof. intros Hn. unfold pause_download. wp_run; exact Hn. Qed.

Lemma resume_download_num_workers (n : Z) (h : handle) (d : Downloader.t) :
  num_workers d = n ->
  wpx (resume_download h) (fun _ d' => num_workers d' = n) never d.
Proof. intros Hn. unfold resume_download. wp_run; exact Hn. Qed.

Lemma cancel_download_num_workers (n : Z) (h : handle) (d : Downloader.t) :
  num_workers d = n ->
  wpx (cancel_download h) (fun _ d' => num_workers d' = n) never d.
Proof. intros Hn. unfold cancel_download. wp_run; exact Hn. Qed.

Lemma thread_step_num_workers (n : Z) (h : handle) (ev : event)
      (d : Downloader.t) :
  num_workers d = n ->
  wpx (thread_step h ev) (fun _ d' => num_workers d' = n) never d.
Proof. intros Hn. unfold thread_step, try_body. wp_run; exact Hn. Qed.

End WorkerCount.

(* ===================================================================== *)
(** * The active set stays within the worker count *)
(* ===================================================================== *)

Section Capacity.
Import Py.

Lemma step_within_capacity (n : Z) (a : System.action) (s : System.t) :
  System.within_capacity n s -> System.within_capacity n (System.step s a).
Proof.
  intros [Hn Hlen].
  destruct (step_keeps (fun d => Downloader.num_workers d = n)
              (start_download_num_workers n) (pause_download_num_workers n)
              (resume_download_num_workers n) (cancel_download_num_workers n)
              (thread_step_num_workers n) a s Hn) as [Hn' Heff].
  split; [exact Hn'|].
  destruct a; unfold System.queue_effect in Heff;
    try (destruct Heff as (_ & Hactive & _); rewrite Hactive; exact Hlen).
  unfold System.pass_result in Heff.
  destruct Heff
    as (active1 & Hle
        & [(Hs' & _)|(e & rest & h & d' & _ & Hlt & _ & Hs')]);
    rewrite Hs'; simpl.
  - lia.
  - pose proof (dict_set_length h
                  (QueueManager.set_status QueueManager.processing e) active1).
    lia.
Qed.

Lemma run_within_capacity (n : Z) (actions : list System.action)
      (s : System.t) :
  System.within_capacity n s -> System.within_capacity n (System.run actions s).
Proof.
  revert s. induction actions as [|a actions IH]; intros s Hs; simpl.
  - exact Hs.
  - apply IH, step_within_capacity, Hs.
Qed.

(** [get_queue_status] reports the size of the active set. *)
Lemma get_queue_status_count (s : System.t) :
  wpx QueueManager.get_queue_status
      (fun st _ =>
         QueueManager.active_tasks_count st
         = length (QueueManager.active_downloads s))
      never s.
Proof.
  unfold QueueManager.get_queue_status. apply wpx_bind, wpx_get, wpx_bind.
  eapply wpx_mono;
    [| |apply (wpx_for_each _ (fun _ _ => True) never)]; [| |  |exact I].
  - intros active s' _. apply wpx_ret. reflexivity.
  - auto.
  - intros acc [h e] s' _ _. apply wpx_bind. unfold QueueManager.merged.
    apply wpx_bind, wpx_get_status_here.
    intros [info|]; apply wpx_ret, wpx_ret; exact I.
Qed.

(** C4: started with a worker count [n >= 0], after any sequence of calls,
    passes of the loop and thread steps, the active set holds at most [n]
    entries, [n] being still the worker count of the pool; and this is the
    count [get_queue_status] reports. *)
Theorem C4_active_entries_within_capacity
        (n : Z) (actions : list System.action) :
  0 <= n ->
  let s := System.run actions (System.init n) in
  Downloader.num_workers (QueueManager.downloader s) = n
  /\ Z.of_nat (length (QueueManager.active_downloads s)) <= n
  /\ exists st s',
       QueueManager.get_queue_status s = Return st s'
       /\ Z.of_nat (QueueManager.active_tasks_count st) <= n.
Proof.
  intros Hn s.
  assert (Hs : System.within_capacity n s).
  { apply run_within_capacity. split; [reflexivity | simpl; lia]. }
  destruct Hs as [Hw Hlen]. split; [exact Hw|]. split; [exact Hlen|].
  destruct (wpx_returns _ _ _ (get_queue_status_count s))
    as (st & s' & Hst & Hcount).
  exists st, s'. split; [exact Hst|]. rewrite Hcount. exact Hlen.
Qed.

End Capacity.

Lemma C4_active_entries_within_capacity_witness :
  0 <= 2
  /\ Z.of_nat
       (length (QueueManager.active_downloads
                  (System.run (Scenario.add_three
                                 ++ [System.process_queue_once;
                                     System.process_queue_once;
                                     System.process_queue_once])
                              (System.init 2))))
     <= 2.
Proof.
  split; [lia|].
  exact (proj1 (proj2 (C4_active_entries_within_capacity 2 _ ltac:(lia)))).
Defined.

(* ===================================================================== *)
(** * Progress at every snapshot *)
(* ===================================================================== *)

Section Progress.
Import Py Downloader.

Lemma reachable_consistent (n : Z) (actions : list System.action) :
  consistent (QueueManager.downloader (System.run actions (System.init n))).
Proof.
  apply (run_keeps consistent start_download_consistent
           pause_download_consistent resume_download_consistent
           cancel_download_consistent thread_step_consistent).
  apply init_consistent.
Qed.

(** C6, as the code has it: in every reachable state, a snapshot of a
    task with a known total, the counts being below 2^53, shows a
    ['progress'] that is one of the three values the thread writes, for
    the byte count of the same snapshot: 0 with no byte (line 53),
    [(bytes_downloaded / total_size) * 100] computed in doubles, the
    quotient first (line 89), or 100 with all the bytes (line 99); and a
    ['completed'] task that has all its bytes shows exactly 100.  The
    value is not, in general, the double [100 * bytes_downloaded /
    total_size], and 100 is shown in other states than ['completed']. *)
Theorem C6_progress_at_every_snapshot
        (n : Z) (actions : list System.action) (h : handle)
        (snap : Snapshot) (d' : Downloader.t) :
  get_status h (QueueManager.downloader (System.run actions (System.init n)))
  = Return (Some snap) d' ->
  0 < snap_total_size snap ->
  exact_in_float (snap_bytes_downloaded snap) ->
  exact_in_float (snap_total_size snap) ->
  ((snap_progress snap = 0%float /\ snap_bytes_downloaded snap = 0)
   \/ snap_progress snap
      = (float_of_Z (snap_bytes_downloaded snap)
         / float_of_Z (snap_total_size snap) * 100)%float
   \/ (snap_progress snap = 100%float
       /\ snap_bytes_downloaded snap = snap_total_size snap))
  /\ (snap_status snap = completed ->
      snap_bytes_downloaded snap = snap_total_size snap ->
      snap_progress snap = 100%float).
Proof.
  intros Hget Hpos _ _.
  pose proof (reachable_consistent n actions) as Hd.
  unfold get_status in Hget. py_unfold.
  destruct (download_tasks _ !! h) as [task|] eqn:Hh; [|discriminate].
  injection Hget as <- _. simpl in *.
  destruct (Hd h task Hh) as [Hp _]. exact (Hp Hpos).
Qed.

End Progress.

(** C6 fails as stated, on both counts.  With 12 bytes of 36 published
    (line 89) the snapshot shows [(12 / 36) * 100], the double
    33.33333333333333 ([0x1.0aaaaaaaaaaaap+5]), which is not the double
    [100 * 12 / 36], 33.333333333333336 ([0x1.0aaaaaaaaaaabp+5]).  And once the last chunk of a 12-byte transfer is
    published the snapshot shows 100 with the status still
    ['downloading']; the status changes in the next locked block. *)
Lemma C6_counterexample :
  (let d := QueueManager.downloader (Scenario.both_chunks_received 36) in
   exists snap,
     Downloader.get_status 0%nat d = Py.Return (Some snap) d
     /\ Downloader.snap_bytes_downloaded snap = 12
     /\ Downloader.snap_total_size snap = 36
     /\ Downloader.snap_progress snap = 0x1.0aaaaaaaaaaaap+5%float
     /\ (100 * Downloader.float_of_Z 12 / Downloader.float_of_Z 36)%float
        = 0x1.0aaaaaaaaaaabp+5%float
     /\ PrimFloat.eqb (Downloader.snap_progress snap)
                      (100 * Downloader.float_of_Z 12
                       / Downloader.float_of_Z 36)%float
        = false)
  /\ (let d := QueueManager.downloader (Scenario.both_chunks_received 12) in
      exists snap,
        Downloader.get_status 0%nat d = Py.Return (Some snap) d
        /\ 0 < Downloader.snap_total_size snap
        /\ Downloader.snap_progress snap = 100%float
        /\ Downloader.snap_status snap = Downloader.downloading).
Proof.
  cbv zeta. split.
  - exists (Downloader.mkSnapshot Downloader.downloading None
              (Downloader.percentage 12 36) 12 36
              "file.txt" "http://example.com/file.txt").
    split; [vm_compute; reflexivity|].
    split; [reflexivity|]. split; [reflexivity|].
    split; [vm_compute; reflexivity|].
    split; vm_compute; reflexivity.
  - exists (Downloader.mkSnapshot Downloader.downloading None
              100%float 12 12
              "file.txt" "http://example.com/file.txt").
    split; [vm_compute; reflexivity|].
    split; [reflexivity|]. split; reflexivity.
Qed.

Lemma C6_progress_at_every_snapshot_witness :
  let d := QueueManager.downloader
             (System.run (Scenario.complete_transfer 12) (System.init 1)) in
  let snap := Downloader.mkSnapshot Downloader.completed None
                100%float 12 12
                "file.txt" "http://example.com/file.txt" in
  Downloader.get_status 0%nat d = Py.Return (Some snap) d
  /\ 0 < Downloader.snap_total_size snap
  /\ Downloader.exact_in_float (Downloader.snap_bytes_downloaded snap)
  /\ Downloader.exact_in_float (Downloader.snap_total_size snap)
  /\ Downloader.snap_progress snap = 100%float.
Proof.
  cbv zeta.
  assert (Hget : Downloader.get_status 0%nat
                   (QueueManager.downloader
                      (System.run (Scenario.complete_transfer 12)
                                  (System.init 1)))
                 = Py.Return
                     (Some (Downloader.mkSnapshot Downloader.completed None
                              100%float 12 12
                              "file.txt" "http://example.com/file.txt"))
                     (QueueManager.downloader
                        (System.run (Scenario.complete_transfer 12)
                                    (System.init 1)))).
  { vm_compute. reflexivity. }
  assert (Hexact : Downloader.exact_in_float 12).
  { split; [discriminate | reflexivity]. }
  split; [exact Hget|]. split; [reflexivity|].
  split; [exact Hexact|]. split; [exact Hexact|].
  exact (proj2 (C6_progress_at_every_snapshot 1 _ 0%nat _ _ Hget eq_refl
                  Hexact Hexact)
               eq_refl eq_refl).
Defined.

(* ===================================================================== *)
(** * Sorting the backlog *)
(* ===================================================================== *)

Section SortFacts.
Import Py.
Context {A : Type} (le : A -> A -> bool).
Hypothesis le_total : forall a b, le a b = false -> le b a = true.
Hypothesis le_trans :
  forall a b c, le a b = true -> le b c = true -> le a c = true.

Lemma insert_stable_Forall (P : A -> Prop) (x : A) (l : list A) :
  P x -> Forall P l -> Forall P (insert_stable le x l).
Proof.
  intros Hx Hl. induction Hl as [|y l Hy Hl IH]; simpl.
  - constructor; [exact Hx | constructor].
  - destruct (le x y); repeat constructor; assumption.
Qed.

Lemma insert_stable_sorted (x : A) (l : list A) :
  StronglySorted (fun a b => le a b = true) l -> StronglySorted (fun a b => le a b = true) (insert_stable le x l).
Proof.
  induction 1 as [|y l Hl IH Hy]; simpl.
  - repeat constructor.
  - destruct (le x y) eqn:Hxy.
    + constructor; [constructor; assumption|].
      constructor; [exact Hxy|].
      eapply Forall_impl; [exact Hy|]. intros z Hz. simpl in Hz.
      now apply (le_trans x y z).
    + constructor; [exact IH|].
      apply insert_stable_Forall; [|exact Hy]. now apply le_total.
Qed.

Lemma sort_sorted (l : list A) : StronglySorted (fun a b => le a b = true) (sort le l).
Proof.
  induction l as [|x l IH]; simpl; [constructor|].
  apply insert_stable_sorted, IH.
Qed.

Lemma insert_stable_head (x : A) (l : list A) :
  Forall (fun y => le x y = true) l -> insert_stable le x l = x :: l.
Proof.
  intros Hl. destruct Hl as [|y l Hy Hl]; simpl; [reflexivity|].
  now rewrite Hy.
Qed.

Lemma sort_of_sorted (l : list A) : StronglySorted (fun a b => le a b = true) l -> sort le l = l.
Proof.
  induction 1 as [|x l Hl IH Hx]; simpl; [reflexivity|].
  rewrite IH. apply insert_stable_head, Hx.
Qed.

Lemma place_after_Forall (P : A -> Prop) (x : A) (l : list A) :
  P x -> Forall P l -> Forall P (place_after le x l).
Proof.
  intros Hx Hl. induction Hl as [|y l Hy Hl IH]; simpl.
  - constructor; [exact Hx | constructor].
  - destruct (le y x); repeat constructor; assumption.
Qed.

(** Appending to a StronglySorted (fun a b => le a b = true) list and sorting again only places the new
    element. *)
Lemma sort_snoc (x : A) (l : list A) :
  StronglySorted (fun a b => le a b = true) l -> sort le (l ++ [x]) = place_after le x l.
Proof.
  induction 1 as [|y l Hl IH Hy]; simpl; [reflexivity|].
  rewrite IH. destruct (le y x) eqn:Hyx.
  - apply insert_stable_head, place_after_Forall; assumption.
  - assert (Hall : Forall (fun z => le z x = false) l).
    { eapply Forall_impl; [exact Hy|]. intros z Hyz. simpl in Hyz.
      destruct (le z x) eqn:Hzx; [|reflexivity].
      rewrite (le_trans y z x Hyz Hzx) in Hyx. discriminate. }
    destruct Hall as [|z l Hz Hall].
    + simpl. now rewrite Hyx.
    + cbn [place_after]. rewrite Hz. cbn [insert_stable]. rewrite Hyx.
      f_equal. change (insert_stable le y (z :: l) = y :: z :: l).
      apply insert_stable_head, Hy.
Qed.

End SortFacts.

(* ===================================================================== *)
(** * The order of the backlog *)
(* ===================================================================== *)

Section BacklogOrder.
Import Py QueueManager.

Lemma key_le_total (a b : Entry) : key_le a b = false -> key_le b a = true.
Proof.
  unfold key_le. intros H. apply orb_false_iff in H as [Hlt H].
  apply Z.ltb_ge in Hlt.
  destruct (Z.eqb_spec (priority a) (priority b)) as [Heq|Hne].
  - simpl in H. apply orb_true_iff. right.
    rewrite Heq, Z.eqb_refl. simpl. apply Qle_bool_iff.
    destruct (Qlt_le_dec (time_added b) (time_added a)) as [Hlt'|Hle].
    + now apply Qlt_le_weak.
    + apply Qle_bool_iff in Hle. congruence.
  - apply orb_true_iff. left. apply Z.ltb_lt. lia.
Qed.

Lemma key_le_priority (a b : Entry) :
  key_le a b = true -> priority a <= priority b.
Proof.
  unfold key_le. intros H. apply orb_true_iff in H as [H|H].
  - apply Z.ltb_lt in H. lia.
  - apply andb_true_iff in H as [H _]. apply Z.eqb_eq in H. lia.
Qed.

Lemma key_le_of_lt (a b : Entry) :
  priority a < priority b -> key_le a b = true.
Proof.
  intros H. unfold key_le. apply orb_true_iff. left. now apply Z.ltb_lt.
Qed.

Lemma key_le_same_priority (a b : Entry) :
  priority a = priority b ->
  (key_le a b = true <-> (time_added a <= time_added b)%Q).
Proof.
  intros Heq. unfold key_le. rewrite Heq, Z.ltb_irrefl, Z.eqb_refl. simpl.
  apply Qle_bool_iff.
Qed.

Lemma key_le_trans (a b c : Entry) :
  key_le a b = true -> key_le b c = true -> key_le a c = true.
Proof.
  intros Hab Hbc.
  pose proof (key_le_priority a b Hab) as Hp1.
  pose proof (key_le_priority b c Hbc) as Hp2.
  destruct (Z.eq_dec (priority a) (priority c)) as [Heq|Hne].
  - assert (Hab' : priority a = priority b) by lia.
    assert (Hbc' : priority b = priority c) by lia.
    apply (key_le_same_priority a c Heq).
    apply (key_le_same_priority a b Hab') in Hab.
    apply (key_le_same_priority b c Hbc') in Hbc.
    eapply Qle_trans; eassumption.
  - apply key_le_of_lt. lia.
Qed.

Lemma in_order_sorted (l : list Entry) :
  StronglySorted System.in_order l ->
  StronglySorted (fun a b => key_le a b = true) l.
Proof.
  induction 1 as [|x l Hl IH Hx]; constructor; [exact IH|].
  eapply Forall_impl; [exact Hx|]. now intros y [Hy _].
Qed.

Lemma StronglySorted_filter {A} (R : A -> A -> Prop) (f : A -> bool)
      (l : list A) :
  StronglySorted R l -> StronglySorted R (List.filter f l).
Proof.
  induction 1 as [|x l Hl IH Hx]; simpl; [constructor|].
  destruct (f x); [|exact IH]. constructor; [exact IH|].
  apply Forall_forall. intros y Hy. apply list_elem_of_In, filter_In in Hy.
  destruct Hy as [Hy _]. rewrite Forall_forall in Hx.
  apply Hx, list_elem_of_In, Hy.
Qed.

Lemma Forall_filter_keep {A} (P : A -> Prop) (f : A -> bool) (l : list A) :
  Forall P l -> Forall P (List.filter f l).
Proof.
  induction 1 as [|x l Hx Hl IH]; simpl; [constructor|].
  destruct (f x); [constructor|]; assumption.
Qed.

Lemma StronglySorted_lookup {A} (R : A -> A -> Prop) (l : list A)
      (i j : nat) (a b : A) :
  StronglySorted R l -> l !! i = Some a -> l !! j = Some b ->
  (i < j)%nat -> R a b.
Proof.
  intros Hl. revert i j. induction Hl as [|x l Hl IH Hx]; intros i j Hi Hj Hij.
  - discriminate.
  - destruct j as [|j]; [lia|]. simpl in Hj.
    destruct i as [|i]; simpl in Hi.
    + injection Hi as <-. rewrite Forall_forall in Hx.
      apply Hx. eapply list_elem_of_lookup_2, Hj.
    + apply (IH i j Hi Hj). lia.
Qed.

(** Where a new request lands: behind the requests of its priority. *)
Lemma place_after_ordered (counter : nat) (new : Entry) (l : list Entry) :
  qm_id new = System.qm_name (S counter) ->
  StronglySorted System.in_order l ->
  Forall (System.issued counter) l ->
  Forall (fun e => (time_added e <= time_added new)%Q) l ->
  StronglySorted System.in_order (place_after key_le new l).
Proof.
  intros Hid Hl Hissued Hbefore.
  induction Hl as [|y l Hl IH Hy]; simpl.
  - repeat constructor.
  - apply Forall_cons_1 in Hissued as [Hy_issued Hissued].
    apply Forall_cons_1 in Hbefore as [Hy_before Hbefore].
    destruct (key_le y new) eqn:Hyn.
    + constructor; [apply IH; assumption|].
      apply place_after_Forall; [|exact Hy].
      split; [exact Hyn|]. intros _.
      destruct Hy_issued as (k & Hk & Hle).
      exists k, (S counter). split; [exact Hk|]. split; [exact Hid | lia].
    + assert (Hlt : priority new < priority y).
      { pose proof (key_le_priority _ _ (key_le_total _ _ Hyn)) as Hp.
        destruct (Z.eq_dec (priority y) (priority new)) as [Heq|Hne]; [|lia].
        apply (key_le_same_priority y new Heq) in Hy_before. congruence. }
      constructor; [constructor; assumption|].
      constructor.
      * split; [now apply key_le_of_lt | lia].
      * eapply Forall_impl; [exact Hy|]. intros z [Hyz _].
        pose proof (key_le_priority _ _ Hyz) as Hp.
        split; [apply key_le_of_lt; lia | lia].
Qed.

Lemma step_queue_effect (a : System.action) (s : System.t) :
  System.queue_effect a s (System.step s a).
Proof.
  exact (proj2 (step_keeps
           (fun d => Downloader.num_workers d
                     = Downloader.num_workers (downloader s))
           (start_download_num_workers _) (pause_download_num_workers _)
           (resume_download_num_workers _) (cancel_download_num_workers _)
           (thread_step_num_workers _) a s eq_refl)).
Qed.

(** The backlog after a step is the backlog before it with the new
    request sorted in, or with requests taken out. *)
Lemma step_pending (a : System.action) (s : System.t) :
  match a with
  | System.add_download now url filepath priority =>
      pending_queue (System.step s a)
      = sort key_le
          (pending_queue s
             ++ [mkEntry (System.qm_name (S (qm_id_counter s)))
                         url filepath priority now queued])
      /\ qm_id_counter (System.step s a) = S (qm_id_counter s)
  | _ =>
      qm_id_counter (System.step s a) = qm_id_counter s
      /\ (pending_queue (System.step s a) = pending_queue s
          \/ (exists f, pending_queue (System.step s a)
                        = List.filter f (pending_queue s))
          \/ (exists e, pending_queue s
                        = e :: pending_queue (System.step s a)))
  end.
Proof.
  pose proof (step_queue_effect a s) as Heff.
  destruct a; unfold System.queue_effect in Heff;
    try (destruct Heff as (Hp & _ & Hc); split; [exact Hc | left; exact Hp]).
  - destruct Heff as (Hp & _ & Hc & _). auto.
  - destruct Heff as (Hp & _ & Hc). split; [exact Hc|]. right. left. eauto.
  - unfold System.pass_result in Heff.
    destruct Heff
      as (active1 & _
          & [(Hs' & _)|(e & rest & h & d' & Hpend & _ & _ & Hs')]);
      rewrite Hs'; simpl; (split; [reflexivity|]); [auto|].
    right. right. exists e. exact Hpend.
Qed.

Lemma step_sorted (a : System.action) (s : System.t) :
  StronglySorted (fun e1 e2 => key_le e1 e2 = true) (pending_queue s) ->
  StronglySorted (fun e1 e2 => key_le e1 e2 = true)
                 (pending_queue (System.step s a)).
Proof.
  intros Hs. pose proof (step_pending a s) as Hp.
  destruct a;
    try (destruct Hp as (_ & [->|[(f & ->)|(e & He)]]);
         [ exact Hs
         | apply StronglySorted_filter, Hs
         | rewrite He in Hs; now apply StronglySorted_inv in Hs ]).
  destruct Hp as [-> _]. apply sort_sorted; [apply key_le_total|].
  apply key_le_trans.
Qed.

Lemma run_sorted (actions : list System.action) (s : System.t) :
  StronglySorted (fun e1 e2 => key_le e1 e2 = true) (pending_queue s) ->
  StronglySorted (fun e1 e2 => key_le e1 e2 = true)
                 (pending_queue (System.run actions s)).
Proof.
  revert s. induction actions as [|a actions IH]; intros s Hs; simpl.
  - exact Hs.
  - apply IH, step_sorted, Hs.
Qed.

Lemma issued_mono (c c' : nat) (e : Entry) :
  (c <= c')%nat -> System.issued c e -> System.issued c' e.
Proof. intros Hle (k & Hk & Hkc). exists k. split; [exact Hk | lia]. Qed.

Lemma backlog_ordered_shrink (ts : list Q) (s s' : System.t) :
  qm_id_counter s' = qm_id_counter s ->
  pending_queue s' = pending_queue s
  \/ (exists f, pending_queue s' = List.filter f (pending_queue s))
  \/ (exists e, pending_queue s = e :: pending_queue s') ->
  System.backlog_ordered ts s -> System.backlog_ordered ts s'.
Proof.
  unfold System.backlog_ordered.
  intros -> [->|[(f & ->)|(e & ->)]] (Hsorted & Hissued & Hbefore).
  - auto.
  - split; [now apply StronglySorted_filter|].
    split; now apply Forall_filter_keep.
  - apply StronglySorted_inv in Hsorted as [Hsorted _].
    apply Forall_cons_1 in Hissued as [_ Hissued].
    apply Forall_cons_1 in Hbefore as [_ Hbefore]. auto.
Qed.

Lemma step_backlog_ordered (a : System.action) (ts : list Q)
      (s : System.t) :
  Sorted Qle (System.timestamps [a] ++ ts) ->
  System.backlog_ordered (System.timestamps [a] ++ ts) s ->
  System.backlog_ordered ts (System.step s a).
Proof.
  intros Hclock Hs.
  pose proof (step_pending a s) as Hp.
  destruct a as [now url filepath priority| | | | | | | |];
    try (destruct Hp as [Hc Hp];
         exact (backlog_ordered_shrink _ _ _ Hc Hp Hs)).
  destruct Hs as (Hsorted & Hissued & Hbefore).
  destruct Hp as [Hpending Hc]. simpl in Hclock, Hbefore.
  unfold System.backlog_ordered. rewrite Hpending, Hc.
  rewrite (sort_snoc key_le key_le_trans _ _
             (in_order_sorted _ Hsorted)).
  split; [|split].
  - apply (place_after_ordered (qm_id_counter s)); auto.
  - apply place_after_Forall.
    + exists (S (qm_id_counter s)). split; [reflexivity | lia].
    + eapply Forall_impl; [exact Hissued|].
      intros e. apply issued_mono. lia.
  - assert (Hnext : System.before_next ts
                      (mkEntry (System.qm_name (S (qm_id_counter s)))
                               url filepath priority now queued)).
    { destruct ts as [|t ts]; [exact I|]. simpl.
      apply Sorted_inv in Hclock as [_ Hhd]. now apply HdRel_inv in Hhd. }
    apply place_after_Forall; [exact Hnext|].
    eapply Forall_impl; [exact Hbefore|].
    intros e He. destruct ts as [|t ts]; [exact I|]. simpl in *.
    eapply Qle_trans; [exact He | exact Hnext].
Qed.

Lemma timestamps_cons (a : System.action) (actions : list System.action) :
  System.timestamps (a :: actions)
  = System.timestamps [a] ++ System.timestamps actions.
Proof. destruct a; reflexivity. Qed.

Lemma Sorted_app_r {A} (R : A -> A -> Prop) (l1 l2 : list A) :
  Sorted R (l1 ++ l2) -> Sorted R l2.
Proof.
  induction l1 as [|x l1 IH]; simpl; [auto|].
  intros H. apply Sorted_inv in H as [H _]. now apply IH.
Qed.

Lemma run_backlog_ordered (actions : list System.action) (s : System.t) :
  Sorted Qle (System.timestamps actions) ->
  System.backlog_ordered (System.timestamps actions) s ->
  System.backlog_ordered [] (System.run actions s).
Proof.
  revert s. induction actions as [|a actions IH]; intros s Hclock Hs.
  - exact Hs.
  - rewrite timestamps_cons in Hclock, Hs. simpl System.run.
    apply IH; [now apply Sorted_app_r in Hclock|].
    now apply step_backlog_ordered.
Qed.

Lemma qm_name_inj (k1 k2 : nat) :
  System.qm_name k1 = System.qm_name k2 -> k1 = k2.
Proof.
  unfold System.qm_name. intros H. apply String.app_inj in H.
  now apply pretty_nat_inj in H.
Qed.

Lemma dict_get_set {K V} `{EqDecision K} (k : K) (v : V) (d : dict K V) :
  dict_get k (dict_set k v d) = Some v.
Proof.
  induction d as [|[k' v'] d IH]; simpl.
  - now rewrite decide_True.
  - destruct (decide (k' = k)) as [Heq|Hne]; simpl.
    + now rewrite decide_True.
    + now rewrite decide_False.
Qed.

Lemma ordered_positions (s : System.t) (i j k1 k2 : nat) (e1 e2 : Entry) :
  StronglySorted System.in_order (pending_queue s) ->
  pending_queue s !! i = Some e1 -> pending_queue s !! j = Some e2 ->
  priority e1 = priority e2 ->
  qm_id e1 = System.qm_name k1 -> qm_id e2 = System.qm_name k2 ->
  (i < j)%nat -> (k1 < k2)%nat.
Proof.
  intros Hsorted Hi Hj Hprio Hk1 Hk2 Hij.
  destruct (StronglySorted_lookup _ _ i j e1 e2 Hsorted Hi Hj Hij)
    as [_ Harr].
  destruct (Harr Hprio) as (k1' & k2' & Hk1' & Hk2' & Hlt).
  rewrite Hk1 in Hk1'. rewrite Hk2 in Hk2'.
  apply qm_name_inj in Hk1', Hk2'. lia.
Qed.

(** C5, as the code has it: in every reachable state the backlog is
    sorted by (priority, time added); a pass of the loop that promotes an
    entry promotes the head of the backlog, which no queued entry
    precedes in that order; when the clock readings of the
    [add_download] calls never decrease, two queued entries of equal
    priority stand in the order of their arrival, so that the one added
    first is promoted first; and requests added with priorities 2, 0, 1
    are promoted in the order 0, 1, 2.  The order of arrival is kept
    through [time.time()] only (line 33): without the proviso on the
    clock it can be lost. *)
Theorem C5_backlog_sorted_least_first_fifo
        (n : Z) (actions : list System.action) :
  let s := System.run actions (System.init n) in
  StronglySorted (fun e1 e2 => key_le e1 e2 = true) (pending_queue s)
  /\ (forall e rest,
        pending_queue s = e :: rest ->
        Forall (fun e' => key_le e e' = true) rest
        /\ (pending_queue (System.step s System.process_queue_once)
            = e :: rest
            \/ (pending_queue (System.step s System.process_queue_once)
                = rest
                /\ exists h,
                     dict_get h
                       (active_downloads
                          (System.step s System.process_queue_once))
                     = Some (set_status processing e))))
  /\ (System.clock_monotone actions ->
      forall i j k1 k2 e1 e2,
        pending_queue s !! i = Some e1 ->
        pending_queue s !! j = Some e2 ->
        priority e1 = priority e2 ->
        qm_id e1 = System.qm_name k1 ->
        qm_id e2 = System.qm_name k2 ->
        ((k1 < k2)%nat <-> (i < j)%nat))
  /\ map (fun p => priority (snd p))
         (active_downloads
            (System.run (Scenario.add_2_0_1
                           ++ [System.process_queue_once;
                               System.process_queue_once;
                               System.process_queue_once])
                        (System.init 3)))
     = [0; 1; 2].
Proof.
  intros s.
  assert (Hsorted : StronglySorted (fun e1 e2 => key_le e1 e2 = true)
                                   (pending_queue s)).
  { apply run_sorted. constructor. }
  split; [exact Hsorted|]. split; [|split].
  - intros e rest Hpending. rewrite Hpending in Hsorted.
    apply StronglySorted_inv in Hsorted as [_ Hhead].
    split; [exact Hhead|].
    pose proof (step_queue_effect System.process_queue_once s) as Hpass.
    unfold System.queue_effect, System.pass_result in Hpass.
    destruct Hpass
      as (active1 & _
          & [(Hs' & _)|(e0 & rest0 & h & d' & Hpend & _ & _ & Hs')]);
      rewrite Hs'; simpl.
    + left. exact Hpending.
    + right. rewrite Hpending in Hpend. injection Hpend as <- <-.
      split; [reflexivity|]. exists h. apply dict_get_set.
  - intros Hclock i j k1 k2 e1 e2 Hi Hj Hprio Hk1 Hk2.
    assert (Hordered : System.backlog_ordered [] s).
    { apply run_backlog_ordered; [exact Hclock|].
      split; [constructor|]. split; constructor. }
    destruct Hordered as [Hs _].
    split.
    + intros Hlt.
      destruct (Nat.lt_trichotomy i j) as [Hij|[Hij|Hij]]; [exact Hij| |].
      * subst j. rewrite Hi in Hj. injection Hj as <-.
        rewrite Hk1 in Hk2. apply qm_name_inj in Hk2. lia.
      * pose proof (ordered_positions s j i k2 k1 e2 e1 Hs Hj Hi
                      (eq_sym Hprio) Hk2 Hk1 Hij). lia.
    + apply (ordered_positions s i j k1 k2 e1 e2 Hs Hi Hj Hprio Hk1 Hk2).
  - vm_compute. reflexivity.
Qed.

End BacklogOrder.

(** C5 fails as stated: two requests of equal priority, the clock set
    back between the two calls (readings 5, then 3).  The sort of line 38
    puts the second request first, and the next pass promotes it, with
    the first still queued. *)
Lemma C5_counterexample :
  let s := System.run Scenario.add_with_clock_set_back (System.init 1) in
  let s' := System.step s System.process_queue_once in
  map QueueManager.priority (QueueManager.pending_queue s) = [0; 0]
  /\ System.queued_ids s = ["qm_2"; "qm_1"]
  /\ System.active_ids s' = ["qm_2"]
  /\ System.queued_ids s' = ["qm_1"].
Proof. vm_compute. repeat split. Qed.

Lemma C5_backlog_sorted_least_first_fifo_witness :
  System.clock_monotone Scenario.add_three
  /\ QueueManager.pending_queue Scenario.three_queued !! 0%nat
     = Some (QueueManager.mkEntry "qm_1" "http://x/a" "a.bin" 0 1
                                  QueueManager.queued)
  /\ QueueManager.pending_queue Scenario.three_queued !! 1%nat
     = Some (QueueManager.mkEntry "qm_2" "http://x/b" "b.bin" 0 2
                                  QueueManager.queued)
  /\ ((1 < 2)%nat <-> (0 < 1)%nat).
Proof.
  assert (Hclock : System.clock_monotone Scenario.add_three).
  { unfold System.clock_monotone. simpl.
    repeat constructor; unfold Qle; simpl; lia. }
  split; [exact Hclock|].
  split; [vm_compute; reflexivity|]. split; [vm_compute; reflexivity|].
  refine (proj1 (proj2 (proj2
            (C5_backlog_sorted_least_first_fifo 2 Scenario.add_three)))
            Hclock 0%nat 1%nat 1%nat 2%nat
            (QueueManager.mkEntry "qm_1" "http://x/a" "a.bin" 0 1
                                  QueueManager.queued)
            (QueueManager.mkEntry "qm_2" "http://x/b" "b.bin" 0 2
                                  QueueManager.queued)
            _ _ _ _ _);
    vm_compute; reflexivity.
Defined.

(* ===================================================================== *)
(** * Destination naming: what [suggest_filepath] can return *)
(* ===================================================================== *)

Section SplitFacts.
Import Py.

Lemma splitext_app (s name ext : str) :
  splitext s = (name, ext) -> name ++ ext = s.
Proof.
  unfold splitext. destruct (rfind "."%char s) as [i|].
  - destruct (forallb _ _); intros [= <- <-];
      [apply app_nil_r | apply take_drop].
  - intros [= <- <-]. apply app_nil_r.
Qed.

Lemma slice_to_Forall {A} (P : A -> Prop) (k : Z) (s : list A) :
  Forall P s -> Forall P (slice_to k s).
Proof. intros Hs. unfold slice_to. destruct (0 <=? k); now apply Forall_take. Qed.

Lemma slice_to_length {A} (k : Z) (s : list A) :
  0 <= k -> Z.of_nat (length (slice_to k s)) <= k.
Proof.
  intros Hk. unfold slice_to. destruct (Z.leb_spec 0 k); [|lia].
  rewrite length_take. lia.
Qed.

Lemma existsb_eqb_false (c : ascii) (s : str) :
  ~ In c s -> existsb (Ascii.eqb c) s = false.
Proof.
  induction s as [|c' s IH]; simpl; intros Hn; [reflexivity|].
  rewrite IH by tauto. destruct (Ascii.eqb_spec c c'); [|reflexivity].
  exfalso. apply Hn. auto.
Qed.

Lemma split_first_none (sep : ascii) (s : str) :
  ~ In sep s -> split_first sep s = s.
Proof.
  induction s as [|c s IH]; simpl; intros Hn; [reflexivity|].
  destruct (Ascii.eqb_spec c sep) as [->|_]; [exfalso; apply Hn; auto|].
  f_equal. apply IH. tauto.
Qed.

Lemma split_first_app (sep : ascii) (a b : str) :
  ~ In sep a -> split_first sep (a ++ sep :: b) = a.
Proof.
  induction a as [|c a IH]; simpl; intros Hn.
  - now rewrite Ascii.eqb_refl.
  - destruct (Ascii.eqb_spec c sep) as [->|_]; [exfalso; apply Hn; auto|].
    f_equal. apply IH. tauto.
Qed.

Lemma existsb_eqb_app (sep : ascii) (a b : str) :
  existsb (Ascii.eqb sep) (a ++ sep :: b) = true.
Proof.
  rewrite existsb_app. simpl. rewrite Ascii.eqb_refl.
  now rewrite orb_true_r.
Qed.

Lemma split_last_app (sep : ascii) (a b : str) :
  ~ In sep b -> split_last sep (a ++ sep :: b) = b.
Proof.
  intros Hn. induction a as [|c a IH]; simpl.
  - rewrite (existsb_eqb_false _ _ Hn). now rewrite Ascii.eqb_refl.
  - now rewrite existsb_eqb_app.
Qed.

Lemma split_last_no_sep (sep : ascii) (s : str) :
  ~ In sep (split_last sep s).
Proof.
  induction s as [|c s IH]; simpl; [tauto|].
  destruct (existsb (Ascii.eqb sep) s) eqn:Hs; [exact IH|].
  assert (Hns : ~ In sep s).
  { intros Hin. assert (existsb (Ascii.eqb sep) s = true); [|congruence].
    apply existsb_exists. exists sep. split; [exact Hin|].
    apply Ascii.eqb_refl. }
  destruct (Ascii.eqb_spec c sep) as [->|Hne]; [exact Hns|].
  intros [Heq|Hin]; [congruence | tauto].
Qed.
End SplitFacts.

Section NamingSafety.
Import Py StorageOptimizer.
Variable isalnum : ascii -> bool.
Variable isspace : ascii -> bool.
Hypothesis isalnum_on_ascii :
  forall c, (nat_of_ascii c < 128)%nat -> isalnum c = isalnum_ascii c.

(** What [truncate] returns: a prefix of the name part, then the whole
    extension. *)
Lemma truncate_shape (s : str) :
  exists name ext kept rest,
    splitext s = (name, ext) /\ name = kept ++ rest
    /\ truncate s = kept ++ ext
    /\ ((max_len <? Z.of_nat (length s)) = true ->
        kept = slice_to (max_len - Z.of_nat (length ext) - 1) name).
Proof.
  unfold truncate. destruct (splitext s) as [name ext] eqn:Hsplit.
  destruct (max_len <? Z.of_nat (length s)) eqn:Hlong.
  - exists name, ext.
    assert (Hpre : exists n,
               (slice_to (max_len - Z.of_nat (length ext) - 1) name
                = take n name)).
    { unfold slice_to. destruct (0 <=? _); eauto. }
    destruct Hpre as [n Hn].
    exists (slice_to (max_len - Z.of_nat (length ext) - 1) name),
           (drop n name).
    split; [reflexivity|]. split; [|split; [reflexivity | auto]].
    rewrite Hn. symmetry. apply take_drop.
  - exists name, ext, name, []. split; [reflexivity|].
    split; [now rewrite app_nil_r|].
    split; [symmetry; now apply splitext_app | discriminate].
Qed.

(** X1: whatever the URL and the filename given, the name
    [suggest_filepath] composes is not empty and holds only characters
    that are alphanumeric or one of [.], [_], [-]; in particular it holds
    no [/]. *)
Theorem X1_suggested_name_is_safe (url : str) (filename : option str) :
  let name := suggest_filename isalnum isspace url filename in
  name <> []
  /\ Forall (fun c => allowed isalnum c = true) name
  /\ ~ In "/"%char name.
Proof.
  intros name.
  assert (Hname : name <> []
                  /\ Forall (fun c => allowed isalnum c = true) name).
  { unfold name, suggest_filename, sanitize_and_truncate.
    destruct (sanitize_is_clean isalnum isalnum_on_ascii
                (given_or_derived isspace url filename))
      as (Hall & _ & Hne).
    set (s := sanitize isalnum (given_or_derived isspace url filename)) in *.
    destruct (truncate_shape s)
      as (nm & ext & kept & rest & Hsplit & Hnm & Htr & Hkept).
    pose proof (splitext_app _ _ _ Hsplit) as Happ.
    rewrite Htr. split.
    - destruct ext as [|c ext];
        [|intros Heq; destruct kept; discriminate Heq].
      rewrite app_nil_r in *. subst nm.
      destruct (max_len <? Z.of_nat (length s)) eqn:Hlong.
      + rewrite (Hkept eq_refl). apply Z.ltb_lt in Hlong.
        unfold max_len in *. intros Heq.
        apply (f_equal (@length ascii)) in Heq.
        unfold slice_to in Heq. simpl in Heq.
        rewrite length_take, Happ in Heq. lia.
      + unfold truncate in Htr. rewrite Hlong in Htr.
        rewrite <- Htr. exact Hne.
    - rewrite <- Happ, Hnm in Hall.
      apply Forall_app in Hall as [Hk Hext].
      apply Forall_app in Hk as [Hk _].
      apply Forall_app. auto. }
  destruct Hname as [Hne Hall]. split; [exact Hne|]. split; [exact Hall|].
  intros Hin. rewrite Forall_forall in Hall.
  apply list_elem_of_In, Hall in Hin.
  unfold allowed in Hin. rewrite isalnum_on_ascii in Hin by (vm_compute; lia).
  discriminate Hin.
Qed.

End NamingSafety.

Section NamingBounds.
Import Py StorageOptimizer.

(** X2: when the extension [os.path.splitext] finds is shorter than 200
    characters, the name after lines 96-101 has at most 200 characters;
    it is always a prefix of the name part followed by the whole
    extension. *)
Theorem X2_truncated_name_is_bounded (s name ext : str) :
  splitext s = (name, ext) ->
  Z.of_nat (length ext) < max_len ->
  Z.of_nat (length (truncate s)) <= max_len
  /\ exists kept rest, name = kept ++ rest /\ truncate s = kept ++ ext.
Proof.
  intros Hsplit Hext.
  destruct (truncate_shape s)
    as (nm & ext' & kept & rest & Hsplit' & Hnm & Htr & Hkept).
  rewrite Hsplit in Hsplit'. injection Hsplit' as <- <-.
  split; [|eauto].
  destruct (max_len <? Z.of_nat (length s)) eqn:Hlong.
  - rewrite Htr, (Hkept eq_refl), length_app.
    pose proof (slice_to_length (max_len - Z.of_nat (length ext) - 1) name
                  ltac:(lia)).
    lia.
  - unfold truncate. rewrite Hlong. apply Z.ltb_ge in Hlong. exact Hlong.
Qed.

(** X3: from a URL whose last path segment is followed by nothing or by a
    query, the name derived is that segment, provided the segment is not
    empty, does not end with a dot and has no blank at either end. *)
Theorem X3_name_is_last_path_segment
        (isspace : ascii -> bool) (base segment query : str)
        (with_query : bool) :
  ~ In "?"%char base ->
  ~ In "?"%char segment ->
  ~ In "/"%char segment ->
  segment <> [] ->
  endswith "."%char segment = false ->
  strip isspace segment = segment ->
  filename_from_url isspace
    (base ++ "/"%char :: segment
          ++ (if with_query then "?"%char :: query else []))
  = segment.
Proof.
  intros Hbase Hq Hslash Hne Hdot Hstrip. unfold filename_from_url.
  assert (Hfirst : split_first "?"%char
            (base ++ "/"%char :: segment
                  ++ (if with_query then "?"%char :: query else []))
          = base ++ "/"%char :: segment).
  { destruct with_query.
    - change (base ++ "/"%char :: segment ++ "?"%char :: query)
        with (base ++ ("/"%char :: segment) ++ "?"%char :: query).
      rewrite app_assoc. apply split_first_app.
      intros Hin. apply in_app_or in Hin as [Hin|[Heq|Hin]];
        [tauto | discriminate | tauto].
    - rewrite app_nil_r. apply split_first_none.
      intros Hin. apply in_app_or in Hin as [Hin|[Heq|Hin]];
        [tauto | discriminate | tauto]. }
  rewrite Hfirst, (split_last_app _ _ _ Hslash).
  destruct segment as [|c seg]; [contradiction|].
  rewrite Hdot, Hstrip. reflexivity.
Qed.

End NamingBounds.

Lemma X1_suggested_name_is_safe_witness :
  let name :=
    StorageOptimizer.suggest_filename Py.isalnum_ascii Py.isspace_ascii
      (list_ascii_of_string "http://example.com/../../../../../etc/passwd")
      None in
  name = list_ascii_of_string "passwd" /\ ~ In "/"%char name.
Proof.
  cbv zeta. split; [vm_compute; reflexivity|].
  apply (X1_suggested_name_is_safe Py.isalnum_ascii Py.isspace_ascii).
  intros c _. reflexivity.
Defined.

Lemma X2_truncated_name_is_bounded_witness :
  let s := list_ascii_of_string "verylongfilename"
             ++ repeat "a"%char 250 ++ list_ascii_of_string ".txt" in
  Py.splitext s
  = (list_ascii_of_string "verylongfilename" ++ repeat "a"%char 250,
     list_ascii_of_string ".txt")
  /\ Z.of_nat (length (StorageOptimizer.truncate s))
     <= StorageOptimizer.max_len.
Proof.
  cbv zeta.
  assert (Hsplit : Py.splitext
            (list_ascii_of_string "verylongfilename"
               ++ repeat "a"%char 250 ++ list_ascii_of_string ".txt")
          = (list_ascii_of_string "verylongfilename" ++ repeat "a"%char 250,
             list_ascii_of_string ".txt")).
  { vm_compute. reflexivity. }
  split; [exact Hsplit|].
  apply (X2_truncated_name_is_bounded _ _ _ Hsplit). vm_compute. reflexivity.
Defined.

Lemma X3_name_is_last_path_segment_witness :
  StorageOptimizer.filename_from_url Py.isspace_ascii
    (list_ascii_of_string
       "http://example.com/path/to/file.with.dots.tar.gz?query=param&another=val")
  = list_ascii_of_string "file.with.dots.tar.gz".
Proof.
  apply (X3_name_is_last_path_segment Py.isspace_ascii
           (list_ascii_of_string "http://example.com/path/to")
           (list_ascii_of_string "file.with.dots.tar.gz")
           (list_ascii_of_string "query=param&another=val") true);
    try (vm_compute; intuition discriminate); vm_compute; reflexivity.
Defined.


(* ===================================================================== *)
(** * Cancellation at the checkpoints of a transfer *)
(* ===================================================================== *)

Section CancelSeen.
Import Py Downloader.





End CancelSeen.


(* ===================================================================== *)
(** * Invariants of the pool along any run *)
(* ===================================================================== *)

Section IdsDrawn.
Import Py Downloader.

Lemma ids_drawn_init (n : Z) : ids_drawn (Downloader.init n).
Proof. split; intros h x Hx; simpl in Hx; rewrite lookup_empty in Hx; discriminate. Qed.

Lemma ids_drawn_tasks_alter (f : Task -> Task) (h : handle) (d : Downloader.t) :
  ids_drawn d -> ids_drawn (with_tasks (alter f h) d).
Proof.
  intros [Ht Hth]. split; [|exact Hth].
  intros h' task' Hl. unfold with_tasks in Hl. cbn [download_tasks] in Hl. destruct (decide (h' = h)) as [->|Hne].
  - rewrite lookup_alter_eq in Hl.
    apply fmap_Some in Hl as (task & Hh & _).
    exact (Ht h task Hh).
  - rewrite lookup_alter_ne in Hl by congruence. exact (Ht h' task' Hl).
Qed.

Lemma ids_drawn_threads_alter (f : Thread -> Thread) (h : handle)
      (d : Downloader.t) :
  ids_drawn d -> ids_drawn (with_threads (alter f h) d).
Proof.
  intros [Ht Hth]. split; [exact Ht|].
  intros h' th' Hl. unfold with_threads in Hl. cbn [threads] in Hl. destruct (decide (h' = h)) as [->|Hne].
  - rewrite lookup_alter_eq in Hl.
    apply fmap_Some in Hl as (th & Hh & _).
    exact (Hth h th Hh).
  - rewrite lookup_alter_ne in Hl by congruence. exact (Hth h' th' Hl).
Qed.

Lemma ids_drawn_files f (d : Downloader.t) :
  ids_drawn d -> ids_drawn (with_files f d).
Proof. intros H. exact H. Qed.

End IdsDrawn.

Ltac ids_drawn_leaf H :=
  repeat first [ apply ids_drawn_threads_alter
               | apply ids_drawn_tasks_alter
               | apply ids_drawn_files ];
  exact H.

Section IdsDrawn2.
Import Py Downloader.

Lemma thread_step_ids_drawn (h : handle) (ev : event) (d : Downloader.t) :
  ids_drawn d -> wpx (thread_step h ev) (fun _ d' => ids_drawn d') never d.
Proof.
  intros Hd. unfold thread_step, try_body. wp_run; ids_drawn_leaf Hd.
Qed.

Lemma pause_download_ids_drawn (h : handle) (d : Downloader.t) :
  ids_drawn d -> wpx (pause_download h) (fun _ d' => ids_drawn d') never d.
Proof. intros Hd. unfold pause_download. wp_run; ids_drawn_leaf Hd. Qed.

Lemma resume_download_ids_drawn (h : handle) (d : Downloader.t) :
  ids_drawn d -> wpx (resume_download h) (fun _ d' => ids_drawn d') never d.
Proof. intros Hd. unfold resume_download. wp_run; ids_drawn_leaf Hd. Qed.

Lemma cancel_download_ids_drawn (h : handle) (d : Downloader.t) :
  ids_drawn d -> wpx (cancel_download h) (fun _ d' => ids_drawn d') never d.
Proof. intros Hd. unfold cancel_download. wp_run; ids_drawn_leaf Hd. Qed.

(** What [start_download] leaves: one more id drawn, its task and its
    thread filed under it, everything else as it was. *)
Lemma start_download_eq (source path : string) (d : Downloader.t) :
  start_download source path d
  = Return (uuid_drawn d)
      (Downloader.mk (num_workers d)
         (alter (set_status downloading) (uuid_drawn d)
            (<[uuid_drawn d := mkTask source path pending None 0%float 0 0 None]>
               (download_tasks d)))
         (<[uuid_drawn d := mkThread source path at_entry 0 0]> (threads d))
         (S (uuid_drawn d)) (files d)).
Proof. reflexivity. Qed.

Lemma start_download_ids_drawn (source path : string) (d : Downloader.t) :
  ids_drawn d ->
  wpx (start_download source path) (fun _ d' => ids_drawn d') never d.
Proof.
  intros [Ht Hth]. eapply wpx_of_eq; [apply start_download_eq|].
  split; cbn [download_tasks threads uuid_drawn].
  - intros h task Hl. destruct (decide (h = uuid_drawn d)) as [->|Hne]; [lia|].
    rewrite lookup_alter_ne, lookup_insert_ne in Hl by congruence.
    specialize (Ht h task Hl). lia.
  - intros h th Hl. destruct (decide (h = uuid_drawn d)) as [->|Hne]; [lia|].
    rewrite lookup_insert_ne in Hl by congruence.
    specialize (Hth h th Hl). lia.
Qed.

End IdsDrawn2.

(** The cases left by symbolic execution of a step of [h'], for a
    property of the task and the thread of [h]. *)
Ltac same_record :=
  repeat match goal with
         | H1 : Downloader.download_tasks ?d !! ?h = Some ?t1,
           H2 : Downloader.download_tasks ?d !! ?h = Some ?t2 |- _ =>
             assert (t2 = t1) by congruence; subst t2; clear H2
         | H1 : Downloader.threads ?d !! ?h = Some ?t1,
           H2 : Downloader.threads ?d !! ?h = Some ?t2 |- _ =>
             assert (t2 = t1) by congruence; subst t2; clear H2
         end.

Ltac pool_lookups :=
  unfold Downloader.with_threads, Downloader.with_tasks,
    Downloader.with_files;
  cbn [Downloader.download_tasks Downloader.threads].

Ltac stalled_leaf Hs h h' :=
  let task := fresh "task" in
  let th := fresh "th" in
  let Hl := fresh "Hl" in
  let Hlt := fresh "Hlt" in
  let Hpc := fresh "Hpc" in
  let Hnd := fresh "Hnd" in
  let Hnc := fresh "Hnc" in
  destruct Hs as (task & th & Hl & Hlt & Hpc & Hnd & Hnc);
  destruct (decide (h = h')) as [?|?];
  [ subst;
    first
      [ match goal with
        | H : Downloader.download_tasks _ !! _ = None |- _ => congruence
        end
      | same_record;
        unfold Downloader.stalled; pool_lookups;
        rewrite ?lookup_alter_eq, ?Hl, ?Hlt;
        cbn [fmap option_fmap option_map];
        eexists _, _; split; [reflexivity|split; [reflexivity|]]; cbn;
        repeat split; congruence ]
  | exists task, th; pool_lookups;
    rewrite ?lookup_alter_ne by congruence; auto ].

Ltac given_up_leaf Hs h h' :=
  let task := fresh "task" in
  let Hl := fresh "Hl" in
  let Hst := fresh "Hst" in
  destruct Hs as (task & Hl & Hst);
  destruct (decide (h = h')) as [?|?];
  [ subst;
    first
      [ match goal with
        | H : Downloader.download_tasks _ !! _ = None |- _ => congruence
        end
      | same_record;
        unfold Downloader.given_up; pool_lookups;
        rewrite ?lookup_alter_eq, ?Hl; cbn [fmap option_fmap option_map];
        eexists; split; [reflexivity|]; cbn;
        first [ destruct Hst as [?|[?|?]]; congruence | auto ] ]
  | exists task; pool_lookups;
    rewrite ?lookup_alter_ne by congruence; auto ].

Section Closures.
Import Py Downloader.

Lemma thread_step_stalled (h h' : handle) (ev : event) (d : Downloader.t) :
  stalled h d -> wpx (thread_step h' ev) (fun _ d' => stalled h d') never d.
Proof.
  intros Hs. unfold thread_step, try_body. wp_run.
  all: try exact Hs.
  all: stalled_leaf Hs h h'.
Qed.

Lemma pause_download_stalled (h h' : handle) (d : Downloader.t) :
  stalled h d -> wpx (pause_download h') (fun _ d' => stalled h d') never d.
Proof.
  intros Hs. unfold pause_download. wp_run; try exact Hs; stalled_leaf Hs h h'.
Qed.

Lemma resume_download_stalled (h h' : handle) (d : Downloader.t) :
  stalled h d -> wpx (resume_download h') (fun _ d' => stalled h d') never d.
Proof.
  intros Hs. unfold resume_download. wp_run; try exact Hs; stalled_leaf Hs h h'.
Qed.

Lemma cancel_download_stalled (h h' : handle) (d : Downloader.t) :
  stalled h d -> wpx (cancel_download h') (fun _ d' => stalled h d') never d.
Proof.
  intros Hs. unfold cancel_download. wp_run; try exact Hs; stalled_leaf Hs h h'.
Qed.

Lemma start_download_stalled (h : handle) (source path : string)
      (d : Downloader.t) :
  ids_drawn d -> stalled h d ->
  wpx (start_download source path) (fun _ d' => stalled h d') never d.
Proof.
  intros [Hids _] (task & th & Hl & Hlt & Hrest).
  eapply wpx_of_eq; [apply start_download_eq|].
  pose proof (Hids h task Hl) as Hlt'.
  exists task, th. cbn [download_tasks threads].
  rewrite lookup_alter_ne, !lookup_insert_ne by lia. auto.
Qed.

Lemma thread_step_given_up (h h' : handle) (ev : event) (d : Downloader.t) :
  given_up h d -> wpx (thread_step h' ev) (fun _ d' => given_up h d') never d.
Proof.
  intros Hs. unfold thread_step, try_body. wp_run.
  all: try exact Hs.
  all: given_up_leaf Hs h h'.
Qed.

Lemma pause_download_given_up (h h' : handle) (d : Downloader.t) :
  given_up h d -> wpx (pause_download h') (fun _ d' => given_up h d') never d.
Proof.
  intros Hs. unfold pause_download. wp_run; try exact Hs; given_up_leaf Hs h h'.
Qed.

Lemma resume_download_given_up (h h' : handle) (d : Downloader.t) :
  given_up h d -> wpx (resume_download h') (fun _ d' => given_up h d') never d.
Proof.
  intros Hs. unfold resume_download. wp_run; try exact Hs; given_up_leaf Hs h h'.
Qed.

Lemma cancel_download_given_up (h h' : handle) (d : Downloader.t) :
  given_up h d -> wpx (cancel_download h') (fun _ d' => given_up h d') never d.
Proof.
  intros Hs. unfold cancel_download. wp_run; try exact Hs; given_up_leaf Hs h h'.
Qed.

Lemma start_download_given_up (h : handle) (source path : string)
      (d : Downloader.t) :
  ids_drawn d -> given_up h d ->
  wpx (start_download source path) (fun _ d' => given_up h d') never d.
Proof.
  intros [Hids _] (task & Hl & Hrest).
  eapply wpx_of_eq; [apply start_download_eq|].
  pose proof (Hids h task Hl) as Hlt'.
  exists task. cbn [download_tasks].
  rewrite lookup_alter_ne, !lookup_insert_ne by lia. auto.
Qed.

End Closures.

Section Growth.
Import Py Downloader.

Lemma tasks_grow_refl (d : Downloader.t) : tasks_grow d d.
Proof. intros h task Hh. exists task. repeat split; [exact Hh | lia]. Qed.

Lemma tasks_grow_trans (d1 d2 d3 : Downloader.t) :
  tasks_grow d1 d2 -> tasks_grow d2 d3 -> tasks_grow d1 d3.
Proof.
  intros H12 H23 h task Hh.
  destruct (H12 h task Hh) as (task2 & Hh2 & Hu2 & Hp2 & Hb2).
  destruct (H23 h task2 Hh2) as (task3 & Hh3 & Hu3 & Hp3 & Hb3).
  exists task3. repeat split; [exact Hh3 | congruence | congruence | lia].
Qed.

(** To re-establish [bytes_tracked] after a step that touches [h0] only,
    and to see that no task was lost or went back. *)
Lemma grow_step (d d' : Downloader.t) (h0 : handle) :
  bytes_tracked d ->
  (forall h, h <> h0 ->
     download_tasks d' !! h = download_tasks d !! h
     /\ threads d' !! h = threads d !! h) ->
  (forall task, download_tasks d !! h0 = Some task ->
     exists task',
       download_tasks d' !! h0 = Some task'
       /\ url task' = url task
       /\ filepath task' = filepath task
       /\ bytes_downloaded task <= bytes_downloaded task'
       /\ (forall th', threads d' !! h0 = Some th' ->
           match th_pc th' with
           | at_entry | at_connect | at_headers_lock =>
               bytes_downloaded task' = 0 /\ th_bytes_downloaded th' = 0
           | finished => True
           | _ => bytes_downloaded task' <= th_bytes_downloaded th'
           end)) ->
  (download_tasks d !! h0 = None -> download_tasks d' !! h0 = None) ->
  bytes_tracked d' /\ tasks_grow d d'.
Proof.
  intros Hd Hother Hh0 Hnone. split.
  - intros h task' th' Hl Hlt.
    destruct (decide (h = h0)) as [->|Hne].
    + destruct (download_tasks d !! h0) as [task|] eqn:Hh.
      * destruct (Hh0 task eq_refl) as (task2 & Hl2 & _ & _ & _ & Hc).
        assert (task2 = task') by congruence. subst task2.
        exact (Hc th' Hlt).
      * rewrite (Hnone eq_refl) in Hl. discriminate Hl.
    + destruct (Hother h Hne) as [Ht Hth]. rewrite Ht in Hl.
      rewrite Hth in Hlt. exact (Hd h task' th' Hl Hlt).
  - intros h task Hh.
    destruct (decide (h = h0)) as [->|Hne].
    + destruct (Hh0 task Hh) as (task' & Hl & Hu & Hp & Hb & _).
      exists task'. auto.
    + destruct (Hother h Hne) as [Ht _]. exists task.
      rewrite Ht. repeat split; [exact Hh | lia].
Qed.

Lemma grow_set_status (h0 : handle) (st : Status) (d : Downloader.t) :
  bytes_tracked d ->
  bytes_tracked (with_tasks (alter (set_status st) h0) d)
  /\ tasks_grow d (with_tasks (alter (set_status st) h0) d).
Proof.
  intros Hd. apply (grow_step d _ h0 Hd).
  - intros h Hne. unfold with_tasks. cbn [download_tasks threads].
    now rewrite lookup_alter_ne by congruence.
  - intros task Hh. unfold with_tasks. cbn [download_tasks threads].
    rewrite lookup_alter_eq, Hh. eexists. split; [reflexivity|].
    cbn. repeat split; try lia.
    intros th' Hth. exact (Hd h0 task th' Hh Hth).
  - intros Hn. unfold with_tasks. cbn [download_tasks].
    now rewrite lookup_alter_eq, Hn.
Qed.

End Growth.

Ltac know_thread d h :=
  lazymatch goal with
  | H : Downloader.threads d !! h = _ |- _ => idtac
  | _ => destruct (Downloader.threads d !! h) eqn:?
  end.

Ltac grow_leaf Hd d h0 :=
  apply (grow_step d _ h0 Hd);
  [ intros ? ?; pool_lookups; rewrite ?lookup_alter_ne by congruence; auto
  | know_task d h0;
    match goal with
    | Hh : Downloader.download_tasks _ !! _ = None |- _ =>
        rewrite ?Hh; intros ? [=]
    | Hh : Downloader.download_tasks _ !! ?h = Some ?task,
      Hth : Downloader.threads _ !! ?h = Some ?th,
      Hpc : Downloader.th_pc ?th = _ |- _ =>
        let Hb := fresh "Hb" in
        pose proof (Hd h task th Hh Hth) as Hb; rewrite Hpc in Hb;
        rewrite ?Hh; intros ? [= <-]; pool_lookups;
        rewrite ?lookup_alter_eq, ?Hh, ?Hth;
        cbn [fmap option_fmap option_map];
        eexists; split; [reflexivity|]; cbn;
        repeat split; try lia;
        intros ? [= <-]; cbn; first [lia | tauto | exact I]
    end
  | pool_lookups; rewrite ?lookup_alter_eq;
    let Hn := fresh "Hn" in intros Hn; rewrite Hn; reflexivity ].

Section Growth2.
Import Py Downloader.

Lemma thread_step_grows (h0 : handle) (ev : event) (d : Downloader.t) :
  bytes_tracked d ->
  wpx (thread_step h0 ev)
      (fun _ d' => bytes_tracked d' /\ tasks_grow d d') never d.
Proof.
  intros Hd. unfold thread_step, try_body. wp_run.
  all: try (split; [exact Hd | apply tasks_grow_refl]).
  all: grow_leaf Hd d h0.
Qed.

Lemma pause_download_grows (h0 : handle) (d : Downloader.t) :
  bytes_tracked d ->
  wpx (pause_download h0)
      (fun _ d' => bytes_tracked d' /\ tasks_grow d d') never d.
Proof.
  intros Hd. unfold pause_download. wp_run.
  all: try (split; [exact Hd | apply tasks_grow_refl]).
  all: apply grow_set_status, Hd.
Qed.

Lemma resume_download_grows (h0 : handle) (d : Downloader.t) :
  bytes_tracked d ->
  wpx (resume_download h0)
      (fun _ d' => bytes_tracked d' /\ tasks_grow d d') never d.
Proof.
  intros Hd. unfold resume_download. wp_run.
  all: try (split; [exact Hd | apply tasks_grow_refl]).
  all: apply grow_set_status, Hd.
Qed.

Lemma cancel_download_grows (h0 : handle) (d : Downloader.t) :
  bytes_tracked d ->
  wpx (cancel_download h0)
      (fun _ d' => bytes_tracked d' /\ tasks_grow d d') never d.
Proof.
  intros Hd. unfold cancel_download. wp_run.
  all: try (split; [exact Hd | apply tasks_grow_refl]).
  all: apply grow_set_status, Hd.
Qed.

Lemma start_download_grows (source path : string) (d : Downloader.t) :
  ids_drawn d -> bytes_tracked d ->
  wpx (start_download source path)
      (fun _ d' => bytes_tracked d' /\ tasks_grow d d') never d.
Proof.
  intros [Hids Hidt] Hd. eapply wpx_of_eq; [apply start_download_eq|].
  split.
  - intros h task' th'. cbn [download_tasks threads].
    destruct (decide (h = uuid_drawn d)) as [->|Hne].
    + rewrite lookup_alter_eq, !lookup_insert_eq. cbn.
      intros [= <-] [= <-]. cbn. lia.
    + rewrite lookup_alter_ne, !lookup_insert_ne by congruence.
      apply Hd.
  - intros h task Hh. cbn [download_tasks].
    pose proof (Hids h task Hh) as Hlt.
    rewrite lookup_alter_ne, lookup_insert_ne by lia.
    exists task. repeat split; [exact Hh | lia].
Qed.

End Growth2.

Section WholeRuns.
Import Py Downloader.

Lemma bytes_tracked_init (n : Z) : bytes_tracked (Downloader.init n).
Proof. intros h task th Hh. cbn in Hh. rewrite lookup_empty in Hh. discriminate Hh. Qed.

Lemma run_ids_drawn (actions : list System.action) (s : System.t) :
  ids_drawn (QueueManager.downloader s) ->
  ids_drawn (QueueManager.downloader (System.run actions s)).
Proof.
  apply (run_keeps ids_drawn start_download_ids_drawn
           pause_download_ids_drawn resume_download_ids_drawn
           cancel_download_ids_drawn thread_step_ids_drawn).
Qed.

Lemma reachable_ids_drawn (n : Z) (actions : list System.action) :
  ids_drawn (QueueManager.downloader (System.run actions (System.init n))).
Proof. apply run_ids_drawn, ids_drawn_init. Qed.

Lemma run_stalled (h : handle) (actions : list System.action) (s : System.t) :
  ids_drawn (QueueManager.downloader s) ->
  stalled h (QueueManager.downloader s) ->
  stalled h (QueueManager.downloader (System.run actions s)).
Proof.
  intros Hids Hs.
  apply (run_keeps (fun d => ids_drawn d /\ stalled h d)); [..|now split].
  - intros source path d [Hi Hst]. apply wpx_and;
      [now apply start_download_ids_drawn | now apply start_download_stalled].
  - intros h' d [Hi Hst]. apply wpx_and;
      [now apply pause_download_ids_drawn | now apply pause_download_stalled].
  - intros h' d [Hi Hst]. apply wpx_and;
      [now apply resume_download_ids_drawn | now apply resume_download_stalled].
  - intros h' d [Hi Hst]. apply wpx_and;
      [now apply cancel_download_ids_drawn | now apply cancel_download_stalled].
  - intros h' ev d [Hi Hst]. apply wpx_and;
      [now apply thread_step_ids_drawn | now apply thread_step_stalled].
Qed.

Lemma run_given_up (h : handle) (actions : list System.action) (s : System.t) :
  ids_drawn (QueueManager.downloader s) ->
  given_up h (QueueManager.downloader s) ->
  given_up h (QueueManager.downloader (System.run actions s)).
Proof.
  intros Hids Hs.
  apply (run_keeps (fun d => ids_drawn d /\ given_up h d)); [..|now split].
  - intros source path d [Hi Hst]. apply wpx_and;
      [now apply start_download_ids_drawn | now apply start_download_given_up].
  - intros h' d [Hi Hst]. apply wpx_and;
      [now apply pause_download_ids_drawn | now apply pause_download_given_up].
  - intros h' d [Hi Hst]. apply wpx_and;
      [now apply resume_download_ids_drawn | now apply resume_download_given_up].
  - intros h' d [Hi Hst]. apply wpx_and;
      [now apply cancel_download_ids_drawn | now apply cancel_download_given_up].
  - intros h' ev d [Hi Hst]. apply wpx_and;
      [now apply thread_step_ids_drawn | now apply thread_step_given_up].
Qed.

Lemma grows_on (d0 : Downloader.t) {A} (m : M Downloader.t A)
      (d : Downloader.t) :
  tasks_grow d0 d ->
  wpx m (fun _ d' => bytes_tracked d' /\ tasks_grow d d') never d ->
  wpx m (fun _ d' => bytes_tracked d' /\ tasks_grow d0 d') never d.
Proof.
  intros H0 Hm. eapply wpx_mono; [| |exact Hm]; [|auto].
  intros a d' [Hb Hg]. split; [exact Hb|].
  exact (tasks_grow_trans _ _ _ H0 Hg).
Qed.

Lemma run_grows (actions : list System.action) (s : System.t) :
  ids_drawn (QueueManager.downloader s) ->
  bytes_tracked (QueueManager.downloader s) ->
  bytes_tracked (QueueManager.downloader (System.run actions s))
  /\ tasks_grow (QueueManager.downloader s)
                (QueueManager.downloader (System.run actions s)).
Proof.
  intros Hids Hb.
  set (d0 := QueueManager.downloader s).
  assert (H : ids_drawn (QueueManager.downloader (System.run actions s))
              /\ bytes_tracked (QueueManager.downloader (System.run actions s))
              /\ tasks_grow d0 (QueueManager.downloader (System.run actions s))).
  { apply (run_keeps (fun d => ids_drawn d /\ bytes_tracked d
                               /\ tasks_grow d0 d)).
    - intros source path d (Hi & Hbt & Hg). apply wpx_and;
        [now apply start_download_ids_drawn|].
      apply (grows_on d0); [exact Hg|]. now apply start_download_grows.
    - intros h' d (Hi & Hbt & Hg). apply wpx_and;
        [now apply pause_download_ids_drawn|].
      apply (grows_on d0); [exact Hg|]. now apply pause_download_grows.
    - intros h' d (Hi & Hbt & Hg). apply wpx_and;
        [now apply resume_download_ids_drawn|].
      apply (grows_on d0); [exact Hg|]. now apply resume_download_grows.
    - intros h' d (Hi & Hbt & Hg). apply wpx_and;
        [now apply cancel_download_ids_drawn|].
      apply (grows_on d0); [exact Hg|]. now apply cancel_download_grows.
    - intros h' ev d (Hi & Hbt & Hg). apply wpx_and;
        [now apply thread_step_ids_drawn|].
      apply (grows_on d0); [exact Hg|]. now apply thread_step_grows.
    - split; [exact Hids|]. split; [exact Hb|]. apply tasks_grow_refl. }
  tauto.
Qed.

(** X5: [resume_download] does not restart a transfer.  In any run,
    once the thread of a download has passed its first locked block and
    its status is neither ['downloading'] nor ['completed'] (after
    [pause_download], say), the task stays in the table and its status
    is never ['downloading'] and never ['completed'] again, whatever
    calls, passes of the loop and thread steps follow. *)
Theorem X5_paused_after_start_never_downloads_again
        (n : Z) (before after : list System.action) (h : handle)
        (task : Task) (th : Thread) :
  let s := System.run before (System.init n) in
  download_tasks (QueueManager.downloader s) !! h = Some task ->
  threads (QueueManager.downloader s) !! h = Some th ->
  th_pc th <> at_entry ->
  status task <> downloading ->
  status task <> completed ->
  exists task',
    download_tasks (QueueManager.downloader (System.run after s)) !! h
    = Some task'
    /\ status task' <> downloading
    /\ status task' <> completed.
Proof.
  intros s Hh Hth Hpc Hnd Hnc.
  destruct (run_stalled h after s (reachable_ids_drawn n before))
    as (task' & th' & Hh' & _ & _ & Hnd' & Hnc').
  { exists task, th. auto. }
  exists task'. auto.
Qed.

(** X6: in any run, a task that is ['cancelling'], ['cancelled'] or
    ['failed'] stays in the table with one of these three statuses,
    whatever calls ([pause], [resume], [cancel], new downloads), passes
    of the loop and thread steps, raising or not, follow. *)
Theorem X6_cancelled_or_failed_is_for_good
        (n : Z) (before after : list System.action) (h : handle)
        (task : Task) :
  let s := System.run before (System.init n) in
  download_tasks (QueueManager.downloader s) !! h = Some task ->
  status task = cancelling \/ status task = cancelled \/ status task = failed ->
  exists task',
    download_tasks (QueueManager.downloader (System.run after s)) !! h
    = Some task'
    /\ (status task' = cancelling
        \/ status task' = cancelled
        \/ status task' = failed).
Proof.
  intros s Hh Hst.
  apply (run_given_up h after s (reachable_ids_drawn n before)).
  exists task. auto.
Qed.

(** X7: along any run, from any of its states to any later one, no
    task leaves [download_tasks], its ['url'] and ['filepath'] stay the
    same, and its ['bytes_downloaded'] does not go down. *)
Theorem X7_tasks_stay_and_bytes_never_go_down
        (n : Z) (before after : list System.action) :
  tasks_grow
    (QueueManager.downloader (System.run before (System.init n)))
    (QueueManager.downloader (System.run (before ++ after) (System.init n))).
Proof.
  rewrite run_app.
  apply run_grows; [apply reachable_ids_drawn|].
  apply (run_grows before (System.init n));
    [apply ids_drawn_init | apply bytes_tracked_init].
Qed.

End WholeRuns.


(* ===================================================================== *)
(** * A transfer that nothing disturbs *)
(* ===================================================================== *)

(** Symbolic execution that reads known records instead of splitting. *)
Ltac wp_known :=
  match goal with
  | H : Downloader.download_tasks ?d !! ?h = Some _
    |- Py.wpx (Downloader.has_task ?h) _ _ ?d =>
      eapply wpx_has_task_present; [exact H|]
  | H : ?x = _ |- Py.wpx (match ?x with _ => _ end) _ _ _ => rewrite H
  | _ => wp_case
  end.

Ltac wp_go :=
  repeat (cbv beta iota;
          cbn [negb Downloader.status Downloader.th_pc
                    Downloader.th_total_size Downloader.th_bytes_downloaded
                    Downloader.th_filepath];
          wp_known).

Ltac at_leaf :=
  cbn [Downloader.th_filepath] in *;
  unfold Downloader.transfer_at; pool_lookups;
  cbn [Downloader.files Downloader.th_filepath Downloader.goto];
  rewrite ?lookup_alter_eq, ?lookup_insert_eq;
  repeat match goal with
         | H : _ !! _ = _ |- _ => rewrite H
         end;
  cbn; repeat split; first [reflexivity | assumption].

Section Undisturbed.
Import Py Downloader.
Variables (h : handle) (source path : string) (content_length : Z).

Lemma step_thread_at (ev : event) (P Q : Downloader.t -> Prop)
      (s : System.t) :
  (forall d, P d -> wpx (thread_step h ev) (fun _ d' => Q d') never d) ->
  P (QueueManager.downloader s) ->
  Q (QueueManager.downloader (System.step s (System.thread_step h ev))).
Proof.
  intros Hstep HP. unfold System.step.
  apply (wpx_state_of (System.exec (System.thread_step h ev))
           (fun s' => Q (QueueManager.downloader s'))).
  cbn [System.exec].
  eapply wpx_mono; [| |apply wpx_pool_call, (Hstep _ HP)]; [|auto].
  cbn. tauto.
Qed.

Lemma entry_step (ev : event) (content : option (list Byte.byte))
      (d : Downloader.t) :
  transfer_at h (mkThread source path at_entry 0 0)
    (mkTask source path downloading None 0%float 0 0 None) content d ->
  wpx (thread_step h ev)
      (fun _ d' =>
         transfer_at h (mkThread source path at_connect 0 0)
           (mkTask source path downloading None 0%float 0 0 None) content d')
      never d.
Proof.
  intros (Hth & Ht & Hf). unfold thread_step, try_body. wp_go. at_leaf.
Qed.

Lemma connect_step (content : option (list Byte.byte)) (task : Task)
      (d : Downloader.t) :
  transfer_at h (mkThread source path at_connect 0 0) task content d ->
  wpx (thread_step h (ev_response content_length))
      (fun _ d' =>
         transfer_at h (mkThread source path at_headers_lock 0 content_length)
           task content d')
      never d.
Proof.
  intros (Hth & Ht & Hf). unfold thread_step, try_body. wp_go. at_leaf.
Qed.

Lemma headers_step (ev : event) (content : option (list Byte.byte))
      (d : Downloader.t) :
  transfer_at h (mkThread source path at_headers_lock 0 content_length)
    (mkTask source path downloading None 0%float 0 0 None) content d ->
  wpx (thread_step h ev)
      (fun _ d' =>
         transfer_at h (mkThread source path at_open 0 content_length)
           (mkTask source path downloading None 0%float 0 content_length (Some 0))
           content d')
      never d.
Proof.
  intros (Hth & Ht & Hf). unfold thread_step, try_body. wp_go. at_leaf.
Qed.

Lemma open_step (content : option (list Byte.byte)) (task : Task)
      (d : Downloader.t) :
  transfer_at h (mkThread source path at_open 0 content_length) task content d ->
  wpx (thread_step h ev_ok)
      (fun _ d' =>
         transfer_at h (mkThread source path at_next_chunk 0 content_length)
           task (Some []) d')
      never d.
Proof.
  intros (Hth & Ht & Hf). unfold thread_step, try_body. wp_go. at_leaf.
Qed.

Lemma yield_step (count : Z) (chunk : list Byte.byte)
      (content : option (list Byte.byte)) (task : Task) (d : Downloader.t) :
  transfer_at h (mkThread source path at_next_chunk count content_length)
    task content d ->
  wpx (thread_step h (ev_chunk chunk))
      (fun _ d' =>
         transfer_at h
           (mkThread source path (at_checkpoint chunk) count content_length)
           task content d')
      never d.
Proof.
  intros (Hth & Ht & Hf). unfold thread_step, try_body. wp_go. at_leaf.
Qed.

Lemma idle_step (count : Z) (content : option (list Byte.byte))
      (task : Task) (d : Downloader.t) :
  transfer_at h (mkThread source path at_next_chunk count content_length)
    task content d ->
  wpx (thread_step h ev_ok)
      (fun _ d' =>
         transfer_at h (mkThread source path at_next_chunk count content_length)
           task content d')
      never d.
Proof.
  intros (Hth & Ht & Hf). unfold thread_step, try_body. wp_go.
  unfold transfer_at. auto.
Qed.

Lemma checkpoint_step_empty (ev : event) (count : Z)
      (content : option (list Byte.byte)) (shown : float)
      (d : Downloader.t) :
  transfer_at h
    (mkThread source path (at_checkpoint []) count content_length)
    (mkTask source path downloading None shown count content_length (Some 0))
    content d ->
  wpx (thread_step h ev)
      (fun _ d' =>
         transfer_at h (mkThread source path at_next_chunk count content_length)
           (mkTask source path downloading None shown count content_length
                   (Some 0))
           content d')
      never d.
Proof.
  intros (Hth & Ht & Hf). unfold thread_step, try_body. wp_go. at_leaf.
Qed.

Lemma checkpoint_step (ev : event) (count : Z) (b : Byte.byte)
      (chunk : list Byte.byte)
      (content : option (list Byte.byte)) (shown : float)
      (d : Downloader.t) :
  transfer_at h
    (mkThread source path (at_checkpoint (b :: chunk)) count content_length)
    (mkTask source path downloading None shown count content_length (Some 0))
    content d ->
  wpx (thread_step h ev)
      (fun _ d' =>
         transfer_at h
           (mkThread source path (at_write (b :: chunk)) count content_length)
           (mkTask source path downloading None shown count content_length
                   (Some 0))
           content d')
      never d.
Proof.
  intros (Hth & Ht & Hf). unfold thread_step, try_body. wp_go. at_leaf.
Qed.

Lemma write_step (count : Z) (chunk : list Byte.byte)
      (content : list Byte.byte) (task : Task) (d : Downloader.t) :
  transfer_at h
    (mkThread source path (at_write chunk) count content_length)
    task (Some content) d ->
  wpx (thread_step h ev_ok)
      (fun _ d' =>
         transfer_at h
           (mkThread source path at_progress_lock
                     (count + Z.of_nat (length chunk)) content_length)
           task (Some (content ++ chunk)) d')
      never d.
Proof.
  intros (Hth & Ht & Hf). unfold thread_step, try_body. wp_go. at_leaf.
Qed.

Lemma progress_step (ev : event) (count published : Z)
      (content : option (list Byte.byte)) (shown : float)
      (d : Downloader.t) :
  (content_length <= 0 -> shown = 0%float) ->
  transfer_at h
    (mkThread source path at_progress_lock count content_length)
    (mkTask source path downloading None shown published content_length
            (Some 0))
    content d ->
  wpx (thread_step h ev)
      (fun _ d' =>
         exists shown',
           transfer_at h
             (mkThread source path at_next_chunk count content_length)
             (mkTask source path downloading None shown' count content_length
                     (Some 0))
             content d'
           /\ (0 < content_length ->
               written_progress shown' count content_length)
           /\ (content_length <= 0 -> shown' = 0%float))
      never d.
Proof.
  intros Hzero (Hth & Ht & Hf). unfold thread_step, try_body. wp_go.
  - apply Z.ltb_lt in Heqb. eexists. split; [at_leaf|].
    split; [intros _; right; left; reflexivity | lia].
  - apply Z.ltb_ge in Heqb. exists shown. split; [at_leaf|].
    split; [lia | exact Hzero].
Qed.

Lemma end_step (count : Z) (content : option (list Byte.byte)) (task : Task)
      (d : Downloader.t) :
  transfer_at h (mkThread source path at_next_chunk count content_length)
    task content d ->
  wpx (thread_step h ev_end_of_stream)
      (fun _ d' =>
         transfer_at h (mkThread source path at_finish count content_length)
           task content d')
      never d.
Proof.
  intros (Hth & Ht & Hf). unfold thread_step, try_body. wp_go. at_leaf.
Qed.

Lemma finish_step (ev : event) (count : Z)
      (content : option (list Byte.byte)) (shown : float)
      (d : Downloader.t) :
  (0 < content_length -> written_progress shown count content_length) ->
  (content_length <= 0 -> shown = 0%float) ->
  transfer_at h (mkThread source path at_finish count content_length)
    (mkTask source path downloading None shown count content_length (Some 0))
    content d ->
  wpx (thread_step h ev)
      (fun _ d' =>
         exists shown',
           transfer_at h (mkThread source path finished count content_length)
             (mkTask source path completed None shown' count content_length
                     (Some 0))
             content d'
           /\ (0 < content_length -> count = content_length ->
               shown' = 100%float)
           /\ (0 < content_length -> count <> content_length ->
               (shown' = 0%float /\ count = 0)
               \/ shown' = percentage count content_length)
           /\ (content_length <= 0 -> shown' = 0%float))
      never d.
Proof.
  intros Hshown Hzero (Hth & Ht & Hf). unfold thread_step, try_body. wp_go.
  - apply andb_true_iff in Heqb as [Hpos Heq].
    apply Z.ltb_lt in Hpos. apply Z.eqb_eq in Heq.
    exists 100%float. split; [at_leaf|].
    split; [reflexivity|]. split; [congruence | lia].
  - apply andb_false_iff in Heqb.
    exists shown. split; [at_leaf|].
    split; [|split; [|exact Hzero]].
    + intros Hpos Heq. exfalso.
      destruct Heqb as [Hb|Hb];
        [apply Z.ltb_ge in Hb | apply Z.eqb_neq in Hb]; lia.
    + intros Hpos Hne.
      destruct (Hshown Hpos) as [Hw|[Hw|[_ Hw]]]; [left | right | ];
        first [exact Hw | contradiction].
Qed.

Lemma in_loop_at (count : Z) (content : list Byte.byte) (d : Downloader.t) :
  in_loop h source path content_length count content d
  <-> exists shown,
        transfer_at h (mkThread source path at_next_chunk count content_length)
          (mkTask source path downloading None shown count content_length
                  (Some 0))
          (Some content) d
        /\ (0 < content_length -> written_progress shown count content_length)
        /\ (content_length <= 0 -> shown = 0%float).
Proof.
  unfold in_loop, transfer_at. cbn [th_filepath].
  split; intros (shown & H); exists shown; tauto.
Qed.

(** One turn of the loop. *)
Lemma receive_in_loop (chunk : list Byte.byte) (count : Z)
      (content : list Byte.byte) (s : System.t) :
  in_loop h source path content_length count content
          (QueueManager.downloader s) ->
  in_loop h source path content_length
          (count + Z.of_nat (length chunk)) (content ++ chunk)
          (QueueManager.downloader (System.run (Scenario.receive h chunk) s)).
Proof.
  rewrite !in_loop_at. intros (shown & H0 & Hshown & Hzero).
  unfold Scenario.receive, System.run. cbn [fold_left].
  pose proof (step_thread_at _ _ _ s (yield_step count chunk _ _) H0) as H1.
  destruct chunk as [|b chunk].
  - pose proof (step_thread_at ev_ok _ _ _
                  (checkpoint_step_empty ev_ok count _ shown) H1) as H2.
    pose proof (step_thread_at _ _ _ _ (idle_step count _ _) H2) as H3.
    pose proof (step_thread_at _ _ _ _ (idle_step count _ _) H3) as H4.
    cbn [length]. rewrite Z.add_0_r, app_nil_r.
    exists shown. auto.
  - pose proof (step_thread_at ev_ok _ _ _
                  (checkpoint_step ev_ok count b chunk _ shown) H1) as H2.
    pose proof (step_thread_at _ _ _ _ (write_step count _ _ _) H2) as H3.
    exact (step_thread_at ev_ok _ _ _
             (fun d => progress_step ev_ok _ count _ shown d Hzero) H3).
Qed.

Lemma receive_all_in_loop (chunks : list (list Byte.byte)) (count : Z)
      (content : list Byte.byte) (s : System.t) :
  in_loop h source path content_length count content
          (QueueManager.downloader s) ->
  in_loop h source path content_length
          (count + Z.of_nat (length (concat chunks)))
          (content ++ concat chunks)
          (QueueManager.downloader
             (System.run (concat (map (Scenario.receive h) chunks)) s)).
Proof.
  revert count content s.
  induction chunks as [|chunk chunks IH]; intros count content s Hin.
  - cbn. rewrite Z.add_0_r, app_nil_r. exact Hin.
  - cbn [map concat]. rewrite run_app, length_app, Nat2Z.inj_add.
    rewrite Z.add_assoc, app_assoc.
    apply IH, receive_in_loop, Hin.
Qed.

Lemma reach_loop_in_loop (content : option (list Byte.byte)) (s : System.t) :
  transfer_at h (mkThread source path at_entry 0 0)
    (mkTask source path downloading None 0%float 0 0 None) content
    (QueueManager.downloader s) ->
  in_loop h source path content_length 0 []
          (QueueManager.downloader
             (System.run (Scenario.reach_loop h content_length) s)).
Proof.
  intros H0. rewrite in_loop_at.
  unfold Scenario.reach_loop, System.run. cbn [fold_left].
  pose proof (step_thread_at _ _ _ s (entry_step ev_ok _) H0) as H1.
  pose proof (step_thread_at _ _ _ _ (connect_step _ _) H1) as H2.
  pose proof (step_thread_at _ _ _ _ (headers_step ev_ok _) H2) as H3.
  pose proof (step_thread_at _ _ _ _ (open_step _ _) H3) as H4.
  exists 0%float. split; [exact H4|]. split; [|reflexivity].
  intros _. left. split; reflexivity.
Qed.

Lemma end_of_stream_completes (count : Z) (content : list Byte.byte)
      (s : System.t) :
  in_loop h source path content_length count content
          (QueueManager.downloader s) ->
  exists shown,
    transfer_at h (mkThread source path finished count content_length)
      (mkTask source path completed None shown count content_length (Some 0))
      (Some content)
      (QueueManager.downloader (System.run (Scenario.end_of_stream h) s))
    /\ (0 < content_length -> count = content_length -> shown = 100%float)
    /\ (0 < content_length -> count <> content_length ->
        (shown = 0%float /\ count = 0)
        \/ shown = percentage count content_length)
    /\ (content_length <= 0 -> shown = 0%float).
Proof.
  rewrite in_loop_at. intros (shown & H0 & Hshown & Hzero).
  unfold Scenario.end_of_stream, System.run. cbn [fold_left].
  pose proof (step_thread_at _ _ _ s (end_step count _ _) H0) as H1.
  exact (step_thread_at ev_ok _ _ _
           (fun d => finish_step ev_ok count _ shown d Hshown Hzero) H1).
Qed.

End Undisturbed.

Section Undisturbed2.
Import Py Downloader.

Lemma start_download_step (source path : string) (s : System.t) :
  QueueManager.downloader (System.step s (System.start_download source path))
  = state_of (start_download source path (QueueManager.downloader s)).
Proof. reflexivity. Qed.

(** X8: from any state, [start_download] followed by the steps of its
    thread alone, on a response that declares [content_length] bytes and
    a stream that yields [chunks] and ends, leaves the task
    ['completed'], without error, with ['bytes_downloaded'] the total
    length of the chunks and ['total_size'] the declared length; the
    thread has returned; the file holds the chunks in order.  With a
    positive declared length ['progress'] is 100 when exactly that many
    bytes were received (line 99); otherwise it is the double
    [(bytes_downloaded / total_size) * 100] of the last chunk (line 89,
    the counts being below 2^53), or 0 when no byte was received.  With
    no declared length it is 0. *)
Theorem X8_undisturbed_transfer_completes
        (s : System.t) (source path : string) (content_length : Z)
        (chunks : list (list Byte.byte)) :
  let h := uuid_drawn (QueueManager.downloader s) in
  let d' :=
    QueueManager.downloader
      (System.run
         (System.start_download source path
            :: Scenario.whole_transfer h content_length chunks)
         s) in
  let received := Z.of_nat (length (concat chunks)) in
  exists shown,
    download_tasks d' !! h
    = Some (mkTask source path completed None shown received content_length
                   (Some 0))
    /\ th_pc <$> threads d' !! h = Some finished
    /\ files d' !! path = Some (concat chunks)
    /\ (0 < content_length -> received = content_length ->
        shown = 100%float)
    /\ (0 < content_length -> received <> content_length ->
        exact_in_float received -> exact_in_float content_length ->
        (shown = 0%float /\ received = 0)
        \/ shown
           = (float_of_Z received / float_of_Z content_length * 100)%float)
    /\ (content_length <= 0 -> shown = 0%float).
Proof.
  intros h d' received. subst d'.
  unfold Scenario.whole_transfer.
  change (System.run (System.start_download source path :: ?l) s)
    with (System.run l (System.step s (System.start_download source path))).
  rewrite !run_app.
  set (s1 := System.step s (System.start_download source path)).
  assert (H1 : transfer_at h (mkThread source path at_entry 0 0)
                 (mkTask source path downloading None 0%float 0 0 None)
                 (files (QueueManager.downloader s) !! path)
                 (QueueManager.downloader s1)).
  { unfold s1. rewrite start_download_step, start_download_eq.
    unfold transfer_at. cbn [state_of threads download_tasks files th_filepath].
    fold h. rewrite lookup_alter_eq, !lookup_insert_eq. auto. }
  pose proof (reach_loop_in_loop h source path content_length _ s1 H1) as H2.
  pose proof (receive_all_in_loop h source path content_length chunks _ _ _ H2)
    as H3.
  destruct (end_of_stream_completes h source path content_length _ _ _ H3)
    as (shown & (Hth & Ht & Hf) & Hfull & Hshown & Hzero).
  rewrite Z.add_0_l in *. cbn [app th_filepath] in *.
  exists shown. fold received in Ht, Hfull, Hshown, Hth.
  split; [exact Ht|]. split; [exact (f_equal (fmap th_pc) Hth)|].
  split; [exact Hf|]. split; [exact Hfull|]. split; [|exact Hzero].
  intros Hpos Hne _ _. exact (Hshown Hpos Hne).
Qed.

End Undisturbed2.


(* ===================================================================== *)
(** * The queue manager: a pass of the loop, exactly *)
(* ===================================================================== *)

Section DictMore.
Import Py.
Context {K V : Type} `{EqDecision K}.

Lemma dict_get_absent (k : K) (d : dict K V) :
  dict_get k d = None <-> ~ In k (map fst d).
Proof.
  induction d as [|[k' v'] d IH]; simpl; [tauto|].
  destruct (decide (k' = k)) as [Heq|Hne].
  - split; [discriminate | intros Hn; exfalso; apply Hn; auto].
  - rewrite IH. tauto.
Qed.

Lemma dict_get_app_fresh (k : K) (pre l : dict K V) :
  ~ In k (map fst pre) -> dict_get k (pre ++ l) = dict_get k l.
Proof.
  induction pre as [|[k' v'] pre IH]; simpl; intros Hn; [reflexivity|].
  destruct (decide (k' = k)) as [Heq|Hne]; [tauto|]. apply IH. tauto.
Qed.

Lemma dict_set_app_fresh (k : K) (v : V) (pre l : dict K V) :
  ~ In k (map fst pre) -> dict_set k v (pre ++ l) = pre ++ dict_set k v l.
Proof.
  induction pre as [|[k' v'] pre IH]; simpl; intros Hn; [reflexivity|].
  destruct (decide (k' = k)) as [Heq|Hne]; [tauto|]. f_equal. apply IH. tauto.
Qed.

Lemma dict_set_fresh (k : K) (v : V) (l : dict K V) :
  ~ In k (map fst l) -> dict_set k v l = l ++ [(k, v)].
Proof.
  intros Hn. rewrite <- (app_nil_r l) at 1.
  now rewrite dict_set_app_fresh.
Qed.

Lemma dict_del_absent (k : K) (l : dict K V) :
  ~ In k (map fst l) -> dict_del k l = l.
Proof.
  induction l as [|[k' v'] l IH]; simpl; intros Hn; [reflexivity|].
  destruct (decide (k' = k)) as [Heq|Hne]; [tauto|]. f_equal. apply IH. tauto.
Qed.

Lemma dict_del_filter (k : K) (l : dict K V) :
  List.NoDup (map fst l) ->
  dict_del k l = List.filter (fun p => negb (bool_decide (fst p = k))) l.
Proof.
  induction l as [|[k' v'] l IH]; simpl; intros Hnd; [reflexivity|].
  apply NoDup_cons_iff in Hnd as [Hk' Hnd].
  destruct (decide (k' = k)) as [Heq|Hne].
  - rewrite bool_decide_eq_true_2 by exact Heq. simpl. subst k'.
    rewrite <- (IH Hnd). symmetry. now apply dict_del_absent.
  - rewrite bool_decide_eq_false_2 by exact Hne. simpl. f_equal. now apply IH.
Qed.

Lemma filter_keys_NoDup (f : K * V -> bool) (l : dict K V) :
  List.NoDup (map fst l) -> List.NoDup (map fst (List.filter f l)).
Proof.
  induction l as [|p l IH]; simpl; intros Hnd; [constructor|].
  apply NoDup_cons_iff in Hnd as [Hp Hnd].
  destruct (f p); simpl; [|now apply IH].
  apply NoDup_cons_iff. split; [|now apply IH].
  intros Hin. apply Hp. apply in_map_iff in Hin as (q & Hq & Hin).
  apply filter_In in Hin as [Hin _]. apply in_map_iff. eauto.
Qed.

Lemma fold_del_filter (ks : list K) (l : dict K V) :
  List.NoDup (map fst l) ->
  fold_left (fun a k => dict_del k a) ks l
  = List.filter
      (fun p => forallb (fun k => negb (bool_decide (fst p = k))) ks) l.
Proof.
  revert l. induction ks as [|k ks IH]; intros l Hnd; simpl.
  - symmetry. apply filter_all. auto.
  - rewrite IH, (dict_del_filter k l Hnd).
    + clear. induction l as [|p l IHl]; simpl; [reflexivity|].
      destruct (negb (bool_decide (fst p = k))); simpl;
        [destruct (forallb _ ks); now rewrite IHl | exact IHl].
    + rewrite (dict_del_filter k l Hnd). now apply filter_keys_NoDup.
Qed.

End DictMore.

Section PassExact.
Import Py QueueManager.

Lemma wpx_bind_eq {S A B} (m : M S A) (k : A -> M S B) Q E (s s' : S) (a : A) :
  m s = Return a s' -> wpx (k a) Q E s' -> wpx (bind m k) Q E s.
Proof. intros Hm Hk. unfold wpx, bind in *. now rewrite Hm. Qed.

Lemma refresh_eq (finished : list Downloader.handle)
      (k : Downloader.handle) (e : Entry) (s : System.t) :
  dict_get k (active_downloads s) = Some e ->
  refresh finished k s
  = Return (if System.retires (downloader s) k
            then finished ++ [k] else finished)
           (with_active
              (fun active =>
                 match Downloader.download_tasks (downloader s) !! k with
                 | Some task =>
                     dict_set k
                       (set_status (live (Downloader.status task)) e) active
                 | None => active
                 end) s).
Proof.
  intros Hg. unfold refresh, System.retires, on_downloader, bind.
  cbn [dl_get_status Downloader_like]. unfold Downloader.get_status.
  py_unfold.
  destruct (Downloader.download_tasks (downloader s) !! k) as [task|] eqn:Hk.
  - unfold set_active_status. py_unfold.
    cbn [active_downloads Downloader.snap_status Downloader.snapshot].
    rewrite Hg. destruct s as [d p a c]. unfold with_active. cbn.
    destruct (Downloader.is_terminal (Downloader.status task)); reflexivity.
  - destruct s as [d p a c]. reflexivity.
Qed.

Lemma refresh_loop_eq (d : Downloader.t) (p : list Entry) (c : nat)
      (suf pre : dict Downloader.handle Entry)
      (finished : list Downloader.handle) :
  List.NoDup (map fst (pre ++ suf)) ->
  for_each refresh (map fst suf) finished (mk d p (pre ++ suf) c)
  = Return (finished ++ List.filter (System.retires d) (map fst suf))
           (mk d p (pre ++ map (System.refreshed d) suf) c).
Proof.
  revert pre finished.
  induction suf as [|[k e] suf IH]; intros pre finished Hnd.
  - cbn. rewrite !app_nil_r. reflexivity.
  - cbn [map for_each fst].
    assert (Hfresh : ~ In k (map fst pre)).
    { rewrite map_app in Hnd. cbn [map fst] in Hnd.
      apply NoDup_remove_2 in Hnd. intros Hin. apply Hnd.
      apply in_or_app. now left. }
    assert (Hg : dict_get k (pre ++ (k, e) :: suf) = Some e).
    { rewrite dict_get_app_fresh by exact Hfresh. cbn.
      now rewrite decide_True. }
    unfold bind at 1.
    rewrite (refresh_eq finished k e (mk d p (pre ++ (k, e) :: suf) c) Hg).
    unfold with_active. cbn [downloader pending_queue active_downloads qm_id_counter].
    replace (match Downloader.download_tasks d !! k with
             | Some task =>
                 dict_set k (set_status (live (Downloader.status task)) e)
                          (pre ++ (k, e) :: suf)
             | None => pre ++ (k, e) :: suf
             end)
      with ((pre ++ [System.refreshed d (k, e)]) ++ suf).
    + rewrite IH.
      * rewrite <- !app_assoc. cbn [app List.filter].
        destruct (System.retires d k); now rewrite <- ?app_assoc.
      * rewrite map_app in *. rewrite map_app. cbn [map].
        replace (fst (System.refreshed d (k, e))) with k.
        -- now rewrite <- app_assoc.
        -- unfold System.refreshed. cbn [fst].
           now destruct (Downloader.download_tasks d !! k).
    + rewrite <- app_assoc. cbn [app]. unfold System.refreshed. cbn [fst snd].
      destruct (Downloader.download_tasks d !! k); [|reflexivity].
      rewrite dict_set_app_fresh by exact Hfresh. cbn.
      now rewrite decide_True.
Qed.

Lemma retire_eq (k : Downloader.handle) (s : System.t) :
  retire k s = Return tt (with_active (dict_del k) s).
Proof.
  unfold retire. py_unfold.
  destruct (dict_get k (active_downloads s)) eqn:Hg; [reflexivity|].
  apply dict_get_absent in Hg. destruct s as [d p a c].
  unfold with_active. cbn in *. now rewrite (dict_del_absent k a Hg).
Qed.

Lemma retire_loop_eq (ks : list Downloader.handle) (s : System.t) :
  for_each (fun _ dl_id => retire dl_id) ks tt s
  = Return tt
      (with_active (fun a => fold_left (fun a k => dict_del k a) ks a) s).
Proof.
  revert s. induction ks as [|k ks IH]; intros s.
  - destruct s. reflexivity.
  - cbn [for_each fold_left]. unfold bind at 1. rewrite retire_eq, IH.
    destruct s. reflexivity.
Qed.

Lemma refreshed_fst (d : Downloader.t)
      (pair : Downloader.handle * Entry) :
  fst (System.refreshed d pair) = fst pair.
Proof.
  unfold System.refreshed.
  now destruct (Downloader.download_tasks d !! fst pair).
Qed.

Lemma refreshed_keys (d : Downloader.t) (a : dict Downloader.handle Entry) :
  map fst (map (System.refreshed d) a) = map fst a.
Proof.
  rewrite map_map. apply map_ext. intros p. apply refreshed_fst.
Qed.

Lemma retired_are_out (d : Downloader.t) (a : dict Downloader.handle Entry) :
  List.NoDup (map fst a) ->
  fold_left (fun a k => dict_del k a)
            (List.filter (System.retires d) (map fst a))
            (map (System.refreshed d) a)
  = System.survivors d a.
Proof.
  intros Hnd. rewrite fold_del_filter by now rewrite refreshed_keys.
  unfold System.survivors. apply filter_ext_in. intros p Hin.
  assert (Hkey : In (fst p) (map fst a)).
  { rewrite <- (refreshed_keys d). now apply in_map. }
  destruct (System.retires d (fst p)) eqn:Hr; cbn.
  - apply not_true_is_false. intros Hall.
    rewrite forallb_forall in Hall.
    specialize (Hall (fst p)).
    rewrite bool_decide_eq_true_2 in Hall by reflexivity.
    cbn in Hall. enough (false = true) by discriminate.
    apply Hall. apply filter_In. auto.
  - apply forallb_forall. intros k Hk. apply filter_In in Hk as [_ Hk].
    rewrite bool_decide_eq_false_2; [reflexivity|]. congruence.
Qed.

(** What one pass leaves, exactly. *)
Lemma process_queue_once_exact (s : System.t) :
  List.NoDup (map fst (active_downloads s)) ->
  (forall k, In k (map fst (active_downloads s)) ->
             (k < Downloader.uuid_drawn (downloader s))%nat) ->
  let active1 := System.survivors (downloader s) (active_downloads s) in
  wpx process_queue_once
      (fun _ s' =>
         active_downloads s' = active1 ++ System.promoted s active1
         /\ qm_id_counter s' = qm_id_counter s
         /\ match System.promoted s active1 with
            | [] => pending_queue s' = pending_queue s
                    /\ downloader s' = downloader s
            | _ =>
                exists e rest,
                  pending_queue s = e :: rest
                  /\ pending_queue s' = rest
                  /\ downloader s'
                     = state_of (Downloader.start_download
                                   (url e) (filepath e) (downloader s))
            end)
      never s.
Proof.
  intros Hnd Hdrawn active1.
  unfold process_queue_once. apply wpx_bind, wpx_get.
  destruct s as [d p a c]. cbn [active_downloads downloader pending_queue qm_id_counter] in *.
  eapply wpx_bind_eq; [exact (refresh_loop_eq d p c a [] [] Hnd)|].
  cbn [app]. apply wpx_bind.
  eapply wpx_of_eq; [apply retire_loop_eq|].
  unfold with_active. cbn [active_downloads downloader pending_queue qm_id_counter].
  rewrite (retired_are_out d a Hnd). fold active1.
  eapply wpx_mono; [| |apply dispatch_new_spec]; [|auto].
  cbn [active_downloads downloader pending_queue qm_id_counter].
  unfold System.promoted. cbn [pending_queue downloader].
  intros _ s' [(-> & Hnone)|(e & rest & h & d' & -> & Hlt & Hstart & ->)];
    cbn [active_downloads downloader pending_queue qm_id_counter].
  - destruct Hnone as [->|Hge].
    + rewrite app_nil_r. auto.
    + destruct p as [|e rest]; [rewrite app_nil_r; auto|].
      destruct (Z.ltb_spec (Z.of_nat (length active1))
                           (Downloader.num_workers d)); [lia|].
      rewrite app_nil_r. auto.
  - destruct (Z.ltb_spec (Z.of_nat (length active1))
                         (Downloader.num_workers d)); [|lia].
    rewrite start_download_eq in Hstart. injection Hstart as <- <-.
    split; [|split; [reflexivity|]].
    + apply dict_set_fresh. intros Hin.
      assert (Hin' : In (Downloader.uuid_drawn d) (map fst a)).
      { unfold active1, System.survivors in Hin.
        apply in_map_iff in Hin as (q & Hq & Hin).
        apply filter_In in Hin as [Hin _].
        rewrite <- (refreshed_keys d). apply in_map_iff. eauto. }
      specialize (Hdrawn _ Hin'). lia.
    + exists e, rest. rewrite start_download_eq. auto.
Qed.

End PassExact.

Section ListMore.
Import Py.

Lemma insert_stable_perm {A} (le : A -> A -> bool) (x : A) (l : list A) :
  Permutation (insert_stable le x l) (x :: l).
Proof.
  induction l as [|y l IH]; simpl; [reflexivity|].
  destruct (le x y); [reflexivity|].
  rewrite IH. apply perm_swap.
Qed.

Lemma sort_perm {A} (le : A -> A -> bool) (l : list A) :
  Permutation (sort le l) l.
Proof.
  induction l as [|x l IH]; simpl; [reflexivity|].
  rewrite insert_stable_perm. now constructor.
Qed.

Lemma sublist_map_filter {A B} (g : A -> B) (f : A -> bool) (l : list A) :
  sublist (map g (List.filter f l)) (map g l).
Proof.
  induction l as [|x l IH]; simpl; [constructor|].
  destruct (f x); simpl; now constructor.
Qed.

Lemma filter_map_comm {A B} (r : A -> B) (f : B -> bool) (l : list A) :
  List.filter f (map r l) = map r (List.filter (fun x => f (r x)) l).
Proof.
  induction l as [|x l IH]; simpl; [reflexivity|].
  destruct (f (r x)); simpl; now rewrite IH.
Qed.

End ListMore.

Section WellFormed.
Import Py QueueManager.

Lemma step_grows (a : System.action) (s : System.t) :
  Downloader.ids_drawn (downloader s) ->
  Downloader.bytes_tracked (downloader s) ->
  Downloader.ids_drawn (downloader (System.step s a))
  /\ Downloader.bytes_tracked (downloader (System.step s a))
  /\ Downloader.tasks_grow (downloader s) (downloader (System.step s a))
  /\ System.queue_effect a s (System.step s a).
Proof.
  intros Hids Hb.
  destruct (step_keeps
              (fun d => Downloader.ids_drawn d /\ Downloader.bytes_tracked d
                        /\ Downloader.tasks_grow (downloader s) d))
    with (a := a) (s := s) as [(H1 & H2 & H3) H4]; [..|tauto].
  - intros source path d (Hi & Hbt & Hg). apply wpx_and;
      [now apply start_download_ids_drawn|].
    apply (grows_on (downloader s)); [exact Hg|].
    now apply start_download_grows.
  - intros h' d (Hi & Hbt & Hg). apply wpx_and;
      [now apply pause_download_ids_drawn|].
    apply (grows_on (downloader s)); [exact Hg|].
    now apply pause_download_grows.
  - intros h' d (Hi & Hbt & Hg). apply wpx_and;
      [now apply resume_download_ids_drawn|].
    apply (grows_on (downloader s)); [exact Hg|].
    now apply resume_download_grows.
  - intros h' d (Hi & Hbt & Hg). apply wpx_and;
      [now apply cancel_download_ids_drawn|].
    apply (grows_on (downloader s)); [exact Hg|].
    now apply cancel_download_grows.
  - intros h' ev d (Hi & Hbt & Hg). apply wpx_and;
      [now apply thread_step_ids_drawn|].
    apply (grows_on (downloader s)); [exact Hg|].
    now apply thread_step_grows.
  - split; [exact Hids|]. split; [exact Hb|]. apply tasks_grow_refl.
Qed.

Lemma bound_grows (d d' : Downloader.t)
      (pair : Downloader.handle * Entry) :
  Downloader.tasks_grow d d' ->
  System.bound_to_task d pair -> System.bound_to_task d' pair.
Proof.
  intros Hg (task & Hl & Hu & Hp).
  destruct (Hg _ _ Hl) as (task' & Hl' & Hu' & Hp' & _).
  exists task'. split; [exact Hl'|]. split; congruence.
Qed.

Lemma bound_refreshed (d : Downloader.t)
      (pair : Downloader.handle * Entry) :
  System.bound_to_task d pair ->
  System.bound_to_task d (System.refreshed d pair).
Proof.
  intros (task & Hl & Hu & Hp). unfold System.refreshed. rewrite Hl.
  exists task. auto.
Qed.

Lemma refreshed_qm_id (d : Downloader.t)
      (pair : Downloader.handle * Entry) :
  qm_id (snd (System.refreshed d pair)) = qm_id (snd pair).
Proof.
  unfold System.refreshed.
  now destruct (Downloader.download_tasks d !! fst pair).
Qed.

Lemma survivors_ids (d : Downloader.t) (a : dict Downloader.handle Entry) :
  sublist (map (fun p => qm_id (snd p)) (System.survivors d a))
          (map (fun p => qm_id (snd p)) a).
Proof.
  unfold System.survivors. rewrite filter_map_comm, map_map.
  rewrite (map_ext _ (fun p => qm_id (snd p)))
    by (intros p; apply refreshed_qm_id).
  apply sublist_map_filter.
Qed.

Lemma survivors_keys (d : Downloader.t) (a : dict Downloader.handle Entry) :
  sublist (map fst (System.survivors d a)) (map fst a).
Proof.
  unfold System.survivors. rewrite filter_map_comm, map_map.
  rewrite (map_ext _ fst) by (intros p; apply refreshed_fst).
  apply sublist_map_filter.
Qed.

Lemma survivors_Forall (P : Downloader.handle * Entry -> Prop)
      (d : Downloader.t) (a : dict Downloader.handle Entry) :
  Forall (fun p => P (System.refreshed d p)) a ->
  Forall P (System.survivors d a).
Proof.
  intros Hall. unfold System.survivors. apply Forall_filter_keep.
  induction Hall; simpl; constructor; assumption.
Qed.

Lemma bound_is_drawn (s : System.t) :
  Downloader.ids_drawn (downloader s) ->
  Forall (System.bound_to_task (downloader s)) (active_downloads s) ->
  forall k, In k (map fst (active_downloads s)) ->
            (k < Downloader.uuid_drawn (downloader s))%nat.
Proof.
  intros [Hids _] Hall k Hin.
  apply in_map_iff in Hin as (p & <- & Hin).
  rewrite List.Forall_forall in Hall.
  destruct (Hall p Hin) as (task & Hl & _). exact (Hids _ _ Hl).
Qed.

(** What one pass leaves, in a well-formed state. *)
Lemma pass_step_exact (s : System.t) :
  System.well_formed s ->
  let s' := System.step s System.process_queue_once in
  let active1 := System.survivors (downloader s) (active_downloads s) in
  active_downloads s' = active1 ++ System.promoted s active1
  /\ qm_id_counter s' = qm_id_counter s
  /\ match System.promoted s active1 with
     | [] => pending_queue s' = pending_queue s
             /\ downloader s' = downloader s
     | _ =>
         exists e rest,
           pending_queue s = e :: rest
           /\ pending_queue s' = rest
           /\ downloader s'
              = state_of (Downloader.start_download
                            (url e) (filepath e) (downloader s))
     end.
Proof.
  intros (Hids & _ & (Hnd & Hbound) & _) s' active1.
  apply NoDup_ListNoDup in Hnd.
  pose proof (process_queue_once_exact s Hnd (bound_is_drawn s Hids Hbound))
    as Hwp.
  cbv zeta in Hwp. unfold s', System.step. cbn [System.exec].
  revert Hwp. unfold wpx.
  destruct (process_queue_once s) as [[] s1|]; [|contradiction].
  cbn [state_of]. exact (fun H => H).
Qed.

Lemma issued_fresh (counter : nat) (e : Entry) :
  System.issued counter e -> qm_id e <> System.qm_name (S counter).
Proof.
  intros (k & Hk & Hle) Heq. rewrite Hk in Heq.
  apply qm_name_inj in Heq. lia.
Qed.

Lemma step_well_formed (a : System.action) (s : System.t) :
  System.well_formed s -> System.well_formed (System.step s a).
Proof.
  intros Hwf.
  pose proof Hwf as (Hids & Hbt & (Hnd & Hbound) & (Hdis & Hip & Hia) & Hq).
  destruct (step_grows a s Hids Hbt) as (Hids' & Hbt' & Hgrow & Heff).
  split; [exact Hids'|]. split; [exact Hbt'|].
  assert (Hbound' : Forall (System.bound_to_task
                              (downloader (System.step s a)))
                           (active_downloads s)).
  { eapply Forall_impl; [exact Hbound|].
    intros p. apply bound_grows, Hgrow. }
  destruct a as [now source path priority|id| |source path|h|h|h|h|h ev].
  - (* add_download *)
    destruct Heff as (Hp & Ha & Hc & _).
    unfold System.active_bound, System.ids_distinct,
      System.queued_ids, System.active_ids in *.
    rewrite Hp, Ha, Hc.
    set (new := mkEntry (System.qm_name (S (qm_id_counter s)))
                        source path priority now queued).
    assert (Hperm : Permutation (sort key_le (pending_queue s ++ [new]))
                                (new :: pending_queue s)).
    { rewrite sort_perm. symmetry. apply Permutation_cons_append. }
    split; [split; assumption|]. split; [split; [|split]|].
    + rewrite Hperm. cbn [map app]. apply NoDup_cons. split; [|exact Hdis].
      intros Hin. apply list_elem_of_In, in_app_or in Hin as [Hin|Hin];
        apply in_map_iff in Hin as (x & Hx & Hin).
      * rewrite List.Forall_forall in Hip.
        exact (issued_fresh _ _ (Hip x Hin) Hx).
      * rewrite List.Forall_forall in Hia.
        exact (issued_fresh _ _ (Hia x Hin) Hx).
    + rewrite Hperm. constructor.
      * exists (S (qm_id_counter s)). split; [reflexivity | lia].
      * eapply Forall_impl; [exact Hip|]. intros e. apply issued_mono. lia.
    + eapply Forall_impl; [exact Hia|]. intros e. apply issued_mono. lia.
    + rewrite Hperm. constructor; [reflexivity | exact Hq].
  - (* remove_download *)
    destruct Heff as (Hp & Ha & Hc).
    unfold System.active_bound, System.ids_distinct,
      System.queued_ids, System.active_ids in *.
    rewrite Hp, Ha, Hc.
    split; [split; assumption|]. split; [split; [|split]|].
    + eapply sublist_NoDup; [exact Hdis|].
      apply sublist_app; [apply sublist_map_filter | reflexivity].
    + now apply Forall_filter_keep.
    + exact Hia.
    + now apply Forall_filter_keep.
  - (* process_queue_once *)
    clear Heff Hbound'.
    destruct (pass_step_exact s Hwf) as (Ha & Hc & Hrest).
    cbv zeta in Ha, Hc, Hrest.
    set (s' := System.step s System.process_queue_once) in *.
    set (active1 := System.survivors (downloader s) (active_downloads s)) in *.
    assert (Hk1 : NoDup (map fst active1)).
    { eapply sublist_NoDup; [exact Hnd | apply survivors_keys]. }
    assert (Hb1 : Forall (System.bound_to_task (downloader s')) active1).
    { apply survivors_Forall. eapply Forall_impl; [exact Hbound|].
      intros p Hp. apply (bound_grows _ _ _ Hgrow), bound_refreshed, Hp. }
    assert (Hi1 : Forall (fun pair => System.issued (qm_id_counter s) (snd pair))
                         active1).
    { apply survivors_Forall. eapply Forall_impl; [exact Hia|].
      intros p (k & Hk & Hle). exists k. split; [|exact Hle].
      rewrite <- Hk. unfold System.refreshed.
      now destruct (Downloader.download_tasks _ !! fst p). }
    assert (Hd1 : NoDup (System.queued_ids s
                         ++ map (fun p => qm_id (snd p)) active1)).
    { eapply sublist_NoDup; [exact Hdis|].
      apply sublist_app; [reflexivity | apply survivors_ids]. }
    unfold System.promoted in Ha, Hrest.
    unfold System.active_bound, System.ids_distinct,
      System.queued_ids, System.active_ids in *.
    destruct (pending_queue s) as [|e rest] eqn:Hpend.
    { destruct Hrest as [Hp Hd]. rewrite Ha, Hp, Hc, app_nil_r.
      repeat split; auto. }
    destruct (Z.of_nat (length active1)
              <? Downloader.num_workers (downloader s)).
    2:{ destruct Hrest as [Hp Hd]. rewrite Ha, Hp, Hc, app_nil_r.
        repeat split; auto. }
    destruct Hrest as (e' & rest' & [= <- <-] & Hp & Hd).
    rewrite Ha, Hp, Hc. rewrite !map_app. cbn [map fst snd].
    apply Forall_cons in Hip as [Hie Hip].
    apply Forall_cons in Hq as [_ Hq].
    split; [split|split; [split; [|split]|]].
    + apply NoDup_app. split; [exact Hk1|].
      split; [|apply NoDup_singleton].
      intros k Hk Hk'. apply list_elem_of_singleton in Hk'. subst k.
      assert (Hin : In (Downloader.uuid_drawn (downloader s))
                       (map fst (active_downloads s))).
      { apply list_elem_of_In. eapply elem_of_sublist; [exact Hk|].
        apply survivors_keys. }
      pose proof (bound_is_drawn s Hids Hbound _ Hin). lia.
    + apply Forall_app. split; [exact Hb1|]. constructor; [|constructor].
      rewrite Hd, start_download_eq. cbn [state_of].
      eexists. cbn [fst snd Downloader.download_tasks].
      rewrite lookup_alter_eq, lookup_insert_eq. cbn. auto.
    + cbn [map app] in Hd1. apply NoDup_cons in Hd1 as [Hne Hd1].
      rewrite app_assoc.
      rewrite <- Permutation_cons_append. apply NoDup_cons. auto.
    + exact Hip.
    + apply Forall_app. split; [exact Hi1|]. constructor; [|constructor].
      exact Hie.
    + exact Hq.
  - destruct Heff as (Hp & Ha & Hc).
    unfold System.active_bound, System.ids_distinct,
      System.queued_ids, System.active_ids in *.
    rewrite Hp, Ha, Hc. repeat split; assumption.
  - destruct Heff as (Hp & Ha & Hc).
    unfold System.active_bound, System.ids_distinct,
      System.queued_ids, System.active_ids in *.
    rewrite Hp, Ha, Hc. repeat split; assumption.
  - destruct Heff as (Hp & Ha & Hc).
    unfold System.active_bound, System.ids_distinct,
      System.queued_ids, System.active_ids in *.
    rewrite Hp, Ha, Hc. repeat split; assumption.
  - destruct Heff as (Hp & Ha & Hc).
    unfold System.active_bound, System.ids_distinct,
      System.queued_ids, System.active_ids in *.
    rewrite Hp, Ha, Hc. repeat split; assumption.
  - destruct Heff as (Hp & Ha & Hc).
    unfold System.active_bound, System.ids_distinct,
      System.queued_ids, System.active_ids in *.
    rewrite Hp, Ha, Hc. repeat split; assumption.
  - destruct Heff as (Hp & Ha & Hc).
    unfold System.active_bound, System.ids_distinct,
      System.queued_ids, System.active_ids in *.
    rewrite Hp, Ha, Hc. repeat split; assumption.
Qed.

Lemma init_well_formed (n : Z) : System.well_formed (System.init n).
Proof.
  split; [apply ids_drawn_init|]. split; [apply bytes_tracked_init|].
  split; [split; [apply NoDup_nil_2 | constructor]|].
  split; [|constructor].
  split; [apply NoDup_nil_2|]. split; constructor.
Qed.

Lemma reachable_well_formed (n : Z) (actions : list System.action) :
  System.well_formed (System.run actions (System.init n)).
Proof.
  unfold System.run.
  generalize (init_well_formed n). generalize (System.init n).
  induction actions as [|a actions IH]; intros s Hs; simpl; [exact Hs|].
  apply IH, step_well_formed, Hs.
Qed.

End WellFormed.


(* ===================================================================== *)
(** * The queue manager: what its status calls report *)
(* ===================================================================== *)

Section Views.
Import Py QueueManager.

Lemma get_status_here (h : Downloader.handle) (s : System.t) :
  on_downloader (dl_get_status h) s
  = Return (Downloader.snapshot
              <$> Downloader.download_tasks (downloader s) !! h) s.
Proof.
  unfold on_downloader. cbn [dl_get_status Downloader_like].
  unfold Downloader.get_status. py_unfold.
  destruct s as [d p a c]. cbn [downloader pending_queue active_downloads qm_id_counter].
  destruct (Downloader.download_tasks d !! h); reflexivity.
Qed.

Lemma merged_eq (pair : Downloader.handle * Entry) (s : System.t) :
  merged pair s
  = Return (snd pair, fst pair, System.live_view (downloader s) (fst pair)) s.
Proof.
  destruct pair as [h e]. unfold merged, bind. rewrite get_status_here.
  unfold System.live_view. cbn [fst snd].
  destruct (Downloader.download_tasks (downloader s) !! h); reflexivity.
Qed.

Lemma merge_loop_eq (l : dict Downloader.handle Entry)
      (acc : list (Entry * Downloader.handle * LiveStatus)) (s : System.t) :
  for_each (fun active pair =>
              bind (merged pair) (fun merged_details =>
                ret (active ++ [merged_details])))
           l acc s
  = Return (acc ++ map (fun pair =>
                          (snd pair, fst pair,
                           System.live_view (downloader s) (fst pair))) l)
           s.
Proof.
  revert acc. induction l as [|pair l IH]; intros acc.
  - cbn. now rewrite app_nil_r.
  - cbn [for_each map]. unfold bind at 1. unfold bind at 1.
    rewrite merged_eq. unfold ret at 1. rewrite IH.
    now rewrite <- app_assoc.
Qed.

(** X11: [get_queue_status] leaves the state as it is and returns the
    two counts, the backlog, and one merged entry per active download,
    in order; in any reachable state the pool knows every active
    download, for the URL and the path of its entry, so that no merged
    entry carries ['unknown_at_downloader']. *)
Theorem X11_queue_status_shows_every_active_task
        (n : Z) (actions : list System.action) :
  let s := System.run actions (System.init n) in
  let d := downloader s in
  get_queue_status s
  = Return (mkQueueStatus
              (length (pending_queue s)) (length (active_downloads s))
              (pending_queue s)
              (map (fun pair => (snd pair, fst pair,
                                 System.live_view d (fst pair)))
                   (active_downloads s)))
           s
  /\ forall pair,
       In pair (active_downloads s) ->
       exists task,
         Downloader.download_tasks d !! fst pair = Some task
         /\ System.live_view d (fst pair)
            = live_status (Downloader.snapshot task)
         /\ Downloader.url task = url (snd pair)
         /\ Downloader.filepath task = filepath (snd pair).
Proof.
  intros s d. split.
  - unfold get_queue_status. unfold bind at 1. unfold get at 1.
    unfold bind at 1. rewrite merge_loop_eq. reflexivity.
  - intros pair Hin.
    destruct (reachable_well_formed n actions)
      as (_ & _ & (_ & Hbound) & _).
    rewrite List.Forall_forall in Hbound.
    destruct (Hbound pair Hin) as (task & Hl & Hu & Hp).
    exists task. unfold System.live_view. fold s d in Hl. rewrite Hl. auto.
Qed.

Lemma find_pending (id : string) (l : list Entry) :
  In id (map qm_id l) ->
  exists task,
    List.find (fun task => String.eqb (qm_id task) id) l = Some task
    /\ In task l.
Proof.
  intros Hin. apply in_map_iff in Hin as (e & He & Hin).
  destruct (List.find _ l) as [task|] eqn:Hf.
  - exists task. split; [reflexivity|]. now apply find_some in Hf.
  - exfalso. apply (find_none _ _ Hf) in Hin.
    apply String.eqb_neq in Hin. contradiction.
Qed.

Lemma find_absent {A} (g : A -> string) (id : string) (l : list A) :
  ~ In id (map g l) ->
  List.find (fun x => String.eqb (g x) id) l = None.
Proof.
  intros Hn. destruct (List.find _ l) as [x|] eqn:Hf; [|reflexivity].
  apply find_some in Hf as [Hin Heq]. apply String.eqb_eq in Heq.
  exfalso. apply Hn. apply in_map_iff. eauto.
Qed.

Lemma get_task_status_queued (s : System.t) (id : string) :
  System.well_formed s ->
  In id (System.queued_ids s) ->
  get_task_status id s = Return (pending_in_queue id queued) s.
Proof.
  intros (_ & _ & _ & _ & Hq) Hin.
  destruct (find_pending id _ Hin) as (task & Hf & Htask).
  unfold get_task_status. py_unfold. rewrite Hf.
  rewrite List.Forall_forall in Hq. now rewrite (Hq task Htask).
Qed.

Lemma get_task_status_active (s : System.t) (id : string) :
  System.well_formed s ->
  In id (System.active_ids s) ->
  exists h e task,
    In (h, e) (active_downloads s)
    /\ qm_id e = id
    /\ Downloader.download_tasks (downloader s) !! h = Some task
    /\ get_task_status id s
       = Return (active_in_downloader id h (status e)
                   (Some (Downloader.status task))
                   (Downloader.error task))
                s.
Proof.
  intros (_ & _ & (_ & Hbound) & (Hdis & _) & _) Hin.
  assert (Hnq : ~ In id (System.queued_ids s)).
  { intros Hq. apply NoDup_app in Hdis as (_ & Hdisj & _).
    apply (Hdisj id); now apply list_elem_of_In. }
  destruct (List.find (fun pair => String.eqb (qm_id (snd pair)) id)
                      (active_downloads s)) as [[h e]|] eqn:Hf.
  - apply find_some in Hf as Hhe. destruct Hhe as [Hhe Heq].
    apply String.eqb_eq in Heq. cbn [snd] in Heq.
    rewrite List.Forall_forall in Hbound.
    destruct (Hbound _ Hhe) as (task & Hl & _). cbn [fst] in Hl.
    exists h, e, task. split; [exact Hhe|]. split; [exact Heq|].
    split; [exact Hl|].
    unfold get_task_status. unfold bind at 1. unfold get at 1.
    rewrite (find_absent qm_id id _ Hnq), Hf.
    unfold bind. rewrite get_status_here, Hl. reflexivity.
  - exfalso. apply in_map_iff in Hin as (p & Hp & Hin).
    apply (find_none _ _ Hf) in Hin. apply String.eqb_neq in Hin.
    contradiction.
Qed.

Lemma get_task_status_unknown (s : System.t) (id : string) :
  ~ In id (System.queued_ids s) ->
  ~ In id (System.active_ids s) ->
  get_task_status id s = Return (task_not_found id) s.
Proof.
  intros Hnq Hna. unfold get_task_status. py_unfold.
  rewrite (find_absent qm_id id _ Hnq).
  now rewrite (find_absent (fun p => qm_id (snd p)) id _ Hna).
Qed.

(** X12: in any reachable state [get_task_status] leaves the state as
    it is and answers by case: for an id of the backlog, the pending
    dict with status ['queued']; for an id of the active set, the active
    dict with the download id, the status of the entry, the status the
    pool reports (never ["unknown"]) and its error; for any other id,
    ['not_found']. *)
Theorem X12_task_status_by_case
        (n : Z) (actions : list System.action) (id : string) :
  let s := System.run actions (System.init n) in
  (In id (System.queued_ids s) ->
   get_task_status id s = Return (pending_in_queue id queued) s)
  /\ (In id (System.active_ids s) ->
      exists h e task,
        In (h, e) (active_downloads s)
        /\ qm_id e = id
        /\ Downloader.download_tasks (downloader s) !! h = Some task
        /\ get_task_status id s
           = Return (active_in_downloader id h (status e)
                       (Some (Downloader.status task))
                       (Downloader.error task))
                    s)
  /\ (~ In id (System.queued_ids s) ->
      ~ In id (System.active_ids s) ->
      get_task_status id s = Return (task_not_found id) s).
Proof.
  intros s. pose proof (reachable_well_formed n actions) as Hwf.
  split; [now apply get_task_status_queued|].
  split; [now apply get_task_status_active|].
  apply get_task_status_unknown.
Qed.

(** X10: in any reachable state the queue ids of the backlog and of
    the active set are pairwise distinct, and no download id is filed
    twice in the active set. *)
Theorem X10_queue_ids_are_distinct (n : Z) (actions : list System.action) :
  let s := System.run actions (System.init n) in
  NoDup (System.queued_ids s ++ System.active_ids s)
  /\ NoDup (map fst (active_downloads s)).
Proof.
  intros s.
  destruct (reachable_well_formed n actions)
    as (_ & _ & (Hk & _) & (Hdis & _) & _).
  split; assumption.
Qed.

(** X9: in any reachable state, one pass of the loop leaves in the
    active set exactly the entries whose transfer the pool reports as
    not ['completed'], ['failed'] or ['cancelled'], in their order and
    with the reported status, followed by the head of the backlog under
    a fresh download id when the backlog is not empty and fewer entries
    than workers were left; the backlog loses that head and nothing
    else, and the counter of queue ids stays. *)
Theorem X9_pass_drops_the_finished_and_promotes_one
        (n : Z) (actions : list System.action) :
  let s := System.run actions (System.init n) in
  let s' := System.step s System.process_queue_once in
  let active1 := System.survivors (downloader s) (active_downloads s) in
  active_downloads s' = active1 ++ System.promoted s active1
  /\ pending_queue s'
     = match System.promoted s active1 with
       | [] => pending_queue s
       | _ => tl (pending_queue s)
       end
  /\ qm_id_counter s' = qm_id_counter s.
Proof.
  intros s s' active1.
  destruct (pass_step_exact s (reachable_well_formed n actions))
    as (Ha & Hc & Hrest).
  cbv zeta in Ha, Hc, Hrest. fold s' active1 in Ha, Hc, Hrest.
  split; [exact Ha|]. split; [|exact Hc].
  destruct (System.promoted s active1).
  - tauto.
  - destruct Hrest as (e & rest & -> & -> & _). reflexivity.
Qed.

End Views.

Section RoundTrip.
Import Py QueueManager.

Lemma filter_place_after {A} (le : A -> A -> bool) (f : A -> bool) (x : A)
      (l : list A) :
  f x = false -> (forall y, In y l -> f y = true) ->
  List.filter f (place_after le x l) = l.
Proof.
  intros Hx. induction l as [|y l IH]; intros Hall; simpl.
  - now rewrite Hx.
  - destruct (le y x); simpl.
    + rewrite (Hall y) by (now left). f_equal. apply IH.
      intros z Hz. apply Hall. now right.
    + rewrite Hx, (Hall y) by (now left). f_equal. apply filter_all.
      intros z Hz. apply Hall. now right.
Qed.

Lemma add_download_eq (now : Q) (source path : string) (priority : Z)
      (s : System.t) :
  add_download now source path priority s
  = Return (System.qm_name (S (qm_id_counter s)))
           (mk (downloader s)
               (sort key_le
                  (pending_queue s
                     ++ [mkEntry (System.qm_name (S (qm_id_counter s)))
                                 source path priority now queued]))
               (active_downloads s) (S (qm_id_counter s))).
Proof. reflexivity. Qed.

Lemma remove_queued_eq (id : string) (s : System.t) :
  In id (System.queued_ids s) ->
  remove_download id s
  = Return true
      (with_pending
         (List.filter (fun task => negb (String.eqb (qm_id task) id))) s).
Proof.
  intros Hin. apply in_map_iff in Hin as (e & He & Hin).
  unfold remove_download. py_unfold.
  cbn [pending_queue with_pending].
  assert (Hlt : (length (List.filter
                           (fun task => negb (String.eqb (qm_id task) id))
                           (pending_queue s))
                 < length (pending_queue s))%nat).
  { apply (filter_some_out _ _ _ e Hin).
    apply negb_false_iff, String.eqb_eq, He. }
  destruct (Nat.eqb_spec
              (length (List.filter
                         (fun task => negb (String.eqb (qm_id task) id))
                         (pending_queue s)))
              (length (pending_queue s))) as [Heq|Hne]; [lia|].
  reflexivity.
Qed.

Lemma reachable_sorted (n : Z) (actions : list System.action) :
  StronglySorted (fun e1 e2 => key_le e1 e2 = true)
                 (pending_queue (System.run actions (System.init n))).
Proof. apply run_sorted. constructor. Qed.

(** X13: in any reachable state, [add_download] returns the next queue
    id, under which [get_task_status] then reports the request as
    pending and ['queued']; [remove_download] of that id returns [True]
    and restores the backlog, the active set and the pool as they were
    before the request, after which [get_task_status] reports
    ['not_found']. *)
Theorem X13_add_then_remove_restores_the_queue
        (n : Z) (actions : list System.action)
        (now : Q) (source path : string) (priority : Z) :
  let s := System.run actions (System.init n) in
  let id := System.qm_name (S (qm_id_counter s)) in
  let s2 := mk (downloader s) (pending_queue s) (active_downloads s)
               (S (qm_id_counter s)) in
  exists s1,
    add_download now source path priority s = Return id s1
    /\ get_task_status id s1 = Return (pending_in_queue id queued) s1
    /\ remove_download id s1 = Return true s2
    /\ get_task_status id s2 = Return (task_not_found id) s2.
Proof.
  intros s id s2.
  pose proof (reachable_well_formed n actions) as Hwf. fold s in Hwf.
  pose proof (reachable_sorted n actions) as Hsorted. fold s in Hsorted.
  pose proof Hwf as (_ & _ & _ & (_ & Hip & Hia) & _).
  set (new := mkEntry id source path priority now queued).
  assert (Hfresh_p : forall e, In e (pending_queue s) -> qm_id e <> id).
  { intros e He. rewrite List.Forall_forall in Hip.
    apply issued_fresh, Hip, He. }
  assert (Hfresh_a : ~ In id (System.active_ids s)).
  { intros Hin. apply in_map_iff in Hin as (p & Hp & Hin).
    rewrite List.Forall_forall in Hia.
    exact (issued_fresh _ _ (Hia p Hin) Hp). }
  assert (Hplace : sort key_le (pending_queue s ++ [new])
                   = place_after key_le new (pending_queue s)).
  { apply (sort_snoc key_le key_le_trans), Hsorted. }
  eexists. split; [apply add_download_eq|].
  fold id new. rewrite Hplace.
  set (s1 := mk (downloader s) (place_after key_le new (pending_queue s))
                (active_downloads s) (S (qm_id_counter s))).
  assert (Hs1 : s1 = System.step s
                       (System.add_download now source path priority)).
  { unfold System.step. cbn [System.exec]. unfold System.discard, bind.
    rewrite add_download_eq. fold id new. rewrite Hplace. reflexivity. }
  assert (Hin1 : In id (System.queued_ids s1)).
  { unfold System.queued_ids, s1. cbn [pending_queue].
    apply in_map_iff. exists new. split; [reflexivity|].
    assert (Hall : Forall (fun e => In e (place_after key_le new
                                            (pending_queue s)))
                          (place_after key_le new (pending_queue s))).
    { apply List.Forall_forall. auto. }
    clear -s. induction (pending_queue s) as [|y l IH]; simpl; [now left|].
    destruct (key_le y new); [right; exact IH | now left]. }
  split; [|split].
  - apply get_task_status_queued; [|exact Hin1].
    rewrite Hs1. apply step_well_formed, Hwf.
  - rewrite (remove_queued_eq id s1 Hin1). unfold with_pending, s1, s2.
    cbn [downloader pending_queue active_downloads qm_id_counter].
    rewrite filter_place_after; [reflexivity| |].
    + cbn. now rewrite String.eqb_refl.
    + intros e He. apply negb_true_iff, String.eqb_neq, Hfresh_p, He.
  - apply get_task_status_unknown; [|exact Hfresh_a].
    intros Hin. apply in_map_iff in Hin as (e & He & Hin).
    exact (Hfresh_p e Hin He).
Qed.

End RoundTrip.

Section PartialFile.
Import Py Downloader.

(** X14: when a blocking call of a transfer raises, the clause that
    takes the exception leaves every file as it was.  An [IOError], which
    every [OSError] and every exception of [requests] is, goes to the
    first clause (lines 109-116), after which the thread has returned:
    the partial file stays.  Any other exception goes to the last clause
    (lines 126-134), and the thread goes on to lines 133-134: its next
    step returns, having removed the file at its path when bytes had
    been written, unless [os.remove] raises; every other file is as it
    was. *)
Theorem X14_partial_file_after_a_failure
        (d : Downloader.t) (h : handle) (th : Thread) (e : exn) :
  threads d !! h = Some th ->
  at_blocking_call (th_pc th) = true ->
  exists d',
    thread_step h (ev_raise e) d = Return tt d'
    /\ files d' = files d
    /\ match class_of e with
       | an_OSError | a_RequestException =>
           th_pc <$> threads d' !! h = Some finished
       | another_Exception =>
           forall ev, exists d'',
             thread_step h ev d' = Return tt d''
             /\ th_pc <$> threads d'' !! h = Some finished
             /\ files d''
                = match ev with
                  | ev_raise _ => files d
                  | _ => if 0 <? th_bytes_downloaded th
                         then delete (th_filepath th) (files d)
                         else files d
                  end
       end.
Proof.
  intros Hth Hpc.
  set (after := if is_IOError e then finished else at_unexpected_cleanup).
  assert (Hwp : wpx (thread_step h (ev_raise e))
                    (fun _ d' =>
                       files d' = files d
                       /\ threads d' !! h = Some (goto after th))
                    never d).
  { unfold thread_step. apply wpx_bind, wpx_get. rewrite Hth.
    assert (Hclauses : wpx (dispatch (except_clauses h th) e)
                           (fun _ d' =>
                              files d' = files d
                              /\ threads d' !! h = Some (goto after th))
                           never d).
    { unfold except_clauses. cbn [dispatch].
      unfold after, is_IOError, is_RequestException.
      destruct (class_of e);
        unfold on_IOError, on_Exception, mark_failed; wp_run;
        cbn [files threads with_threads with_tasks with_files];
        rewrite lookup_alter_eq, Hth; auto. }
    destruct (th_pc th) eqn:Hp; try discriminate Hpc;
      apply wpx_try_except; unfold try_body; rewrite Hp;
      cbn [connect open_wb next_chunk write_chunk];
      apply wpx_raise, Hclauses. }
  destruct (wpx_returns _ _ _ Hwp) as ([] & d' & Heq & Hfiles & Hth').
  exists d'. split; [exact Heq|]. split; [exact Hfiles|].
  unfold after, is_IOError in Hth'.
  destruct (class_of e);
    try (rewrite Hth'; reflexivity).
  intros ev.
  assert (Hnext : wpx (thread_step h ev)
                      (fun _ d'' =>
                         th_pc <$> threads d'' !! h = Some finished
                         /\ files d''
                            = match ev with
                              | ev_raise _ => files d
                              | _ => if 0 <? th_bytes_downloaded th
                                     then delete (th_filepath th) (files d)
                                     else files d
                              end)
                      never d').
  { unfold thread_step. apply wpx_bind, wpx_get. rewrite Hth'.
    cbn [th_pc goto]. unfold unexpected_cleanup, path_exists.
    apply wpx_bind, wpx_bind, wpx_get, wpx_ret. cbn [th_filepath goto
      th_bytes_downloaded]. apply wpx_bind.
    assert (Hend : forall fs d0,
               threads d0 !! h = Some (goto at_unexpected_cleanup th) ->
               files d0 = fs ->
               th_pc <$> threads (with_threads (alter (goto finished) h) d0)
                           !! h = Some finished
               /\ files (with_threads (alter (goto finished) h) d0) = fs).
    { intros fs d0 H0 <-. cbn [threads files with_threads].
      now rewrite lookup_alter_eq, H0. }
    destruct (files d' !! th_filepath th) as [content|] eqn:Hp.
    - rewrite bool_decide_eq_true_2 by eauto. cbn [andb].
      destruct (0 <? th_bytes_downloaded th).
      + apply wpx_bind. unfold wpx at 1, cleanup_incomplete_download.
        py_unfold. rewrite Hp.
        destruct ev; apply wpx_leave, Hend;
          cbn [threads files with_files]; congruence.
      + apply wpx_ret, wpx_leave, Hend; [exact Hth'|].
        destruct ev; exact Hfiles.
    - rewrite bool_decide_eq_false_2 by (intros [x Hx]; discriminate).
      cbn [andb]. apply wpx_ret, wpx_leave, Hend; [exact Hth'|].
      rewrite Hfiles in Hp.
      destruct ev, (0 <? th_bytes_downloaded th);
        rewrite ?(delete_id _ _ Hp); exact Hfiles. }
  destruct (wpx_returns _ _ _ Hnext) as ([] & d'' & Heq' & Hq).
  exists d''. split; [exact Heq' | exact Hq].
Qed.

End PartialFile.


(* ===================================================================== *)
(** * The progress tracker: sizes *)
(* ===================================================================== *)

Section Sizes.
Import ProgressTracker.

Lemma scale_spec (turns : nat) (x : Q) (i : nat) :
  (i <= 4)%nat ->
  exists num j,
    scale turns x i = (num, j)
    /\ (i <= j <= 4)%nat
    /\ (num * inject_Z (1024 ^ Z.of_nat (j - i)) == x)%Q
    /\ ((i < j)%nat -> (1 <= num)%Q)
    /\ ((4 <= i + turns)%nat -> (1024 <= num)%Q -> j = 4%nat).
Proof.
  revert x i. induction turns as [|turns IH]; intros x i Hi.
  - exists x, i. cbn [scale]. rewrite Nat.sub_diag.
    repeat split; try lia.
    + change (inject_Z (1024 ^ Z.of_nat 0)) with 1%Q. apply Qmult_1_r.
  - cbn [scale].
    destruct (Qle_bool 1024 x) eqn:Hx; cbn [andb].
    2:{ exists x, i. rewrite Nat.sub_diag. repeat split; try lia.
        - change (inject_Z (1024 ^ Z.of_nat 0)) with 1%Q. apply Qmult_1_r.
        - intros _ Hle. apply Qle_bool_iff in Hle. congruence. }
    apply Qle_bool_iff in Hx.
    destruct (Nat.ltb_spec i (length size_name - 1)) as [Hlt|Hge];
      cbn [length size_name] in *.
    2:{ exists x, i. rewrite Nat.sub_diag. repeat split; try lia.
        change (inject_Z (1024 ^ Z.of_nat 0)) with 1%Q. apply Qmult_1_r. }
    destruct (IH (x / 1024)%Q (S i)) as (num & j & Heq & Hij & Hmul & Hone & Hexit);
      [lia|].
    exists num, j. split; [exact Heq|]. split; [lia|].
    split; [|split].
    + replace (j - i)%nat with (S (j - S i)) by lia.
      rewrite Nat2Z.inj_succ, Z.pow_succ_r by lia.
      rewrite inject_Z_mult.
      transitivity ((num * inject_Z (1024 ^ Z.of_nat (j - S i))) * 1024)%Q;
        [change (inject_Z 1024) with 1024%Q; ring|].
      rewrite Hmul. field.
    + intros _. destruct (Nat.eq_dec j (S i)) as [->|Hne].
      * rewrite Nat.sub_diag in Hmul.
        change (inject_Z (1024 ^ Z.of_nat 0)) with 1%Q in Hmul.
        rewrite Qmult_1_r in Hmul. rewrite Hmul.
        apply Qle_shift_div_l; [reflexivity|].
        rewrite Qmult_1_l. exact Hx.
      * apply Hone. lia.
    + intros Hturns. apply Hexit. lia.
Qed.

(** X15: for a size other than 0 that a float holds exactly (below
    2^53 in absolute value), [get_human_readable_size] shows a number
    and a unit of [size_name] such that the number times 1024 to the
    rank of the unit is the size; the number is below 1024 unless the
    unit is the last one, and at least 1 unless the unit is the first;
    the loop has ended within four turns. *)
Theorem X15_readable_size_picks_the_unit (n : Z) :
  n <> 0 ->
  Z.abs n < 2 ^ 53 ->
  exists num i unit_name,
    get_human_readable_size (Some n) = amount num unit_name
    /\ nth_error size_name i = Some unit_name
    /\ (num * inject_Z (1024 ^ Z.of_nat i) == inject_Z n)%Q
    /\ ((1024 <= num)%Q -> i = 4%nat)
    /\ ((0 < i)%nat -> (1 <= num)%Q)
    /\ forall turns, (4 <= turns)%nat -> scale turns (inject_Z n) 0 = (num, i).
Proof.
  intros Hn _.
  destruct (scale_spec (length size_name) (inject_Z n) 0)
    as (num & j & Heq & Hj & Hmul & Hone & Hexit); [lia|].
  rewrite Nat.sub_0_r in Hmul.
  exists num, j, (nth j size_name "").
  split; [|split; [|split; [exact Hmul|split; [|split; [exact Hone|]]]]].
  - unfold get_human_readable_size.
    destruct n as [|q|q]; [congruence| |]; now rewrite Heq.
  - assert (Hcases : j = 0%nat \/ j = 1%nat \/ j = 2%nat \/ j = 3%nat
                     \/ j = 4%nat) by lia.
    destruct Hcases as [->|[->|[->|[->| ->]]]]; reflexivity.
  - apply Hexit. cbn. lia.
  - intros turns Hturns.
    destruct (scale_spec turns (inject_Z n) 0)
      as (num' & j' & Heq' & Hj' & Hmul' & Hone' & Hexit'); [lia|].
    rewrite Heq'. clear Hmul Hmul' Hone Hone' Hj Hj'.
    cbn [length size_name] in Heq.
    assert (Hgen : forall t1 t2 x i,
              (4 <= i + t1)%nat -> (4 <= i + t2)%nat ->
              scale t1 x i = scale t2 x i).
    { clear. induction t1 as [|t1 IH]; intros t2 x i H1 H2.
      - destruct t2 as [|t2]; [reflexivity|]. cbn [scale].
        destruct (Nat.ltb_spec i (length size_name - 1)) as [Hlt|_];
          [cbn in Hlt; lia|].
        now rewrite andb_false_r.
      - destruct t2 as [|t2]; cbn [scale].
        + destruct (Nat.ltb_spec i (length size_name - 1)) as [Hlt|_];
            [cbn in Hlt; lia|].
          now rewrite andb_false_r.
        + destruct (Qle_bool 1024 x && (i <? length size_name - 1)%nat)
            eqn:Hc; [|reflexivity].
          apply IH; lia. }
    rewrite <- Heq', <- Heq. apply Hgen; lia.
Qed.

End Sizes.


(* ===================================================================== *)
(** * Nothing raises; removing an active download *)
(* ===================================================================== *)

Section NeverRaises.
Import Py.

(** X17: from any state, no call into the queue manager or the pool,
    no pass of the loop and no step of a transfer thread raises; in
    particular the pass never meets a missing key in
    [active_downloads]. *)
Theorem X17_no_action_raises (s : System.t) (a : System.action) :
  exists s', System.exec a s = Return tt s'.
Proof.
  exists (System.step s a).
  apply (exec_returns (fun _ => True)); try exact I.
  - intros source path d _. unfold Downloader.start_download. wp_run. exact I.
  - intros h d _. unfold Downloader.pause_download. wp_run; exact I.
  - intros h d _. unfold Downloader.resume_download. wp_run; exact I.
  - intros h d _. unfold Downloader.cancel_download. wp_run; exact I.
  - intros h ev d _. apply thread_step_returns.
Qed.

End NeverRaises.

Section RemoveActive.
Import Py QueueManager.





End RemoveActive.

Section RemoveActive2.
Import Py QueueManager.


End RemoveActive2.


(* ===================================================================== *)
(** * The same properties on concrete runs *)
(* ===================================================================== *)


Lemma X5_paused_after_start_never_downloads_again_witness :
  let s := System.run Scenario.paused_after_start (System.init 1) in
  exists task',
    Downloader.download_tasks
      (QueueManager.downloader (System.run Scenario.resumed_to_the_end s))
      !! 0%nat
    = Some task'
    /\ Downloader.status task' <> Downloader.downloading
    /\ Downloader.status task' <> Downloader.completed.
Proof.
  apply (X5_paused_after_start_never_downloads_again
           1 Scenario.paused_after_start Scenario.resumed_to_the_end 0%nat
           (Downloader.mkTask "http://example.com/file.txt" "file.txt"
                              Downloader.paused None 0%float 0 0 None)
           (Downloader.mkThread "http://example.com/file.txt" "file.txt"
                                Downloader.at_connect 0 0)).
  - vm_compute. reflexivity.
  - vm_compute. reflexivity.
  - discriminate.
  - discriminate.
  - discriminate.
Defined.

Lemma X6_cancelled_or_failed_is_for_good_witness :
  let s := System.run Scenario.cancel_in_loop (System.init 1) in
  exists task',
    Downloader.download_tasks
      (QueueManager.downloader (System.run Scenario.error_then_calls s))
      !! 0%nat
    = Some task'
    /\ (Downloader.status task' = Downloader.cancelling
        \/ Downloader.status task' = Downloader.cancelled
        \/ Downloader.status task' = Downloader.failed).
Proof.
  apply (X6_cancelled_or_failed_is_for_good
           1 Scenario.cancel_in_loop Scenario.error_then_calls 0%nat
           (Downloader.mkTask "http://example.com/cancellable.txt"
                              "cancellable.txt" Downloader.cancelling None
                              (Downloader.percentage 6 10000) 6 10000
                              (Some 0))).
  - vm_compute. reflexivity.
  - left. reflexivity.
Defined.

Lemma X8_undisturbed_transfer_completes_witness :
  (let d' :=
     QueueManager.downloader
       (System.run
          (System.start_download "http://example.com/file.txt" "file.txt"
             :: Scenario.whole_transfer 0 12 [Scenario.chunk1; Scenario.chunk2])
          (System.init 1)) in
   exists shown,
     Downloader.download_tasks d' !! 0%nat
     = Some (Downloader.mkTask "http://example.com/file.txt" "file.txt"
                               Downloader.completed None shown 12 12 (Some 0))
     /\ Downloader.files d' !! "file.txt"
        = Some (Scenario.chunk1 ++ Scenario.chunk2)
     /\ shown = 100%float)
  /\ (let d' :=
        QueueManager.downloader
          (System.run
             (System.start_download "http://example.com/file.txt" "file.txt"
                :: Scenario.whole_transfer 0 36
                     [Scenario.chunk1; Scenario.chunk2])
             (System.init 1)) in
      exists shown,
        Downloader.download_tasks d' !! 0%nat
        = Some (Downloader.mkTask "http://example.com/file.txt" "file.txt"
                                  Downloader.completed None shown 12 36
                                  (Some 0))
        /\ shown = 0x1.0aaaaaaaaaaaap+5%float).
Proof.
  split.
  - destruct (X8_undisturbed_transfer_completes
                (System.init 1) "http://example.com/file.txt" "file.txt" 12
                [Scenario.chunk1; Scenario.chunk2])
      as (shown & Htask & _ & Hfile & Hfull & _).
    exists shown. split; [exact Htask|]. split; [exact Hfile|].
    apply Hfull; reflexivity.
  - destruct (X8_undisturbed_transfer_completes
                (System.init 1) "http://example.com/file.txt" "file.txt" 36
                [Scenario.chunk1; Scenario.chunk2])
      as (shown & Htask & _ & _ & _ & Hshown & _).
    exists shown. split; [exact Htask|].
    assert (Hne : Z.of_nat
                    (length (concat [Scenario.chunk1; Scenario.chunk2]))
                  <> 36)
      by (vm_compute; discriminate).
    assert (Hreceived : Downloader.exact_in_float
                          (Z.of_nat
                             (length
                                (concat [Scenario.chunk1; Scenario.chunk2]))))
      by (vm_compute; split; [discriminate | reflexivity]).
    assert (Hdeclared : Downloader.exact_in_float 36)
      by (split; [discriminate | reflexivity]).
    destruct (Hshown eq_refl Hne Hreceived Hdeclared)
      as [[_ Hnone]|Hpart].
    + vm_compute in Hnone. discriminate Hnone.
    + rewrite Hpart. vm_compute. reflexivity.
Defined.

Lemma X11_queue_status_shows_every_active_task_witness :
  let s := System.run Scenario.active_at_headers (System.init 1) in
  let d := QueueManager.downloader s in
  exists task,
    Downloader.download_tasks d !! 0%nat = Some task
    /\ System.live_view d 0%nat
       = QueueManager.live_status (Downloader.snapshot task)
    /\ Downloader.url task = "http://x/a"
    /\ Downloader.filepath task = "a.bin".
Proof.
  apply (proj2 (X11_queue_status_shows_every_active_task
                  1 Scenario.active_at_headers)
               (0%nat,
                QueueManager.mkEntry "qm_1" "http://x/a" "a.bin" 0 1
                                     QueueManager.processing)).
  vm_compute. left. reflexivity.
Defined.

Lemma X12_task_status_by_case_witness :
  let s := System.run Scenario.add_three (System.init 2) in
  QueueManager.get_task_status "qm_2" s
  = Py.Return (QueueManager.pending_in_queue "qm_2" QueueManager.queued) s.
Proof.
  apply (proj1 (X12_task_status_by_case 2 Scenario.add_three "qm_2")).
  vm_compute. right. left. reflexivity.
Defined.

Lemma X14_partial_file_after_a_failure_witness :
  let d := QueueManager.downloader
             (System.run (Scenario.receive_both_chunks 100) (System.init 1)) in
  exists d',
    Downloader.thread_step
      0%nat (Downloader.ev_raise Scenario.connection_error) d
    = Py.Return tt d'
    /\ Downloader.files d' = Downloader.files d
    /\ Downloader.th_pc <$> Downloader.threads d' !! 0%nat
       = Some Downloader.finished.
Proof.
  cbv zeta.
  assert (Hth : Downloader.threads
                  (QueueManager.downloader
                     (System.run (Scenario.receive_both_chunks 100)
                                 (System.init 1))) !! 0%nat
                = Some (Downloader.mkThread "http://example.com/file.txt"
                          "file.txt" Downloader.at_next_chunk 12 100)).
  { vm_compute. reflexivity. }
  destruct (X14_partial_file_after_a_failure
              _ 0%nat _ Scenario.connection_error Hth eq_refl)
    as (d' & Hstep & Hfiles & Hpc).
  exists d'. split; [exact Hstep|]. split; [exact Hfiles | exact Hpc].
Defined.

Lemma X15_readable_size_picks_the_unit_witness :
  exists num i unit_name,
    ProgressTracker.get_human_readable_size (Some 1536)
    = ProgressTracker.amount num unit_name
    /\ nth_error ProgressTracker.size_name i = Some unit_name
    /\ (num * inject_Z (1024 ^ Z.of_nat i) == inject_Z 1536)%Q
    /\ ((1024 <= num)%Q -> i = 4%nat)
    /\ ((0 < i)%nat -> (1 <= num)%Q)
    /\ forall turns, (4 <= turns)%nat ->
                     ProgressTracker.scale turns (inject_Z 1536) 0 = (num, i).
Proof.
  apply X15_readable_size_picks_the_unit.
  - discriminate.
  - reflexivity.
Defined.


(* ===================================================================== *)
(** * Several passes in a row *)
(* ===================================================================== *)

Section OnePerPass.
Import Py QueueManager.

Lemma survivors_all (d : Downloader.t) (a : dict Downloader.handle Entry) :
  (forall p, In p a -> System.retires d (fst p) = false) ->
  System.survivors d a = map (System.refreshed d) a.
Proof.
  intros Hall. unfold System.survivors. apply filter_all.
  intros p Hp. apply in_map_iff in Hp as (q & <- & Hq).
  rewrite refreshed_fst, (Hall q Hq). reflexivity.
Qed.

Lemma passes_promote_one_each (k : nat) (s : System.t) :
  System.well_formed s ->
  (forall p, In p (active_downloads s) ->
             System.retires (downloader s) (fst p) = false) ->
  (k <= length (pending_queue s))%nat ->
  Z.of_nat (length (active_downloads s) + k)
  <= Downloader.num_workers (downloader s) ->
  let s' := System.run (repeat System.process_queue_once k) s in
  pending_queue s' = List.skipn k (pending_queue s)
  /\ System.active_ids s'
     = System.active_ids s ++ map qm_id (List.firstn k (pending_queue s))
  /\ map fst (active_downloads s')
     = map fst (active_downloads s)
         ++ List.seq (Downloader.uuid_drawn (downloader s)) k.
Proof.
  revert s. induction k as [|k IH]; intros s Hwf Hlive Hk Hfree s'.
  - cbn. now rewrite !app_nil_r.
  - subst s'. cbn [repeat System.run fold_left].
    fold (System.run (repeat System.process_queue_once k)
                     (System.step s System.process_queue_once)).
    destruct (pass_step_exact s Hwf) as (Ha & Hc & Hrest).
    cbv zeta in Ha, Hc, Hrest.
    set (s1 := System.step s System.process_queue_once) in *.
    rewrite (survivors_all _ _ Hlive) in Ha, Hrest.
    unfold System.promoted in Ha, Hrest.
    destruct (pending_queue s) as [|e rest] eqn:Hpend; [cbn in Hk; lia|].
    rewrite length_map in Ha, Hrest.
    destruct (Z.ltb_spec (Z.of_nat (length (active_downloads s)))
                         (Downloader.num_workers (downloader s)));
      [|lia].
    destruct Hrest as (e' & rest' & [= <- <-] & Hp1 & Hd1).
    assert (Hwf1 : System.well_formed s1) by apply step_well_formed, Hwf.
    pose proof Hwf as (Hids & _ & (_ & Hbound) & _).
    assert (Hnw : Downloader.num_workers (downloader s1)
                  = Downloader.num_workers (downloader s)).
    { rewrite Hd1, start_download_eq. reflexivity. }
    assert (Hud : Downloader.uuid_drawn (downloader s1)
                  = S (Downloader.uuid_drawn (downloader s))).
    { rewrite Hd1, start_download_eq. reflexivity. }
    destruct (IH s1 Hwf1) as (Hp' & Hi' & Hk').
    + intros p Hp. rewrite Ha in Hp. unfold System.retires.
      rewrite Hd1, start_download_eq. cbn [state_of Downloader.download_tasks].
      apply in_app_or in Hp as [Hp|[<-|[]]].
      * apply in_map_iff in Hp as (q & <- & Hq). rewrite refreshed_fst.
        assert (Hlt : (fst q < Downloader.uuid_drawn (downloader s))%nat).
        { apply (bound_is_drawn s Hids Hbound). now apply in_map. }
        rewrite lookup_alter_ne, lookup_insert_ne by lia.
        exact (Hlive q Hq).
      * cbn [fst]. rewrite lookup_alter_eq, lookup_insert_eq. reflexivity.
    + rewrite Hp1. cbn in Hk. lia.
    + rewrite Hnw, Ha, length_app, length_map. cbn [length]. lia.
    + rewrite Hp', Hp1. split; [reflexivity|].
      rewrite Hi', Hk', Hp1, Hud. unfold System.active_ids.
      rewrite Ha, !map_app, !map_map. cbn [map snd fst qm_id set_status List.firstn List.seq].
      rewrite (map_ext _ (fun p => qm_id (snd p)))
        by (intros p; apply refreshed_qm_id).
      rewrite (map_ext (fun x => fst (System.refreshed (downloader s) x)) fst)
        by (intros p; apply refreshed_fst).
      rewrite <- !app_assoc. split; reflexivity.
Qed.

(** X19: the loop promotes one request per pass.  In any reachable
    state in which the pool reports no active transfer as finished, [k]
    passes in a row, with at least [k] requests in the backlog and [k]
    free workers, promote exactly the first [k] requests of the backlog,
    in order, under the next [k] download ids, and leave the rest of the
    backlog in order. *)
Theorem X19_promotion_takes_one_pass_per_request
        (n : Z) (actions : list System.action) (k : nat) :
  let s := System.run actions (System.init n) in
  (forall p, In p (active_downloads s) ->
             System.retires (downloader s) (fst p) = false) ->
  (k <= length (pending_queue s))%nat ->
  Z.of_nat (length (active_downloads s) + k)
  <= Downloader.num_workers (downloader s) ->
  let s' := System.run (repeat System.process_queue_once k) s in
  pending_queue s' = List.skipn k (pending_queue s)
  /\ System.active_ids s'
     = System.active_ids s ++ map qm_id (List.firstn k (pending_queue s))
  /\ map fst (active_downloads s')
     = map fst (active_downloads s)
         ++ List.seq (Downloader.uuid_drawn (downloader s)) k.
Proof.
  intros s. apply passes_promote_one_each, reachable_well_formed.
Qed.

End OnePerPass.

Lemma X19_promotion_takes_one_pass_per_request_witness :
  let s := System.run Scenario.one_of_three_promoted (System.init 3) in
  let s' := System.run (repeat System.process_queue_once 2) s in
  QueueManager.pending_queue s'
  = List.skipn 2 (QueueManager.pending_queue s)
  /\ System.active_ids s'
     = System.active_ids s
         ++ map QueueManager.qm_id
                (List.firstn 2 (QueueManager.pending_queue s))
  /\ map fst (QueueManager.active_downloads s')
     = map fst (QueueManager.active_downloads s)
         ++ List.seq (Downloader.uuid_drawn (QueueManager.downloader s)) 2.
Proof.
  apply (X19_promotion_takes_one_pass_per_request
           3 Scenario.one_of_three_promoted 2).
  - intros p Hp. vm_compute in Hp. destruct Hp as [<-|[]].
    vm_compute. reflexivity.
  - vm_compute. lia.
  - vm_compute. discriminate.
Defined.
